(** * MerkleDB: content-addressed object store, trees, commits, workspace

    A shallow embedding of the Go package [merkledb] (object.go, storage.go,
    store.go, commit.go, workspace.go) together with the parts of the Go
    standard library it calls (encoding/hex, crypto/sha256, encoding/json for
    the values that occur, sort.Strings, time.Time.MarshalJSON).

    Conventions.
    - A Go [string] is a Rocq [string] (a sequence of bytes); a Go [[]byte]
      is a [list byte]; [string(b)] and [[]byte(s)] are the Standard
      Library's conversions.
    - A Go function returning [(v, err)] returns a pair whose second
      component is an [option error]; [None] is the nil error.
    - The storage backend is mutable shared state behind an interface:
      every method takes the backend state and returns the new one.
    - A [map[string]string] is a [gmap string string]. *)

From Stdlib Require Import ZArith NArith Strings.String Strings.Ascii Strings.Byte List Lia Sorting.Permutation.
From Stdlib Require Import Numbers.DecimalString.
From Stdlib Require Numbers.DecimalFacts Numbers.DecimalPos Numbers.DecimalN.
From stdpp Require Import base option list gmap strings sorting fin_maps.

Local Open Scope string_scope.
Local Open Scope Z_scope.
Local Open Scope list_scope.

(* ===================================================================== *)
(** ** Go values shared by all files                                      *)
(* ===================================================================== *)

Module Go.

(** [[]byte]. *)
Definition bytes : Type := list byte.

(** [[]byte(s)] and [string(b)]. *)
Definition bytes_of_string (s : string) : bytes := list_byte_of_string s.
Definition string_of_bytes (b : bytes) : string := string_of_list_byte b.

(** The numeric value of a byte, and the byte of a number below 256
    (conversion [byte(x)] keeps the low eight bits). *)
Definition byte_val (b : byte) : Z := Z.of_N (Byte.to_N b).
Definition byte_of_Z (x : Z) : byte :=
  match Byte.of_N (Z.to_N (x mod 256)) with
  | Some b => b
  | None => "000"%byte
  end.

(** The double quote, and [dq]: a literal written with ['] where the Go
    source has a double quote. *)
Definition quote : string := String "034"%char EmptyString.
Fixpoint dq (s : string) : string :=
  match s with
  | EmptyString => EmptyString
  | String c rest => String (if Ascii.eqb c "'"%char then "034"%char else c) (dq rest)
  end.

(** A slice that may be nil: [None] is the nil slice, [Some []] an empty
    non-nil one. Only used where the program observes the difference. *)
Definition slice (A : Type) : Type := option (list A).

(** Go [error] values that this package creates or inspects.
    [wrapError prefix err] is [fmt.Errorf(prefix + "%w", err)]: its
    [Unwrap] is [err]. [errorString] is [errors.New] or an [Errorf]
    without [%w]. [ErrNotFound] is the sentinel of storage.go. *)
Inductive error : Type :=
  | ErrNotFound
  | errorString (msg : string)
  | wrapError (prefix : string) (err : error)
  | hex_ErrLength
  | hex_InvalidByteError (b : byte)
  | json_MarshalerError (err : error).

Fixpoint error_eqb (e1 e2 : error) : bool :=
  match e1, e2 with
  | ErrNotFound, ErrNotFound => true
  | errorString a, errorString b => String.eqb a b
  | wrapError p1 a, wrapError p2 b => String.eqb p1 p2 && error_eqb a b
  | hex_ErrLength, hex_ErrLength => true
  | hex_InvalidByteError a, hex_InvalidByteError b => Byte.eqb a b
  | json_MarshalerError a, json_MarshalerError b => error_eqb a b
  | _, _ => false
  end.

(** [errors.Is(err, target)]: walk the [Unwrap] chain of [err] comparing
    each link with [target]. The targets used are sentinels, for which the
    comparison of the model and Go's [==] agree. *)
Fixpoint errors_Is (err target : error) : bool :=
  error_eqb err target ||
  match err with
  | wrapError _ inner => errors_Is inner target
  | json_MarshalerError inner => errors_Is inner target
  | _ => false
  end.

End Go.
Export Go.

(* ===================================================================== *)
(** ** encoding/hex                                                       *)
(* ===================================================================== *)

Module hex.

(** [const hextable = "0123456789abcdef"]. *)
Definition hextable : string := "0123456789abcdef".

Definition hexdigit (n : Z) : ascii :=
  match String.get (Z.to_nat n) hextable with
  | Some c => c
  | None => "0"%char
  end.

(** [EncodeToString]: two characters per byte, [hextable[v>>4]] then
    [hextable[v&0x0f]]. *)
Fixpoint EncodeToString (src : bytes) : string :=
  match src with
  | [] => EmptyString
  | v :: rest =>
      String (hexdigit (Z.shiftr (byte_val v) 4))
        (String (hexdigit (Z.land (byte_val v) 15)) (EncodeToString rest))
  end.

(** [reverseHexTable]: the value of a hex digit, [None] standing for the
    table's 0xff entries. *)
Definition fromHexChar (c : ascii) : option Z :=
  let n := Z.of_N (N_of_ascii c) in
  if (48 <=? n) && (n <=? 57) then Some (n - 48)
  else if (97 <=? n) && (n <=? 102) then Some (n - 97 + 10)
  else if (65 <=? n) && (n <=? 70) then Some (n - 65 + 10)
  else None.

(** [Decode]: consume the source two characters at a time; an invalid
    character stops with [InvalidByteError], a trailing single character
    with [InvalidByteError] if it is itself invalid and [ErrLength]
    otherwise. The bytes decoded so far are returned in both cases. *)
Fixpoint Decode (src : string) : bytes * option error :=
  match src with
  | EmptyString => ([], None)
  | String p EmptyString =>
      match fromHexChar p with
      | None => ([], Some (hex_InvalidByteError (byte_of_ascii p)))
      | Some _ => ([], Some hex_ErrLength)
      end
  | String p (String q rest) =>
      match fromHexChar p with
      | None => ([], Some (hex_InvalidByteError (byte_of_ascii p)))
      | Some a =>
          match fromHexChar q with
          | None => ([], Some (hex_InvalidByteError (byte_of_ascii q)))
          | Some b =>
              let '(dst, err) := Decode rest in
              (byte_of_Z (Z.lor (Z.shiftl a 4) b) :: dst, err)
          end
      end
  end.

Definition DecodeString (s : string) : bytes * option error := Decode s.

End hex.

(* ===================================================================== *)
(** ** crypto/sha256                                                      *)
(* ===================================================================== *)

Module sha256.

(** [uint32] arithmetic: values are kept in [0, 2^32). *)
Definition u32 (x : Z) : Z := x mod 4294967296.
Definition add32 (x y : Z) : Z := u32 (x + y).
Definition not32 (x : Z) : Z := Z.lxor x 4294967295.
(** [bits.RotateLeft32(x, -n)]. *)
Definition rotr (n x : Z) : Z :=
  Z.lor (Z.shiftr x n) (u32 (Z.shiftl x (32 - n))).

(** The first primes, by trial division. *)
Definition is_prime (n : nat) : bool :=
  forallb (fun d => negb (Nat.eqb (Nat.modulo n d) 0)) (seq 2 (n - 2)).
Definition primes (count : nat) : list Z :=
  map Z.of_nat (firstn count (filter is_prime (seq 2 320))).

(** The integer cube root of a number below [2^105], one bit at a time. *)
Fixpoint cube_root_bits (bit : nat) (acc x : Z) : Z :=
  match bit with
  | O => acc
  | S bit' =>
      let next := acc + 2 ^ Z.of_nat bit' in
      cube_root_bits bit' (if next * next * next <=? x then next else acc) x
  end.

(** The round constants [_K]: in the Go source a table of 64 literals,
    which are the first 32 bits of the fractional parts of the cube roots
    of the first 64 primes (FIPS 180-4, section 4.2.2); the first is
    [0x428a2f98] and the last [0xc67178f2]. *)
Definition _K : list Z :=
  Eval vm_compute in
    map (fun p => u32 (cube_root_bits 35 0 (p * 2 ^ 96))) (primes 64).

(** The eight words of the running digest [dig.h]. *)
Record digest : Type := mkDigest {
  h0 : Z; h1 : Z; h2 : Z; h3 : Z; h4 : Z; h5 : Z; h6 : Z; h7 : Z
}.

(** The initial value: the first 32 bits of the fractional parts of the
    square roots of the first 8 primes ([init0 = 0x6A09E667] to
    [init7 = 0x5BE0CD19] in the Go source). *)
Definition init_word (i : nat) : Z :=
  u32 (Z.sqrt (nth i (primes 8) 0 * 2 ^ 64)).

Definition init : digest :=
  Eval vm_compute in
    mkDigest (init_word 0) (init_word 1) (init_word 2) (init_word 3)
             (init_word 4) (init_word 5) (init_word 6) (init_word 7).

(** Big-endian load of the sixteen message words of one 64-byte chunk. *)
Fixpoint load_words (n : nat) (p : bytes) : list Z :=
  match n, p with
  | S n', b0 :: b1 :: b2 :: b3 :: rest =>
      Z.lor (Z.lor (Z.lor (Z.shiftl (byte_val b0) 24) (Z.shiftl (byte_val b1) 16))
                   (Z.shiftl (byte_val b2) 8)) (byte_val b3)
      :: load_words n' rest
  | _, _ => []
  end.

(** [w[i] = t1 + w[i-7] + t2 + w[i-16]] for [i = 16 .. 63]; [win] holds
    [w[i-16 .. i-1]]. *)
Fixpoint extend (n : nat) (win : list Z) : list Z :=
  match n with
  | O => []
  | S n' =>
      let v1 := nth 14 win 0 in
      let t1 := Z.lxor (Z.lxor (rotr 17 v1) (rotr 19 v1)) (Z.shiftr v1 10) in
      let v2 := nth 1 win 0 in
      let t2 := Z.lxor (Z.lxor (rotr 7 v2) (rotr 18 v2)) (Z.shiftr v2 3) in
      let wi := add32 (add32 (add32 t1 (nth 9 win 0)) t2) (nth 0 win 0) in
      wi :: extend n' (tl win ++ [wi])
  end.

(** One of the 64 rounds on the working variables [a .. h]. *)
Definition round (s : digest) (kw : Z * Z) : digest :=
  let '(k, w) := kw in
  let '(mkDigest a b c d e f g h) := s in
  let t1 := add32 (add32 (add32 (add32 h
              (Z.lxor (Z.lxor (rotr 6 e) (rotr 11 e)) (rotr 25 e)))
              (Z.lxor (Z.land e f) (Z.land (not32 e) g))) k) w in
  let t2 := add32 (Z.lxor (Z.lxor (rotr 2 a) (rotr 13 a)) (rotr 22 a))
              (Z.lxor (Z.lxor (Z.land a b) (Z.land a c)) (Z.land b c)) in
  mkDigest (add32 t1 t2) a b c (add32 d t1) e f g.

(** [blockGeneric] on one chunk. *)
Definition block (dig : digest) (chunk : bytes) : digest :=
  let w16 := load_words 16 chunk in
  let w := w16 ++ extend 48 w16 in
  let r := fold_left round (combine _K w) dig in
  mkDigest (add32 (h0 dig) (h0 r)) (add32 (h1 dig) (h1 r))
           (add32 (h2 dig) (h2 r)) (add32 (h3 dig) (h3 r))
           (add32 (h4 dig) (h4 r)) (add32 (h5 dig) (h5 r))
           (add32 (h6 dig) (h6 r)) (add32 (h7 dig) (h7 r)).

Fixpoint blocks (n : nat) (dig : digest) (p : bytes) : digest :=
  match n with
  | O => dig
  | S n' => blocks n' (block dig (firstn 64 p)) (skipn 64 p)
  end.

(** Padding of [checkSum]: 0x80, zeros up to 56 mod 64, then the length
    in bits as eight big-endian bytes. *)
Definition be_bytes (n : nat) (x : Z) : bytes :=
  map (fun i => byte_of_Z (Z.shiftr x (8 * Z.of_nat i))) (rev (seq 0 n)).

Definition pad (data : bytes) : bytes :=
  let len := Z.of_nat (length data) in
  let zeros := Z.to_nat ((55 - len) mod 64) in
  data ++ "128"%byte :: repeat "000"%byte zeros ++ be_bytes 8 (8 * len).

(** [Sum256(data)], the [[32]byte] checksum. *)
Definition Sum256 (data : bytes) : bytes :=
  let p := pad data in
  let d := blocks (Nat.div (length p) 64) init p in
  be_bytes 4 (h0 d) ++ be_bytes 4 (h1 d) ++ be_bytes 4 (h2 d) ++ be_bytes 4 (h3 d) ++
  be_bytes 4 (h4 d) ++ be_bytes 4 (h5 d) ++ be_bytes 4 (h6 d) ++ be_bytes 4 (h7 d).

End sha256.

(* ===================================================================== *)
(** ** unicode/utf8                                                       *)
(* ===================================================================== *)

Module utf8.

Definition RuneError : Z := 0xFFFD.
Definition RuneSelf : Z := 0x80.

(** The table [first]: information about the first byte of an encoding.
    [0xF0] is ASCII, [0xF1] invalid; otherwise the low three bits give
    the size and the high four the index into [acceptRanges]. *)
Definition first (b : Z) : Z :=
  if b <? 0x80 then 0xF0
  else if b <? 0xC2 then 0xF1
  else if b <? 0xE0 then 0x02
  else if b =? 0xE0 then 0x13
  else if b <? 0xED then 0x03
  else if b =? 0xED then 0x23
  else if b <? 0xF0 then 0x03
  else if b =? 0xF0 then 0x34
  else if b <? 0xF4 then 0x04
  else if b =? 0xF4 then 0x44
  else 0xF1.

Definition acceptRanges (i : Z) : Z * Z :=
  if i =? 1 then (0xA0, 0xBF)
  else if i =? 2 then (0x80, 0x9F)
  else if i =? 3 then (0x90, 0xBF)
  else if i =? 4 then (0x80, 0x8F)
  else (0x80, 0xBF).

Definition cont (b : Z) : bool := (0x80 <=? b) && (b <=? 0xBF).

(** [DecodeRuneInString] on the byte values of the string: the rune and
    the number of bytes it takes; [(RuneError, 1)] for an invalid or
    short encoding, [(RuneError, 0)] for the empty string. *)
Definition DecodeRune (s : list Z) : Z * nat :=
  match s with
  | [] => (RuneError, 0%nat)
  | s0 :: rest =>
      let x := first s0 in
      if 0xF0 <=? x then ((if x =? 0xF0 then s0 else RuneError), 1%nat)
      else
        let sz := Z.land x 7 in
        let '(lo, hi) := acceptRanges (Z.shiftr x 4) in
        match rest with
        | [] => (RuneError, 1%nat)
        | s1 :: rest1 =>
            if (s1 <? lo) || (hi <? s1) then (RuneError, 1%nat)
            else if sz <=? 2 then
              (Z.lor (Z.shiftl (Z.land s0 0x1F) 6) (Z.land s1 0x3F), 2%nat)
            else
              match rest1 with
              | [] => (RuneError, 1%nat)
              | s2 :: rest2 =>
                  if negb (cont s2) then (RuneError, 1%nat)
                  else if sz <=? 3 then
                    (Z.lor (Z.lor (Z.shiftl (Z.land s0 0x0F) 12)
                                  (Z.shiftl (Z.land s1 0x3F) 6))
                           (Z.land s2 0x3F), 3%nat)
                  else
                    match rest2 with
                    | [] => (RuneError, 1%nat)
                    | s3 :: _ =>
                        if negb (cont s3) then (RuneError, 1%nat)
                        else
                          (Z.lor (Z.lor (Z.lor (Z.shiftl (Z.land s0 0x07) 18)
                                               (Z.shiftl (Z.land s1 0x3F) 12))
                                        (Z.shiftl (Z.land s2 0x3F) 6))
                                 (Z.land s3 0x3F), 4%nat)
                    end
              end
        end
  end.

End utf8.

(* ===================================================================== *)
(** ** time                                                               *)
(* ===================================================================== *)

Module time.

(** A [time.Time]: an instant (seconds and nanoseconds since the Unix
    epoch) and the offset in seconds east of UTC of its location at that
    instant. *)
Record Time : Type := mkTime {
  unixSec : Z;
  nsec : Z;
  zoneOffset : Z
}.

(** [t.UTC()]: the same instant with the location set to UTC. *)
Definition UTC (t : Time) : Time := mkTime (unixSec t) (nsec t) 0.

(** Civil date of a day count since 1970-01-01 (proleptic Gregorian). *)
Definition date_of_days (days : Z) : Z * Z * Z :=
  let z := days + 719468 in
  let era := z / 146097 in
  let doe := z - era * 146097 in
  let yoe := (doe - doe / 1460 + doe / 36524 - doe / 146096) / 365 in
  let doy := doe - (365 * yoe + yoe / 4 - yoe / 100) in
  let mp := (5 * doy + 2) / 153 in
  let d := doy - (153 * mp + 2) / 5 + 1 in
  let m := if mp <? 10 then mp + 3 else mp - 9 in
  let y := yoe + era * 400 + (if m <=? 2 then 1 else 0) in
  (y, m, d).

(** [t.Date()] and [t.Clock()] in the time's own location. *)
Definition Date (t : Time) : Z * Z * Z :=
  date_of_days ((unixSec t + zoneOffset t) / 86400).
Definition Clock (t : Time) : Z * Z * Z :=
  let s := (unixSec t + zoneOffset t) mod 86400 in
  (s / 3600, (s mod 3600) / 60, s mod 60).

Definition decimal (u : Z) : string :=
  DecimalString.NilZero.string_of_uint (N.to_uint (Z.to_N u)).

Fixpoint zeros (n : nat) : string :=
  match n with O => EmptyString | S n' => String "0" (zeros n') end.

(** [appendInt(b, x, width)]: a minus sign for a negative [x], then the
    decimal digits of its magnitude left-padded with zeros to [width]. *)
Definition appendInt (x : Z) (width : nat) : string :=
  let d := decimal (Z.abs x) in
  (if x <? 0 then "-" else EmptyString) ++ zeros (width - String.length d) ++ d.

(** Nine digits with the trailing zeros removed. *)
Fixpoint trim_zeros (rev_digits : list ascii) : list ascii :=
  match rev_digits with
  | "0"%char :: rest => trim_zeros rest
  | _ => rev_digits
  end.

(** [appendNano] for the layout [.999999999]: nothing when the
    nanosecond is zero, otherwise a point and the digits without
    trailing zeros. *)
Definition appendNano (ns : Z) : string :=
  let digits := appendInt ns 9 in
  match trim_zeros (rev (list_ascii_of_string digits)) with
  | [] => EmptyString
  | r => String "." (string_of_list_ascii (rev r))
  end.

(** [appendFormatRFC3339(b, true)]. The zone in minutes is
    [offset / 60] with Go's truncating division. *)
Definition appendFormatRFC3339 (t : Time) : string :=
  let '(year, month, day) := Date t in
  let '(hour, min, sec) := Clock t in
  let offset := zoneOffset t in
  appendInt year 4 ++ "-" ++ appendInt month 2 ++ "-" ++ appendInt day 2 ++ "T" ++
  appendInt hour 2 ++ ":" ++ appendInt min 2 ++ ":" ++ appendInt sec 2 ++
  appendNano (nsec t) ++
  (if offset =? 0 then "Z"
   else
     let zone := Z.quot offset 60 in
     (if zone <? 0 then "-" else "+") ++
     appendInt (Z.quot (Z.abs zone) 60) 2 ++ ":" ++ appendInt (Z.rem (Z.abs zone) 60) 2).

(** [appendStrictRFC3339]: the year must be four digits wide (so within
    [0, 9999]) and the zone hour below 24. *)
Definition strict_error (t : Time) : option error :=
  let '(year, _, _) := Date t in
  if (year <? 0) || (9999 <? year) then
    Some (errorString "year outside of range [0,9999]")
  else if negb (zoneOffset t =? 0)
          && (24 <=? Z.quot (Z.abs (Z.quot (zoneOffset t) 60)) 60) then
    Some (errorString "timezone hour outside of range [0,23]")
  else None.

(** [t.MarshalJSON()]: the strict RFC 3339 text between double quotes,
    or an error prefixed with [Time.MarshalJSON: ]. *)
Definition MarshalJSON (t : Time) : bytes * option error :=
  match strict_error t with
  | Some (errorString msg) => ([], Some (errorString ("Time.MarshalJSON: " ++ msg)))
  | Some e => ([], Some e)
  | None => (bytes_of_string (quote ++ appendFormatRFC3339 t ++ quote), None)
  end.

End time.

(* ===================================================================== *)
(** ** encoding/json                                                      *)
(* ===================================================================== *)

Module json.

(** [htmlSafeSet[b]] for [b < utf8.RuneSelf]: every ASCII character from
    the space on, except the double quote, [&], [<], [>] and the
    backslash. *)
Definition htmlSafeSet (b : Z) : bool :=
  (0x20 <=? b) && negb (b =? 0x22) && negb (b =? 0x26) && negb (b =? 0x3C)
  && negb (b =? 0x3E) && negb (b =? 0x5C).

Definition hexchar (n : Z) : string := String (hex.hexdigit n) EmptyString.

(** What [appendString] writes for an ASCII byte that is not in
    [htmlSafeSet]. *)
Definition escape_ascii (c : ascii) : string :=
  let b := Z.of_N (N_of_ascii c) in
  if (b =? 0x5C) || (b =? 0x22) then String "\" (String c EmptyString)
  else if b =? 0x08 then "\b"
  else if b =? 0x0C then "\f"
  else if b =? 0x0A then "\n"
  else if b =? 0x0D then "\r"
  else if b =? 0x09 then "\t"
  else "\u00" ++ hexchar (Z.shiftr b 4) ++ hexchar (Z.land b 0xF).

Definition byte_values (s : string) : list Z :=
  map (fun c => Z.of_N (N_of_ascii c)) (list_ascii_of_string s).

(** The loop of [appendString] with [escapeHTML] set. [pending] bytes of
    a multi-byte rune already decoded are still to be passed over: copied
    when [copy] is set, dropped when the rune was written as an escape. *)
Fixpoint appendString_loop (pending : nat) (copy : bool) (src : string) : string :=
  match src with
  | EmptyString => EmptyString
  | String c rest =>
      match pending with
      | S n =>
          (if copy then String c else fun s => s) (appendString_loop n copy rest)
      | O =>
          let b := Z.of_N (N_of_ascii c) in
          if b <? utf8.RuneSelf then
            (if htmlSafeSet b then String c EmptyString else escape_ascii c)
            ++ appendString_loop 0 true rest
          else
            let '(r, size) := utf8.DecodeRune (byte_values (substring 0 4 src)) in
            if (r =? utf8.RuneError) && Nat.eqb size 1 then
              "\ufffd" ++ appendString_loop 0 true rest
            else if (r =? 0x2028) || (r =? 0x2029) then
              "\u202" ++ hexchar (Z.land r 0xF) ++ appendString_loop (size - 1) false rest
            else
              String c (appendString_loop (size - 1) true rest)
      end
  end.

(** [appendString(dst, src, true)] on an empty [dst]. *)
Definition appendString (src : string) : bytes :=
  bytes_of_string (quote ++ appendString_loop 0 true src ++ quote).

(** The Go values this package hands to [json.Marshal], as the encoder
    sees them through reflection: a string, a slice of values (nil or
    not), a struct as the list of its fields under their [json] tags in
    declaration order, a [time.Time] (which implements
    [json.Marshaler]). *)
#[local] Unset Elimination Schemes.
Inductive value : Type :=
  | VString (s : string)
  | VSlice (isnil : bool) (elems : list value)
  | VStruct (fields : list (string * value))
  | VTime (t : time.Time).
#[local] Set Elimination Schemes.

(** Elements of an array or fields of an object, separated by commas;
    the first error aborts the encoding. *)
Fixpoint join_encoded (parts : list (bytes * option error)) : bytes * option error :=
  match parts with
  | [] => ([], None)
  | (_, Some e) :: _ => ([], Some e)
  | (p, None) :: rest =>
      match rest with
      | [] => (p, None)
      | _ :: _ =>
          match join_encoded rest with
          | (_, Some e) => ([], Some e)
          | (b, None) => (p ++ bytes_of_string "," ++ b, None)
          end
      end
  end.

(** The encoder for each kind of value: [stringEncoder], the slice
    encoder ([null] for a nil slice), the struct encoder, and
    [marshalerEncoder], which wraps a failure of [MarshalJSON] in a
    [MarshalerError] and otherwise appends the compacted output (the
    compaction leaves an RFC 3339 string as it is). *)
Fixpoint encode (v : value) : bytes * option error :=
  match v with
  | VString s => (appendString s, None)
  | VSlice true _ => (bytes_of_string "null", None)
  | VSlice false elems =>
      match join_encoded (map encode elems) with
      | (_, Some e) => ([], Some e)
      | (b, None) => (bytes_of_string "[" ++ b ++ bytes_of_string "]", None)
      end
  | VStruct fields =>
      match join_encoded
              (map (fun f : string * value =>
                      match encode (snd f) with
                      | (_, Some e) => ([], Some e)
                      | (b, None) => (appendString (fst f) ++ bytes_of_string ":" ++ b, None)
                      end) fields) with
      | (_, Some e) => ([], Some e)
      | (b, None) => (bytes_of_string "{" ++ b ++ bytes_of_string "}", None)
      end
  | VTime t =>
      match time.MarshalJSON t with
      | (_, Some e) => ([], Some (json_MarshalerError e))
      | (b, None) => (b, None)
      end
  end.

(** [json.Marshal(v)]. *)
Definition Marshal (v : value) : bytes * option error := encode v.

End json.

(* ===================================================================== *)
(** ** sort                                                               *)
(* ===================================================================== *)

Module sort.

(** [x < y] on Go strings: byte-wise lexicographic comparison. *)
Definition less (x y : string) : bool := String.ltb x y.

Fixpoint insert (x : string) (sorted : list string) : list string :=
  match sorted with
  | [] => [x]
  | y :: rest => if less x y then x :: y :: rest else y :: insert x rest
  end.

(** [sort.Strings(x)]: [x] in increasing order. The result of sorting
    with a total order does not depend on the algorithm; insertion sort
    is the one written here. *)
Definition Strings (x : list string) : list string :=
  fold_right insert [] x.

End sort.

(* ===================================================================== *)
(** ** storage.go                                                         *)
(* ===================================================================== *)

(** [type Storage interface]: the key-value backend. A backend of state
    type [S] gives, for each method, the result and the state after the
    call. [ErrNotFound] is the constructor of that name in [Go.error]. *)
Class Storage (S : Type) : Type := {
  Put : S -> bytes -> bytes -> option error * S;
  Get : S -> bytes -> (bytes * option error) * S;
  Exists : S -> bytes -> (bool * option error) * S
}.

(* ===================================================================== *)
(** ** object.go                                                          *)
(* ===================================================================== *)

(** [type Object interface { Serialize() ([]byte, error) }]. *)
Class Object (A : Type) : Type := {
  Serialize : A -> bytes * option error
}.

(* ===================================================================== *)
(** ** store.go                                                           *)
(* ===================================================================== *)

Section store.
Context {S : Type} `{Storage S}.

(** [type ObjectStore struct { storage Storage }], holding a backend. *)
Record ObjectStore : Type := mkObjectStore { storage : S }.

Definition NewObjectStore (storage : S) : ObjectStore :=
  mkObjectStore storage.

(** [func (s *ObjectStore) WriteObject(obj Object) (string, error)]. *)
Definition WriteObject {A : Type} `{Object A} (s : ObjectStore) (obj : A)
  : (string * option error) * ObjectStore :=
  (* 1. Serialize the object to get its raw data. *)
  let '(data, err) := Serialize obj in
  match err with
  | Some e => ((EmptyString, Some (wrapError "failed to serialize object: " e)), s)
  | None =>
      (* 2. Hash the serialized data using SHA-256. *)
      let hashBytes := sha256.Sum256 data in
      let hashHex := hex.EncodeToString hashBytes in
      (* 3. Store the data in the backend using the hash as the key. *)
      let '(err, st) := Put (storage s) hashBytes data in
      match err with
      | Some e => ((EmptyString, Some (wrapError "failed to store object: " e)),
                   mkObjectStore st)
      | None => ((hashHex, None), mkObjectStore st)
      end
  end.

(** [func (s *ObjectStore) ReadRawObject(hash string) ([]byte, error)]. *)
Definition ReadRawObject (s : ObjectStore) (hash : string)
  : (bytes * option error) * ObjectStore :=
  (* 1. Decode the hex string to get the raw hash bytes. *)
  let '(hashBytes, err) := hex.DecodeString hash in
  match err with
  | Some e => (([], Some (wrapError "failed to decode hash: " e)), s)
  | None =>
      (* 2. Retrieve the data from storage using the raw hash as the key. *)
      let '((data, err), st) := Get (storage s) hashBytes in
      match err with
      | Some e => (([], Some (wrapError "failed to read object: " e)), mkObjectStore st)
      | None => ((data, None), mkObjectStore st)
      end
  end.

End store.
Arguments ObjectStore S : clear implicits.

(* ===================================================================== *)
(** ** commit.go                                                          *)
(* ===================================================================== *)

(** [type Tree struct { Entries map[string]string }]. *)
Record Tree : Type := mkTree { Entries : gmap string string }.

Definition NewTree : Tree := mkTree ∅.

(** The assignment [t.Entries[name] = hash]. *)
Definition Tree_set (t : Tree) (name hash : string) : Tree :=
  mkTree (<[name := hash]> (Entries t)).

(** [t.Entries[key]]: the zero value for a key that is absent. *)
Definition Entries_at (t : Tree) (key : string) : string :=
  default EmptyString (Entries t !! key).

(** [bytes.Buffer] and its [WriteString]. *)
Definition Buffer : Type := bytes.
Definition WriteString (b : Buffer) (s : string) : Buffer := b ++ bytes_of_string s.

(** The loop [for i, key := range keys] of [Tree.Serialize]. The errors
    of [json.Marshal] are dropped, as with the blank identifier. *)
Fixpoint Tree_Serialize_loop (t : Tree) (i : nat) (keys : list string) (b : Buffer) : Buffer :=
  match keys with
  | [] => b
  | key :: rest =>
      let b := if (0 <? i)%nat then WriteString b "," else b in
      let '(keyBytes, _) := json.Marshal (json.VString key) in
      let '(valueBytes, _) := json.Marshal (json.VString (Entries_at t key)) in
      let b := WriteString b (string_of_bytes keyBytes ++ ":" ++ string_of_bytes valueBytes) in
      Tree_Serialize_loop t (S i) rest b
  end.

(** [Tree.Serialize] after [for k := range t.Entries] has collected the
    keys in the order [keys]; that order is unspecified in Go and may
    change from one call to the next. *)
Definition Tree_Serialize_from (keys : list string) (t : Tree) : bytes * option error :=
  let keys := sort.Strings keys in
  let b := WriteString [] "{" in
  let b := Tree_Serialize_loop t 0 keys b in
  let b := WriteString b "}" in
  (b, None).

(** One order of iteration over the map. The result of [Serialize]
    does not depend on the one taken (see
    [Tree_Serialize_from_order_irrelevant]). *)
Definition range_keys (t : Tree) : list string := (map_to_list (Entries t)).*1.

(** [func (t *Tree) Serialize() ([]byte, error)]. *)
Definition Tree_Serialize (t : Tree) : bytes * option error :=
  Tree_Serialize_from (range_keys t) t.

#[export] Instance Tree_Object : Object Tree := {| Serialize := Tree_Serialize |}.

(** [type Commit struct], with [ParentHashes] a slice that may be nil. *)
Record Commit : Type := mkCommit {
  TreeHash : string;
  ParentHashes : slice string;
  Message : string;
  Timestamp : time.Time
}.

(** The struct as the JSON encoder sees it: the fields in declaration
    order under the names of their [json] tags. *)
Definition Commit_value (c : Commit) : json.value :=
  json.VStruct
    [ ("tree", json.VString (TreeHash c));
      ("parents", match ParentHashes c with
                  | None => json.VSlice true []
                  | Some ps => json.VSlice false (map json.VString ps)
                  end);
      ("message", json.VString (Message c));
      ("timestamp", json.VTime (Timestamp c)) ].

(** [func (c *Commit) Serialize() ([]byte, error)]. *)
Definition Commit_Serialize (c : Commit) : bytes * option error :=
  json.Marshal (Commit_value c).

#[export] Instance Commit_Object : Object Commit := {| Serialize := Commit_Serialize |}.

Section commit.
Context {S : Type} `{Storage S}.

(** [func CreateCommit(store *ObjectStore, treeHash string, message
    string, parentHashes []string) (string, error)]. The store pointer
    may be nil ([None]); [now] is what [time.Now()] returns during the
    call. *)
Definition CreateCommit (store : option (ObjectStore S)) (treeHash message : string)
    (parentHashes : slice string) (now : time.Time)
  : (string * option error) * option (ObjectStore S) :=
  match store with
  | None => ((EmptyString, Some (errorString "object store cannot be nil")), None)
  | Some store =>
      let commit := {| TreeHash := treeHash;
                       ParentHashes := parentHashes;
                       Message := message;
                       Timestamp := time.UTC now |} in
      let '((hash, err), store) := WriteObject store commit in
      match err with
      | Some e => ((EmptyString, Some (wrapError "failed to write commit: " e)), Some store)
      | None => ((hash, None), Some store)
      end
  end.

End commit.

(* ===================================================================== *)
(** ** workspace.go                                                       *)
(* ===================================================================== *)

Section workspace.
Context {S : Type} `{Storage S}.

(** [type Workspace struct { store *ObjectStore; tree *Tree }]: the
    state reachable from a workspace, the object store (with its
    backend) and the staging tree. *)
Record Workspace : Type := mkWorkspace {
  store : ObjectStore S;
  tree : Tree
}.

(** [func NewWorkspace(store *ObjectStore)], returning a pointer to the
    new workspace and an error. *)
Definition NewWorkspace (store : option (ObjectStore S)) : option Workspace * option error :=
  match store with
  | None => (None, Some (errorString "object store cannot be nil"))
  | Some store => (Some (mkWorkspace store NewTree), None)
  end.

(** [func (w *Workspace) Add(name string, obj Object) error]. *)
Definition Workspace_Add {A : Type} `{Object A} (w : Workspace) (name : string) (obj : A)
  : option error * Workspace :=
  let '((hash, err), st) := WriteObject (store w) obj in
  match err with
  | Some e =>
      (Some (wrapError ("failed to write object '" ++ name ++ "': ") e),
       mkWorkspace st (tree w))
  | None =>
      (None, mkWorkspace st (Tree_set (tree w) name hash))
  end.

(** [func (w *Workspace) Commit(message string, parentHashes []string)
    (string, error)]; [now] is the clock reading of the nested
    [CreateCommit]. *)
Definition Workspace_Commit (w : Workspace) (message : string)
    (parentHashes : slice string) (now : time.Time)
  : (string * option error) * Workspace :=
  (* First, write the staged tree to the object store to get its hash. *)
  let '((treeHash, err), st) := WriteObject (store w) (tree w) in
  match err with
  | Some e => ((EmptyString, Some (wrapError "failed to write tree: " e)),
               mkWorkspace st (tree w))
  | None =>
      (* Now, create a commit pointing to this tree. *)
      let '((commitHash, err), st') := CreateCommit (Some st) treeHash message parentHashes now in
      let st' := default st st' in
      match err with
      | Some e => ((EmptyString, Some (wrapError "failed to create commit: " e)),
                   mkWorkspace st' (tree w))
      | None => ((commitHash, None), mkWorkspace st' (tree w))
      end
  end.

End workspace.
Arguments Workspace S : clear implicits.

(* ===================================================================== *)
(** ** Backends and objects of the test files                             *)
(* ===================================================================== *)

(** [type mockStorage struct { data map[string][]byte }]. *)
Record mockStorage : Type := mkMockStorage { data : gmap string bytes }.

Definition NewMockStorage : mockStorage := mkMockStorage ∅.

#[export] Instance mockStorage_Storage : Storage mockStorage := {|
  Put s key value := (None, mkMockStorage (<[string_of_bytes key := value]> (data s)));
  Get s key :=
    match data s !! string_of_bytes key with
    | None => (([], Some ErrNotFound), s)
    | Some value => ((value, None), s)
    end;
  Exists s key :=
    ((bool_decide (is_Some (data s !! string_of_bytes key)), None), s)
|}.

(** [type mockObject struct { ID string; Data string }], serialized with
    [json.Marshal] under the tags [id] and [data]. *)
Record mockObject : Type := mkMockObject { ID : string; Data : string }.

#[export] Instance mockObject_Object : Object mockObject := {|
  Serialize m := json.Marshal (json.VStruct [("id", json.VString (ID m));
                                             ("data", json.VString (Data m))])
|}.

(** A backend with a bounded number of writes: a [mockStorage] whose
    [Put] fails, leaving the data as it is, once the budget is used up.
    It stands for any backend whose writes can fail. *)
Record boundedStorage : Type := mkBoundedStorage {
  inner : mockStorage;
  budget : nat
}.

#[export] Instance boundedStorage_Storage : Storage boundedStorage := {|
  Put s key value :=
    match budget s with
    | O => (Some (errorString "no space left"), s)
    | S n => (None, mkBoundedStorage (snd (Put (inner s) key value)) n)
    end;
  Get s key := let '(r, m) := Get (inner s) key in (r, mkBoundedStorage m (budget s));
  Exists s key := let '(r, m) := Exists (inner s) key in (r, mkBoundedStorage m (budget s))
|}.

(** An object whose [Serialize] fails. *)
Record brokenObject : Type := mkBrokenObject { reason : string }.

#[export] Instance brokenObject_Object : Object brokenObject := {|
  Serialize o := ([], Some (errorString (reason o)))
|}.

(** A backend that records the calls it receives before passing them on
    to the backend it wraps. *)
Inductive call : Type :=
  | CallPut (key value : bytes)
  | CallGet (key : bytes)
  | CallExists (key : bytes).

Record recording (S : Type) : Type := mkRecording {
  backend : S;
  calls : list call
}.
Arguments mkRecording {S} _ _.
Arguments backend {S} _.
Arguments calls {S} _.

#[export] Instance recording_Storage {S : Type} `{Storage S} : Storage (recording S) := {|
  Put s key value :=
    let '(e, b) := Put (backend s) key value in
    (e, mkRecording b (calls s ++ [CallPut key value]));
  Get s key :=
    let '(r, b) := Get (backend s) key in
    (r, mkRecording b (calls s ++ [CallGet key]));
  Exists s key :=
    let '(r, b) := Exists (backend s) key in
    (r, mkRecording b (calls s ++ [CallExists key]))
|}.

(* ===================================================================== *)
(** ** Vocabulary of the specification                                    *)
(* ===================================================================== *)

Module Spec.

(** Byte-wise lexicographic order on strings: a proper prefix comes
    first; otherwise the first differing byte decides. *)
Inductive bytewise_lt : string -> string -> Prop :=
  | lt_prefix c s : bytewise_lt EmptyString (String c s)
  | lt_head c1 c2 s1 s2 :
      (N_of_ascii c1 < N_of_ascii c2)%N -> bytewise_lt (String c1 s1) (String c2 s2)
  | lt_tail c s1 s2 : bytewise_lt s1 s2 -> bytewise_lt (String c s1) (String c s2).

Definition bytewise_le (a b : string) : Prop := a = b \/ bytewise_lt a b.

(** Entries in increasing order of their keys. *)
Definition key_lt (a b : string * string) : Prop := bytewise_lt a.1 b.1.

(** The JSON-escaped form of a string, between double quotes. *)
Definition json_escaped (s : string) : string := string_of_bytes (json.appendString s).

(** The canonical text of a sequence of entries: for each entry the
    escaped key, a colon and the escaped hash, the pairs joined with
    commas, the whole between braces. *)
Definition entry_text (kv : string * string) : string :=
  json_escaped kv.1 ++ ":" ++ json_escaped kv.2.

Definition canonical_text (entries : list (string * string)) : string :=
  "{" ++ String.concat "," (map entry_text entries) ++ "}".

(** Entries assigned one after the other to a new tree. *)
Definition insert_all (entries : list (string * string)) : Tree :=
  fold_left (fun t kv => Tree_set t kv.1 kv.2) entries NewTree.

(** Hexadecimal digits, valid hexadecimal strings (an even number of
    hexadecimal digits), lowercase hexadecimal strings. *)
Definition one_of (alphabet : string) (c : ascii) : bool :=
  existsb (Ascii.eqb c) (list_ascii_of_string alphabet).

Definition valid_hex (s : string) : bool :=
  Nat.even (String.length s)
  && forallb (one_of "0123456789abcdefABCDEF") (list_ascii_of_string s).

Definition lowercase_hex (s : string) : bool :=
  forallb (one_of "0123456789abcdef") (list_ascii_of_string s).

(** A decode error of encoding/hex. *)
Definition is_decode_error (e : error) : bool :=
  match e with
  | hex_ErrLength | hex_InvalidByteError _ => true
  | _ => false
  end.

(** The JSON text of an array of strings, and the text of a commit
    object: the four fields under their names, in this order. *)
Definition json_string_array (l : list string) : string :=
  "[" ++ String.concat "," (map json_escaped l) ++ "]".

Definition commit_text (tree_json parents_json message_json timestamp_json : string) : string :=
  dq "{'tree':" ++ tree_json ++ dq ",'parents':" ++ parents_json ++
  dq ",'message':" ++ message_json ++ dq ",'timestamp':" ++ timestamp_json ++ "}".

(** A timestamp string in UTC: an RFC 3339 text that ends in [Z]. *)
Definition ends_in_Z (s : string) : bool :=
  match rev (list_ascii_of_string s) with
  | "Z"%char :: _ => true
  | _ => false
  end.

End Spec.

Import Spec.

(* ===================================================================== *)
(** ** Values used in the statements and examples                         *)
(* ===================================================================== *)

(** What the loop writes from the second key on: each pair after a
    comma. *)
Definition rest_text (t : Tree) (keys : list string) : string :=
  fold_right (fun k acc => "," ++ entry_text (k, Entries_at t k) ++ acc)%string
             EmptyString keys.

(** The tree of the stability test. *)
Definition example_tree : Tree :=
  Tree_set (Tree_set NewTree "file.txt" "hash_of_file") "data.csv" "hash_of_data".

(** The object of the object-store test. *)
Definition example_object : mockObject := mkMockObject "test_id" "hello world".

(** A well-formed hash that no object has. *)
Definition unknown_hash : string :=
  "aaaaaaaaaaaaaaaaaaaaaaaaaaaaaaaaaaaaaaaaaaaaaaaaaaaaaaaaaaaaaaaa".

(** The wire format as the specification words it: for the commit [c],
    [Serialize] gives a
    JSON object whose [parents] field is an array of strings (and whose
    timestamp is a string). *)
Definition serializes_with_parents_array (c : Commit) : Prop :=
  exists (parents : list string) (timestamp : string),
    Commit_Serialize c
    = (bytes_of_string
         (commit_text (json_escaped (TreeHash c)) (json_string_array parents)
            (json_escaped (Message c)) (quote ++ timestamp ++ quote)), None).

(** A commit with a nil parent slice, as [CreateCommit] builds when it
    is called with [nil] parents. *)
Definition root_commit : Commit :=
  mkCommit "t" None "m" (time.mkTime 0 0 0).

(** A backend that holds one value and accepts no more writes, and
    workspaces over it with one staged entry. *)
Definition full_backend : boundedStorage :=
  mkBoundedStorage (Put NewMockStorage (bytes_of_string "key") (bytes_of_string "value")).2 0.

Definition full_workspace : Workspace boundedStorage :=
  mkWorkspace (NewObjectStore full_backend) (Tree_set NewTree "object_a" "h_a").

Definition full_recording_workspace : Workspace (recording boundedStorage) :=
  mkWorkspace (NewObjectStore (mkRecording full_backend [])) (Tree_set NewTree "object_a" "h_a").

(* ===================================================================== *)
(** ** Further definitions used in the statements                        *)
(* ===================================================================== *)

(** *** Valid UTF-8 *)

Definition byte_value (c : ascii) : Z := Z.of_N (N_of_ascii c).

(** Valid UTF-8, as [utf8.ValidString] reports it: decoding the string
    rune by rune with [DecodeRune] never meets an invalid or short
    encoding. [pending] bytes of a rune already decoded are passed over. *)
Fixpoint utf8_ValidString_loop (pending : nat) (src : string) : bool :=
  match src with
  | EmptyString => true
  | String c rest =>
      match pending with
      | S n => utf8_ValidString_loop n rest
      | O =>
          if byte_value c <? utf8.RuneSelf then utf8_ValidString_loop 0 rest
          else
            let '(r, size) := utf8.DecodeRune (json.byte_values (substring 0 4 src)) in
            if (r =? utf8.RuneError) && Nat.eqb size 1 then false
            else utf8_ValidString_loop (size - 1) rest
      end
  end.

Definition utf8_ValidString (s : string) : bool := utf8_ValidString_loop 0 s.

(** A byte that cannot start a UTF-8 sequence: 0x80..0xC1 or 0xF5..0xFF. *)
Definition invalid_lead (c : ascii) : bool :=
  let b := byte_value c in
  ((0x80 <=? b) && (b <=? 0xC1)) || (0xF5 <=? b).

(** Trees, test objects and commits all of whose strings are valid
    UTF-8; the nil slice of parents counts as valid. *)
Definition valid_entry (kv : string * string) : Prop :=
  utf8_ValidString kv.1 = true /\ utf8_ValidString kv.2 = true.

Definition valid_tree (t : Tree) : bool :=
  forallb (fun kv : string * string => utf8_ValidString kv.1 && utf8_ValidString kv.2)
          (map_to_list (Entries t)).

Definition valid_object (m : mockObject) : bool :=
  utf8_ValidString (ID m) && utf8_ValidString (Data m).

Definition valid_slice (l : slice string) : bool :=
  match l with
  | None => true
  | Some elems => forallb utf8_ValidString elems
  end.

Definition valid_commit (c : Commit) : bool :=
  utf8_ValidString (TreeHash c) && utf8_ValidString (Message c)
  && valid_slice (ParentHashes c).

(** *** Reading escaped text back *)

(** Reading an escaped string back, up to its closing quote: the text
    read and what follows the quote. An escape of four hexadecimal
    digits stands for one byte, or for the three bytes of U+2028 or
    U+2029 when it starts with [2]. *)
Fixpoint read_escaped (s : string) : option (string * string) :=
  match s with
  | EmptyString => None
  | String c rest =>
      if Ascii.eqb c "034" then Some (EmptyString, rest)
      else if Ascii.eqb c "\" then
        match rest with
        | String e rest1 =>
            let literal (x : ascii) :=
              match read_escaped rest1 with
              | Some (text, after) => Some (String x text, after)
              | None => None
              end in
            if Ascii.eqb e "u" then
              match rest1 with
              | String p (String _ (String h (String l rest2))) =>
                  match hex.fromHexChar h, hex.fromHexChar l, read_escaped rest2 with
                  | Some a, Some b, Some (text, after) =>
                      if Ascii.eqb p "2" then
                        Some (String "226" (String "128"
                                (String (ascii_of_N (Z.to_N (0xA0 + b))) text)), after)
                      else Some (String (ascii_of_N (Z.to_N (16 * a + b))) text, after)
                  | _, _, _ => None
                  end
              | _ => None
              end
            else if Ascii.eqb e "b" then literal "008"%char
            else if Ascii.eqb e "f" then literal "012"%char
            else if Ascii.eqb e "n" then literal "010"%char
            else if Ascii.eqb e "r" then literal "013"%char
            else if Ascii.eqb e "t" then literal "009"%char
            else literal e
        | EmptyString => None
        end
      else
        match read_escaped rest with
        | Some (text, after) => Some (String c text, after)
        | None => None
        end
  end.

(** The next [n] bytes are there and are not ASCII. *)
Fixpoint continued (n : nat) (s : string) : Prop :=
  match n with
  | O => True
  | S m =>
      match s with
      | EmptyString => False
      | String c rest => 0x80 <= byte_value c /\ continued m rest
      end
  end.

(** [DecodeRune] after the first byte: [sz] the size and [lo], [hi] the
    range accepted for the second byte. *)
Definition decode_rest (s0 sz lo hi : Z) (rest : list Z) : Z * nat :=
  match rest with
  | [] => (utf8.RuneError, 1%nat)
  | s1 :: rest1 =>
      if (s1 <? lo) || (hi <? s1) then (utf8.RuneError, 1%nat)
      else if sz <=? 2 then
        (Z.lor (Z.shiftl (Z.land s0 0x1F) 6) (Z.land s1 0x3F), 2%nat)
      else
        match rest1 with
        | [] => (utf8.RuneError, 1%nat)
        | s2 :: rest2 =>
            if negb (utf8.cont s2) then (utf8.RuneError, 1%nat)
            else if sz <=? 3 then
              (Z.lor (Z.lor (Z.shiftl (Z.land s0 0x0F) 12)
                            (Z.shiftl (Z.land s1 0x3F) 6))
                     (Z.land s2 0x3F), 3%nat)
            else
              match rest2 with
              | [] => (utf8.RuneError, 1%nat)
              | s3 :: _ =>
                  if negb (utf8.cont s3) then (utf8.RuneError, 1%nat)
                  else
                    (Z.lor (Z.lor (Z.lor (Z.shiftl (Z.land s0 0x07) 18)
                                         (Z.shiftl (Z.land s1 0x3F) 12))
                                  (Z.shiftl (Z.land s2 0x3F) 6))
                           (Z.land s3 0x3F), 4%nat)
              end
        end
  end.

(** What a decoded rune tells about the bytes it was decoded from: an
    encoding of two, three or four bytes continues with bytes that are
    not ASCII, only three bytes give U+2028 or U+2029, and these are the
    bytes E2 80 A8 and E2 80 A9. *)
Definition decoded (s0 : Z) (l : list Z) (r : Z) (size : nat) : Prop :=
  (r = utf8.RuneError /\ size = 1%nat)
  \/ (size = 2%nat /\ r < 0x800
      /\ exists s1 l1, l = s1 :: l1 /\ 0x80 <= s1)
  \/ (size = 3%nat
      /\ exists s1 s2 l2, l = s1 :: s2 :: l2 /\ 0x80 <= s1 /\ 0x80 <= s2
         /\ (r = 0x2028 \/ r = 0x2029 ->
             s0 = 0xE2 /\ s1 = 0x80 /\ s2 = 0x80 + (r - 0x2000)))
  \/ (size = 4%nat /\ 0x10000 <= r
      /\ exists s1 s2 s3 l3, l = s1 :: s2 :: s3 :: l3
         /\ 0x80 <= s1 /\ 0x80 <= s2 /\ 0x80 <= s3).

(** *** Decimal digits *)

(** A decimal digit, and a string of decimal digits. *)
Definition digit (c : ascii) : bool :=
  let n := N_of_ascii c in ((48 <=? n) && (n <=? 57))%N.

Definition digits (s : string) : bool := forallb digit (list_ascii_of_string s).

(** The number a string of digits stands for. *)
Definition parse_digits (s : string) : option N :=
  N.of_uint <$> NilEmpty.uint_of_string s.

(** *** Hashes *)

(** The lower-case form of a hexadecimal letter; other characters are
    left as they are. *)
Definition lower_hex (c : ascii) : ascii :=
  let n := N_of_ascii c in
  if ((65 <=? n) && (n <=? 70))%N then ascii_of_N (n + 32) else c.

Fixpoint fold_case (s : string) : string :=
  match s with
  | EmptyString => EmptyString
  | String c rest => String (lower_hex c) (fold_case rest)
  end.

(** The hash of the serialization of the empty tree. *)
Definition empty_tree_hash : string :=
  "44136fa355b3678a1146ad16f7e8649e94fb4fc21fe77e8310c060f61caaff8a".

(** The hash under which an object is stored. *)
Definition object_hash {A : Type} `{Object A} (obj : A) : string :=
  hex.EncodeToString (sha256.Sum256 (Serialize obj).1).

(** *** The store and the workspace *)

(** The call [WriteObject] makes to the backend for a serialization. *)
Definition put_of (serialized : bytes * option error) : list call :=
  match serialized with
  | (d, None) => [CallPut (sha256.Sum256 d) d]
  | (_, Some _) => []
  end.

(** A hash under which the store reads an object. *)
Definition readable (s : ObjectStore mockStorage) (hash : string) : Prop :=
  exists d, (ReadRawObject s hash).1 = (d, None).

(** Every hash in the staging tree names an object that can be read
    from the store. *)
Definition staged_objects_stored (w : Workspace mockStorage) : Prop :=
  forall name hash, Entries (tree w) !! name = Some hash ->
    exists d, (ReadRawObject (store w) hash).1 = (d, None).

(** Every object of the backend is stored under the digest of its
    bytes. *)
Definition content_addressed (s : ObjectStore mockStorage) : Prop :=
  forall key value, data (storage s) !! key = Some value ->
    key = string_of_bytes (sha256.Sum256 value).

(** Objects staged one after the other under their names, and the tree
    entry each of them gives. *)
Definition add_all {S A : Type} `{Storage S} `{Object A}
    (w : Workspace S) (items : list (string * A)) : Workspace S :=
  fold_left (fun w item => (Workspace_Add w item.1 item.2).2) items w.

Definition staged_entry {A : Type} `{Object A} (item : string * A) : string * string :=
  (item.1, object_hash item.2).

(** *** Values used in the examples *)

(** Three entries; the second name is not ASCII, its fourth letter is
    the two bytes of U+00E9. *)
Definition example_entries : list (string * string) :=
  [("file.txt", "hash_of_file");
   (String "c" (String "a" (String "f" (String "195" (String "169" ".txt")))), "hash_of_menu");
   ("data.csv", "hash_of_data")].

Definition example_commit : Commit :=
  mkCommit "t" (Some ["p1"; "p2"]) "m" (time.mkTime 1700000000 120000000 0).

(** The store of [TestObjectStore] after its write, and the hash of the
    object written. *)
Definition example_store : ObjectStore mockStorage :=
  (WriteObject (NewObjectStore NewMockStorage) example_object).2.

Definition example_hash : string :=
  "4044c8ddded3abd86eb71eb873176f51e3165b7d1719dad17f848c24777997eb".

Definition fresh_workspace : Workspace mockStorage :=
  mkWorkspace (NewObjectStore NewMockStorage) NewTree.

Definition example_now : time.Time := time.mkTime 1700000000 0 0.

(** The objects of [TestWorkspace_AddAndCommit] under their names. *)
Definition test_items : list (string * mockObject) :=
  [("object_a", mkMockObject "A" "Object A"); ("object_b", mkMockObject "B" "Object B")].

(* ===================================================================== *)
(** * Properties                                                          *)
(* ===================================================================== *)

(** A closed decidable proposition, by evaluation. *)
Ltac by_evaluation := apply (bool_decide_unpack _); vm_compute; exact I.

(** ** Strings and byte slices *)

Lemma string_of_bytes_of_string (s : string) :
  string_of_bytes (bytes_of_string s) = s.
Proof. apply string_of_list_byte_of_string. Qed.

Lemma bytes_of_string_of_bytes (b : bytes) :
  bytes_of_string (string_of_bytes b) = b.
Proof. apply list_byte_of_string_of_list_byte. Qed.

Lemma string_app_cons (x : ascii) (a b : string) :
  (String x a ++ b = String x (a ++ b))%string.
Proof. reflexivity. Qed.

Lemma bytes_of_string_app (a b : string) :
  bytes_of_string (a ++ b) = bytes_of_string a ++ bytes_of_string b.
Proof.
  unfold bytes_of_string, list_byte_of_string.
  induction a as [|c a IH]; [reflexivity|].
  rewrite string_app_cons. simpl. f_equal. exact IH.
Qed.

Lemma bytes_of_string_inj (a b : string) :
  bytes_of_string a = bytes_of_string b -> a = b.
Proof.
  intros E. rewrite <- (string_of_bytes_of_string a), E.
  apply string_of_bytes_of_string.
Qed.

Lemma string_app_assoc (a b c : string) : ((a ++ b) ++ c = a ++ (b ++ c))%string.
Proof.
  induction a as [|x a IH]; [reflexivity|].
  rewrite !string_app_cons. f_equal. exact IH.
Qed.

Lemma string_app_nil_r (a : string) : (a ++ EmptyString = a)%string.
Proof.
  induction a as [|x a IH]; [reflexivity|].
  rewrite string_app_cons. f_equal. exact IH.
Qed.

(** ** The byte-wise order and [sort.Strings] *)

Lemma bytewise_lt_compare (a b : string) :
  bytewise_lt a b <-> String.compare a b = Lt.
Proof.
  split.
  - induction 1 as [c s|c1 c2 s1 s2 Hc|c s1 s2 _ IH]; simpl.
    + reflexivity.
    + unfold Ascii.compare. apply N.compare_lt_iff in Hc. by rewrite Hc.
    + unfold Ascii.compare. by rewrite N.compare_refl.
  - revert b. induction a as [|c1 a IH]; intros [|c2 b]; simpl; try discriminate.
    + intros _. constructor.
    + destruct (Ascii.compare c1 c2) eqn:Hc; try discriminate.
      * intros Hab. apply Ascii.compare_eq_iff in Hc as ->.
        apply lt_tail, IH, Hab.
      * intros _. apply lt_head. by apply N.compare_lt_iff.
Qed.

Lemma less_spec (a b : string) : sort.less a b = true <-> bytewise_lt a b.
Proof.
  rewrite bytewise_lt_compare. unfold sort.less, String.ltb.
  destruct (String.compare a b); split; congruence.
Qed.

Lemma bytewise_lt_irrefl (a : string) : ~ bytewise_lt a a.
Proof.
  induction a as [|c a IH]; inversion 1; subst; [lia|auto].
Qed.

Lemma bytewise_lt_trans (a b c : string) :
  bytewise_lt a b -> bytewise_lt b c -> bytewise_lt a c.
Proof.
  intros Hab. revert c.
  induction Hab as [x s|c1 c2 s1 s2 Hc|x s1 s2 _ IH]; intros c Hbc;
    inversion Hbc; subst.
  - constructor.
  - constructor.
  - apply lt_head. lia.
  - by apply lt_head.
  - by apply lt_head.
  - apply lt_tail. by apply IH.
Qed.

Lemma bytewise_lt_total (a b : string) :
  bytewise_lt a b \/ a = b \/ bytewise_lt b a.
Proof.
  pose proof (String.compare_antisym b a) as Hanti.
  destruct (String.compare a b) eqn:Hab.
  - right; left. by apply String.compare_eq_iff.
  - left. by apply bytewise_lt_compare.
  - right; right. apply bytewise_lt_compare.
    rewrite Hanti. reflexivity.
Qed.

#[local] Instance bytewise_le_trans : Transitive bytewise_le.
Proof.
  intros a b c [->|Hab] [->|Hbc]; unfold bytewise_le; eauto using bytewise_lt_trans.
Qed.

#[local] Instance bytewise_le_antisym : AntiSymm (=) bytewise_le.
Proof.
  intros a b [->|Hab] [E|Hba]; try done.
  exfalso. eapply bytewise_lt_irrefl, bytewise_lt_trans; eauto.
Qed.

#[local] Instance key_lt_trans : Transitive key_lt.
Proof. intros a b c. apply bytewise_lt_trans. Qed.

Lemma insert_Permutation (x : string) (l : list string) :
  sort.insert x l ≡ₚ x :: l.
Proof.
  induction l as [|y l IH]; simpl; [done|].
  destruct (sort.less x y); [done|].
  rewrite IH. apply Permutation_swap.
Qed.

Lemma insert_Sorted (x : string) (l : list string) :
  Sorted bytewise_le l -> Sorted bytewise_le (sort.insert x l).
Proof.
  induction l as [|y l IH]; simpl; intros Hl.
  - repeat constructor.
  - destruct (sort.less x y) eqn:Hxy.
    + apply less_spec in Hxy. constructor; [done|]. constructor. by right.
    + assert (bytewise_le y x) as Hyx.
      { destruct (bytewise_lt_total x y) as [H|[->|H]].
        - apply less_spec in H. congruence.
        - by left.
        - by right. }
      apply Sorted_inv in Hl as [Hl Hhd].
      constructor; [by apply IH|].
      destruct l as [|z l]; simpl.
      * by constructor.
      * destruct (sort.less x z); constructor; [done|].
        by inversion Hhd.
Qed.

Lemma Strings_Permutation (l : list string) : sort.Strings l ≡ₚ l.
Proof.
  induction l as [|x l IH]; simpl; [done|].
  by rewrite insert_Permutation, IH.
Qed.

Lemma Strings_Sorted (l : list string) : Sorted bytewise_le (sort.Strings l).
Proof.
  induction l as [|x l IH]; simpl; [constructor|].
  by apply insert_Sorted.
Qed.

(** The sorted list is determined by the elements: whatever sorted
    arrangement of the same strings one takes, it is the one
    [sort.Strings] returns. *)
Lemma Strings_unique (l sorted : list string) :
  Sorted bytewise_le sorted -> sorted ≡ₚ l -> sort.Strings l = sorted.
Proof.
  intros Hs Hp. apply (Sorted_unique bytewise_le).
  - apply Strings_Sorted.
  - done.
  - by rewrite Strings_Permutation, Hp.
Qed.

Lemma Strings_order_irrelevant (l1 l2 : list string) :
  l1 ≡ₚ l2 -> sort.Strings l1 = sort.Strings l2.
Proof.
  intros Hp. apply Strings_unique; [apply Strings_Sorted|].
  by rewrite Strings_Permutation.
Qed.

Lemma Sorted_key_lt_le (kvs : list (string * string)) :
  Sorted key_lt kvs -> Sorted bytewise_le kvs.*1.
Proof.
  induction 1 as [|kv kvs _ IH Hhd]; simpl; constructor; [done|].
  destruct Hhd; simpl; constructor. by right.
Qed.

(** ** Tree.Serialize *)

Lemma Marshal_string (s : string) :
  json.Marshal (json.VString s) = (json.appendString s, None).
Proof. reflexivity. Qed.

Lemma WriteString_app (b : Buffer) (s1 s2 : string) :
  WriteString (WriteString b s1) s2 = WriteString b (s1 ++ s2).
Proof.
  unfold WriteString. by rewrite bytes_of_string_app, app_assoc.
Qed.

Lemma Tree_Serialize_loop_later (t : Tree) (keys : list string) (i : nat) (b : Buffer) :
  (0 < i)%nat ->
  Tree_Serialize_loop t i keys b = WriteString b (rest_text t keys).
Proof.
  revert i b. induction keys as [|k keys IH]; intros i b Hi; simpl.
  - unfold WriteString. simpl. by rewrite app_nil_r.
  - destruct (Nat.ltb_spec 0 i) as [_|]; [|lia].
    rewrite IH by lia. rewrite !WriteString_app. f_equal.
Qed.

Lemma Tree_Serialize_loop_first (t : Tree) (keys : list string) (b : Buffer) :
  Tree_Serialize_loop t 0 keys b =
  WriteString b (String.concat "," (map (fun k => entry_text (k, Entries_at t k)) keys)).
Proof.
  destruct keys as [|k keys]; simpl.
  - unfold WriteString. simpl. by rewrite app_nil_r.
  - rewrite Tree_Serialize_loop_later by lia.
    rewrite WriteString_app. f_equal.
    change (string_of_bytes (json.appendString k) ++ ":" ++
            string_of_bytes (json.appendString (Entries_at t k)))%string
      with (entry_text (k, Entries_at t k)).
    generalize (entry_text (k, Entries_at t k)) as x.
    induction keys as [|k' keys IH]; intros x; simpl.
    + by rewrite string_app_nil_r.
    + by rewrite <- IH.
Qed.

Lemma Tree_Serialize_from_sorted (t : Tree) (keys : list string) :
  Tree_Serialize_from keys t =
  (bytes_of_string
     ("{" ++ String.concat "," (map (fun k => entry_text (k, Entries_at t k))
                                    (sort.Strings keys)) ++ "}"), None).
Proof.
  unfold Tree_Serialize_from. rewrite Tree_Serialize_loop_first.
  rewrite !WriteString_app. reflexivity.
Qed.

(** The order in which the map is iterated does not show. *)
Lemma Tree_Serialize_from_order_irrelevant (t : Tree) (keys1 keys2 : list string) :
  keys1 ≡ₚ keys2 -> Tree_Serialize_from keys1 t = Tree_Serialize_from keys2 t.
Proof.
  intros Hp. rewrite !Tree_Serialize_from_sorted.
  by rewrite (Strings_order_irrelevant _ _ Hp).
Qed.

Lemma entry_text_of_entries (t : Tree) (kvs : list (string * string)) :
  (forall kv, kv ∈ kvs -> Entries t !! kv.1 = Some kv.2) ->
  map (fun k => entry_text (k, Entries_at t k)) kvs.*1 = map entry_text kvs.
Proof.
  induction kvs as [|[k v] kvs IH]; intros Hin; simpl; [done|].
  f_equal.
  - assert (Entries t !! k = Some v) as Hk by (apply (Hin (k, v)); by left).
    unfold Entries_at. by rewrite Hk.
  - apply IH. intros kv Hkv. apply Hin. by right.
Qed.

(** C1. For every tree and whatever order the map is iterated in,
    [Serialize] returns, with a nil error, exactly the canonical text of
    the entries taken in byte-wise increasing order of their keys: an
    opening brace, the pairs escaped-key colon escaped-hash joined by
    commas, a closing brace, and nothing else; a tree without entries
    gives the two bytes of an empty object. *)
Theorem Tree_Serialize_canonical (t : Tree) (keys : list string)
    (kvs : list (string * string)) :
  keys ≡ₚ (map_to_list (Entries t)).*1 ->
  kvs ≡ₚ map_to_list (Entries t) ->
  Sorted key_lt kvs ->
  Tree_Serialize_from keys t = (bytes_of_string (canonical_text kvs), None)
  /\ Serialize t = (bytes_of_string (canonical_text kvs), None)
  /\ (Entries t = ∅ -> Serialize t = (bytes_of_string "{}", None)).
Proof.
  intros Hkeys Hkvs Hsorted.
  assert (forall ks, ks ≡ₚ (map_to_list (Entries t)).*1 ->
            Tree_Serialize_from ks t = (bytes_of_string (canonical_text kvs), None)) as Hany.
  { intros ks Hks. rewrite Tree_Serialize_from_sorted.
    rewrite (Strings_unique ks kvs.*1).
    - rewrite entry_text_of_entries; [done|].
      intros [k v] Hin. simpl. apply elem_of_map_to_list. by rewrite <- Hkvs.
    - by apply Sorted_key_lt_le.
    - by rewrite Hks, Hkvs. }
  split; [by apply Hany|].
  assert (Serialize t = (bytes_of_string (canonical_text kvs), None)) as Hser.
  { apply Hany. reflexivity. }
  split; [done|].
  intros Hempty. rewrite Hser.
  rewrite Hempty, map_to_list_empty in Hkvs.
  apply Permutation_nil_r in Hkvs as ->. reflexivity.
Qed.

Lemma Sorted_le_NoDup_lt (l : list string) :
  Sorted bytewise_le l -> NoDup l -> Sorted bytewise_lt l.
Proof.
  induction 1 as [|x l _ IH Hhd]; intros Hnd; [constructor|].
  apply NoDup_cons in Hnd as [Hx Hnd].
  constructor; [by apply IH|].
  destruct Hhd as [|y l [->|Hlt]]; constructor; [|done].
  exfalso. apply Hx. by left.
Qed.

(** Every tree has its entries in increasing key order: the keys as
    [sort.Strings] arranges them, each with its hash. *)
Lemma sorted_entries_exist (t : Tree) :
  exists kvs, kvs ≡ₚ map_to_list (Entries t) /\ Sorted key_lt kvs.
Proof.
  exists ((fun k => (k, Entries_at t k)) <$> sort.Strings (range_keys t)).
  split.
  - rewrite Strings_Permutation. unfold range_keys.
    rewrite <- list_fmap_compose.
    rewrite <- (list_fmap_id (map_to_list (Entries t))) at 2.
    assert (forall (x y : list (string * string)), x = y -> x ≡ₚ y) as Hr
      by (by intros ?? ->).
    apply Hr, list_fmap_ext.
    intros i [k v] Hin%list_elem_of_lookup_2%elem_of_map_to_list. simpl.
    unfold Entries_at. by rewrite Hin.
  - apply (Sorted_fmap _ bytewise_lt key_lt); [by intros x y|].
    apply Sorted_le_NoDup_lt; [apply Strings_Sorted|].
    rewrite Strings_Permutation. apply NoDup_fst_map_to_list.
Qed.

Lemma Tree_Serialize_canonical_witness :
  Tree_Serialize_from ["file.txt"; "data.csv"] example_tree
  = (bytes_of_string
       (canonical_text [("data.csv", "hash_of_data"); ("file.txt", "hash_of_file")]), None)
  /\ Serialize example_tree
     = (bytes_of_string (dq "{'data.csv':'hash_of_data','file.txt':'hash_of_file'}"), None)
  /\ Serialize NewTree = (bytes_of_string "{}", None).
Proof.
  assert (Serialize NewTree = (bytes_of_string "{}", None)) as Hempty.
  { apply (Tree_Serialize_canonical NewTree [] []); [by_evaluation|by_evaluation|constructor|].
    reflexivity. }
  assert (["file.txt"; "data.csv"] ≡ₚ (map_to_list (Entries example_tree)).*1) as H1.
  { by_evaluation. }
  assert ([("data.csv", "hash_of_data"); ("file.txt", "hash_of_file")]
            ≡ₚ map_to_list (Entries example_tree)) as H2.
  { by_evaluation. }
  assert (Sorted key_lt [("data.csv", "hash_of_data"); ("file.txt", "hash_of_file")]) as H3.
  { apply Sorted_cons; [apply Sorted_cons; constructor|].
    constructor. apply less_spec. reflexivity. }
  destruct (Tree_Serialize_canonical example_tree _ _ H1 H2 H3) as (Hfrom & Hser & _).
  split; [exact Hfrom|split; [exact Hser|exact Hempty]].
Defined.

(** ** Order of insertion *)

Lemma insert_all_snoc (l : list (string * string)) (kv : string * string) :
  insert_all (l ++ [kv]) = Tree_set (insert_all l) kv.1 kv.2.
Proof. unfold insert_all. by rewrite fold_left_app. Qed.

Lemma insert_all_list_to_map (l : list (string * string)) :
  Entries (insert_all l) = list_to_map (rev l).
Proof.
  induction l as [|kv l IH] using rev_ind; [done|].
  rewrite insert_all_snoc, rev_unit. simpl. by rewrite IH.
Qed.

Lemma insert_all_order_irrelevant (l1 l2 : list (string * string)) :
  NoDup l1.*1 -> l1 ≡ₚ l2 -> insert_all l1 = insert_all l2.
Proof.
  intros Hnd Hp.
  assert (Entries (insert_all l1) = Entries (insert_all l2)) as HE.
  { rewrite !insert_all_list_to_map. apply list_to_map_proper.
    - by rewrite <- (Permutation_rev l1).
    - by rewrite <- (Permutation_rev l1), <- (Permutation_rev l2). }
  destruct (insert_all l1), (insert_all l2). simpl in HE. by subst.
Qed.

(** C2. Entries under distinct names inserted into a new tree in two
    different orders give trees with byte-identical serializations,
    whatever order each map is iterated in; the tree with [file.txt] and
    [data.csv] serializes to the same text, [data.csv] first, for both
    orders of insertion. *)
Theorem Tree_Serialize_insertion_order (entries1 entries2 : list (string * string))
    (keys1 keys2 : list string) :
  NoDup entries1.*1 ->
  entries1 ≡ₚ entries2 ->
  keys1 ≡ₚ range_keys (insert_all entries1) ->
  keys2 ≡ₚ range_keys (insert_all entries2) ->
  Tree_Serialize_from keys1 (insert_all entries1)
  = Tree_Serialize_from keys2 (insert_all entries2)
  /\ Serialize (insert_all entries1) = Serialize (insert_all entries2)
  /\ Serialize (insert_all [("file.txt", "hash_of_file"); ("data.csv", "hash_of_data")])
     = (bytes_of_string (dq "{'data.csv':'hash_of_data','file.txt':'hash_of_file'}"), None)
  /\ Serialize (insert_all [("data.csv", "hash_of_data"); ("file.txt", "hash_of_file")])
     = (bytes_of_string (dq "{'data.csv':'hash_of_data','file.txt':'hash_of_file'}"), None).
Proof.
  intros Hnd Hp Hk1 Hk2.
  pose proof (insert_all_order_irrelevant _ _ Hnd Hp) as Heq.
  split; [|split; [by rewrite Heq|split; vm_compute; reflexivity]].
  rewrite <- Heq in Hk2 |- *.
  apply Tree_Serialize_from_order_irrelevant. by rewrite Hk1, Hk2.
Qed.

Lemma Tree_Serialize_insertion_order_witness :
  Tree_Serialize_from ["file.txt"; "data.csv"]
    (insert_all [("file.txt", "hash_of_file"); ("data.csv", "hash_of_data")])
  = Tree_Serialize_from ["data.csv"; "file.txt"]
      (insert_all [("data.csv", "hash_of_data"); ("file.txt", "hash_of_file")]).
Proof.
  refine (proj1 (Tree_Serialize_insertion_order
            [("file.txt", "hash_of_file"); ("data.csv", "hash_of_data")]
            [("data.csv", "hash_of_data"); ("file.txt", "hash_of_file")]
            ["file.txt"; "data.csv"] ["data.csv"; "file.txt"] _ _ _ _)).
  - by_evaluation.
  - apply Permutation_swap.
  - by_evaluation.
  - by_evaluation.
Defined.

(** ** encoding/hex and crypto/sha256 *)

Lemma EncodeToString_length (src : bytes) :
  String.length (hex.EncodeToString src) = (2 * length src)%nat.
Proof. induction src as [|v src IH]; simpl; [done|]. rewrite IH. lia. Qed.

Lemma hexdigit_lowercase (v : byte) :
  one_of "0123456789abcdef" (hex.hexdigit (Z.shiftr (byte_val v) 4)) = true
  /\ one_of "0123456789abcdef" (hex.hexdigit (Z.land (byte_val v) 15)) = true.
Proof. destruct v; vm_compute; split; reflexivity. Qed.

Lemma EncodeToString_lowercase (src : bytes) :
  lowercase_hex (hex.EncodeToString src) = true.
Proof.
  unfold lowercase_hex. induction src as [|v src IH]; [done|].
  destruct (hexdigit_lowercase v) as [Hhi Hlo].
  cbn [hex.EncodeToString list_ascii_of_string forallb].
  by rewrite Hhi, Hlo, IH.
Qed.

Lemma Decode_encoded_byte (v : byte) (rest : string) :
  hex.Decode (String (hex.hexdigit (Z.shiftr (byte_val v) 4))
                (String (hex.hexdigit (Z.land (byte_val v) 15)) rest))
  = (v :: (hex.Decode rest).1, (hex.Decode rest).2).
Proof.
  destruct v; cbn -[hex.Decode];
    change (hex.Decode (String ?p (String ?q rest)))
      with (match hex.fromHexChar p with
            | None => ([], Some (hex_InvalidByteError (byte_of_ascii p)))
            | Some a =>
                match hex.fromHexChar q with
                | None => ([], Some (hex_InvalidByteError (byte_of_ascii q)))
                | Some b =>
                    let '(dst, err) := hex.Decode rest in
                    (byte_of_Z (Z.lor (Z.shiftl a 4) b) :: dst, err)
                end
            end);
    cbn -[hex.Decode]; by destruct (hex.Decode rest).
Qed.

(** Decoding what [EncodeToString] wrote gives the bytes back. *)
Lemma DecodeString_EncodeToString (src : bytes) :
  hex.DecodeString (hex.EncodeToString src) = (src, None).
Proof.
  unfold hex.DecodeString. induction src as [|v src IH]; [done|].
  cbn [hex.EncodeToString]. rewrite Decode_encoded_byte. by rewrite IH.
Qed.

Lemma fromHexChar_digit (c : ascii) :
  one_of "0123456789abcdefABCDEF" c
  = match hex.fromHexChar c with Some _ => true | None => false end.
Proof. destruct c as [[] [] [] [] [] [] [] []]; vm_compute; reflexivity. Qed.

(** [Decode] succeeds exactly on the valid hexadecimal strings, then
    giving one byte for two characters, and fails with one of the two
    decode errors on all others. *)
Lemma Decode_valid_hex (s : string) :
  if valid_hex s
  then (hex.Decode s).2 = None /\ (2 * length (hex.Decode s).1 = String.length s)%nat
  else exists e, (hex.Decode s).2 = Some e /\ is_decode_error e = true.
Proof.
  cut ((if valid_hex s
        then (hex.Decode s).2 = None /\ (2 * length (hex.Decode s).1 = String.length s)%nat
        else exists e, (hex.Decode s).2 = Some e /\ is_decode_error e = true)
       /\ forall c,
           (if valid_hex (String c s)
            then (hex.Decode (String c s)).2 = None
                 /\ (2 * length (hex.Decode (String c s)).1 = String.length (String c s))%nat
            else exists e, (hex.Decode (String c s)).2 = Some e /\ is_decode_error e = true)).
  { intros [Hs _]. exact Hs. }
  induction s as [|q s [IH0 IH1]].
  - split; [by split|]. intros c.
    unfold valid_hex. simpl.
    destruct (hex.fromHexChar c); simpl; eauto.
  - split; [apply IH1|]. intros p.
    unfold valid_hex in *.
    cbn [String.length Nat.even list_ascii_of_string forallb].
    rewrite !fromHexChar_digit.
    change (hex.Decode (String p (String q s)))
      with (match hex.fromHexChar p with
            | None => ([], Some (hex_InvalidByteError (byte_of_ascii p)))
            | Some a =>
                match hex.fromHexChar q with
                | None => ([], Some (hex_InvalidByteError (byte_of_ascii q)))
                | Some b =>
                    let '(dst, err) := hex.Decode s in
                    (byte_of_Z (Z.lor (Z.shiftl a 4) b) :: dst, err)
                end
            end).
    destruct (hex.fromHexChar p) as [a|].
    2:{ rewrite andb_false_r. simpl. eauto. }
    destruct (hex.fromHexChar q) as [b|].
    2:{ rewrite andb_false_r. simpl. eauto. }
    simpl. destruct (hex.Decode s) as [dst err]. simpl in *.
    destruct (Nat.even (String.length s) && forallb _ _).
    + destruct IH0 as [-> Hlen]. split; [done|]. simpl. lia.
    + exact IH0.
Qed.

Lemma be_bytes_length (n : nat) (x : Z) : length (sha256.be_bytes n x) = n.
Proof. unfold sha256.be_bytes. by rewrite length_map, length_rev, length_seq. Qed.

(** The checksum is 32 bytes long. *)
Lemma Sum256_length (data : bytes) : length (sha256.Sum256 data) = 32%nat.
Proof. unfold sha256.Sum256. by rewrite !length_app, !be_bytes_length. Qed.

(** Test vectors of FIPS 180-4 for the model of [Sum256]. *)
Example Sum256_abc :
  hex.EncodeToString (sha256.Sum256 (bytes_of_string "abc"))
  = "ba7816bf8f01cfea414140de5dae2223b00361a396177a9cb410ff61f20015ad".
Proof. vm_compute. reflexivity. Qed.

Example Sum256_empty :
  hex.EncodeToString (sha256.Sum256 [])
  = "e3b0c44298fc1c149afbf4c8996fb92427ae41e4649b934ca495991b7852b855".
Proof. vm_compute. reflexivity. Qed.

Example Sum256_two_blocks :
  hex.EncodeToString (sha256.Sum256 (bytes_of_string
    "abcdbcdecdefdefgefghfghighijhijkijkljklmklmnlmnomnopnopq"))
  = "248d6a61d20638b8e5c026930c3e6039a33ce45964ff2167f6ecedd419db06c1".
Proof. vm_compute. reflexivity. Qed.

(** ** The object store *)

Section store_properties.
Context {S : Type} `{Storage S}.

Lemma WriteObject_serialized {A : Type} `{Object A} (s : ObjectStore S) (obj : A) (d : bytes) :
  Serialize obj = (d, None) ->
  WriteObject s obj =
    (match (Put (storage s) (sha256.Sum256 d) d).1 with
     | None => (hex.EncodeToString (sha256.Sum256 d), None)
     | Some e => (EmptyString, Some (wrapError "failed to store object: " e))
     end,
     mkObjectStore (Put (storage s) (sha256.Sum256 d) d).2).
Proof.
  intros Hd. unfold WriteObject. rewrite Hd.
  by destruct (Put (storage s) (sha256.Sum256 d) d) as [[e|] st].
Qed.

Lemma WriteObject_serialize_fails {A : Type} `{Object A} (s : ObjectStore S) (obj : A)
    (d : bytes) (e : error) :
  Serialize obj = (d, Some e) ->
  WriteObject s obj = ((EmptyString, Some (wrapError "failed to serialize object: " e)), s).
Proof. intros Hd. unfold WriteObject. by rewrite Hd. Qed.

Lemma ReadRawObject_decoded (s : ObjectStore S) (hash : string) (key : bytes) :
  hex.DecodeString hash = (key, None) ->
  ReadRawObject s hash =
    (match (Get (storage s) key).1.2 with
     | None => ((Get (storage s) key).1.1, None)
     | Some e => ([], Some (wrapError "failed to read object: " e))
     end,
     mkObjectStore (Get (storage s) key).2).
Proof.
  intros Hd. unfold ReadRawObject. rewrite Hd.
  by destruct (Get (storage s) key) as [[data [e|]] st].
Qed.

End store_properties.

(** C3. When [Serialize] gives the bytes [d], [WriteObject] makes one
    call to the backend, [Put] of [d] under the 32 bytes of the SHA-256
    checksum of [d] (a backend that records its calls sees this [Put] and
    nothing else, so no [Exists] or [Get] before it); it returns the
    64-character lowercase hexadecimal text of the checksum when the
    [Put] succeeds and an error when the [Put] fails. *)
Theorem WriteObject_stores_under_digest {S : Type} `{Storage S} {A : Type} `{Object A}
    (s : ObjectStore S) (obj : A) (d : bytes) :
  Serialize obj = (d, None) ->
  let key := sha256.Sum256 d in
  let hash := hex.EncodeToString key in
  length key = 32%nat
  /\ String.length hash = 64%nat
  /\ lowercase_hex hash = true
  /\ hex.DecodeString hash = (key, None)
  /\ WriteObject s obj =
       (match (Put (storage s) key d).1 with
        | None => (hash, None)
        | Some e => (EmptyString, Some (wrapError "failed to store object: " e))
        end,
        mkObjectStore (Put (storage s) key d).2)
  /\ forall r : ObjectStore (recording S),
       calls (storage (WriteObject r obj).2) = calls (storage r) ++ [CallPut key d].
Proof.
  intros Hd key hash. subst key hash.
  split; [apply Sum256_length|].
  split; [by rewrite EncodeToString_length, Sum256_length|].
  split; [apply EncodeToString_lowercase|].
  split; [apply DecodeString_EncodeToString|].
  split; [by apply WriteObject_serialized|].
  intros r. rewrite (WriteObject_serialized r obj d Hd). simpl.
  by destruct (Put (backend (storage r)) (sha256.Sum256 d) d).
Qed.

Lemma WriteObject_stores_under_digest_witness :
  WriteObject (NewObjectStore NewMockStorage) example_object
  = (("4044c8ddded3abd86eb71eb873176f51e3165b7d1719dad17f848c24777997eb", None),
     mkObjectStore (mkMockStorage
       {[ string_of_bytes (sha256.Sum256 (bytes_of_string (dq "{'id':'test_id','data':'hello world'}")))
          := bytes_of_string (dq "{'id':'test_id','data':'hello world'}") ]})).
Proof.
  assert (Serialize example_object
          = (bytes_of_string (dq "{'id':'test_id','data':'hello world'}"), None)) as Hd.
  { vm_compute. reflexivity. }
  destruct (WriteObject_stores_under_digest (NewObjectStore NewMockStorage) example_object _ Hd)
    as (_ & _ & _ & _ & Hw & _).
  rewrite Hw. vm_compute. reflexivity.
Defined.

(** The mock backend returns from [Get] what was last [Put] under the
    key, and [ErrNotFound] for a key that is not in its map. *)
Lemma mockStorage_Get_Put (st : mockStorage) (key value : bytes) (st' : mockStorage) :
  Put st key value = (None, st') -> (Get st' key).1 = (value, None).
Proof.
  simpl. intros [= <-]. simpl. by rewrite lookup_insert_eq.
Qed.

Lemma mockStorage_Get_absent (st : mockStorage) (key : bytes) :
  data st !! string_of_bytes key = None -> Get st key = (([], Some ErrNotFound), st).
Proof. simpl. by intros ->. Qed.

(** C4. Over a backend whose [Get] returns the value most recently
    [Put] under the same key, reading back the hash that [WriteObject]
    returned for an object succeeds and gives the bytes of the object's
    serialization. *)
Theorem ReadRawObject_WriteObject_round_trip {S : Type} `{Storage S} {A : Type} `{Object A}
    (s s' : ObjectStore S) (obj : A) (d : bytes) (hash : string) :
  (forall st key value st', Put st key value = (None, st') -> (Get st' key).1 = (value, None)) ->
  Serialize obj = (d, None) ->
  WriteObject s obj = ((hash, None), s') ->
  (ReadRawObject s' hash).1 = (d, None).
Proof.
  intros Hget Hd Hw.
  rewrite (WriteObject_serialized s obj d Hd) in Hw.
  destruct (Put (storage s) (sha256.Sum256 d) d) as [[e|] st] eqn:Hput;
    cbn [fst snd] in Hw; [discriminate|].
  pose proof (f_equal (fun r => r.1.1) Hw) as Hhash.
  pose proof (f_equal snd Hw) as Hs'.
  cbn [fst snd] in Hhash, Hs'. subst hash s'.
  rewrite (ReadRawObject_decoded _ _ _ (DecodeString_EncodeToString _)).
  cbn [fst snd storage].
  by rewrite (Hget _ _ _ _ Hput).
Qed.

Lemma ReadRawObject_WriteObject_round_trip_witness :
  (ReadRawObject (WriteObject (NewObjectStore NewMockStorage) example_object).2
     "4044c8ddded3abd86eb71eb873176f51e3165b7d1719dad17f848c24777997eb").1
  = (bytes_of_string (dq "{'id':'test_id','data':'hello world'}"), None).
Proof.
  apply (ReadRawObject_WriteObject_round_trip
           (NewObjectStore NewMockStorage) _ example_object).
  - exact mockStorage_Get_Put.
  - vm_compute. reflexivity.
  - vm_compute. reflexivity.
Defined.

(** C5. [ReadRawObject] on a string that is not valid hexadecimal
    returns, without calling the backend, an error that wraps one of the
    decode errors of encoding/hex. On a valid hexadecimal string of 64
    characters it asks the backend for the 32 decoded bytes, and when the
    backend answers with its not-found error (or an error wrapping it)
    the result is an error, wrapping the backend's, in which
    [errors.Is] finds [ErrNotFound]; so it is over the mock backend for
    every key that is not in its map. In all cases the call returns. *)
Theorem ReadRawObject_errors {S : Type} `{Storage S} (s : ObjectStore S) (hash : string) :
  (valid_hex hash = false ->
     exists e, is_decode_error e = true
       /\ ReadRawObject s hash = (([], Some (wrapError "failed to decode hash: " e)), s))
  /\ (valid_hex hash = true -> String.length hash = 64%nat ->
      exists key, hex.DecodeString hash = (key, None) /\ length key = 32%nat
        /\ forall err, (Get (storage s) key).1.2 = Some err ->
             errors_Is err ErrNotFound = true ->
             (ReadRawObject s hash).1 = ([], Some (wrapError "failed to read object: " err))
             /\ errors_Is (wrapError "failed to read object: " err) ErrNotFound = true)
  /\ (forall m : ObjectStore mockStorage,
        valid_hex hash = true -> String.length hash = 64%nat ->
        data (storage m) !! string_of_bytes (hex.DecodeString hash).1 = None ->
        ReadRawObject m hash
        = (([], Some (wrapError "failed to read object: " ErrNotFound)), m)).
Proof.
  pose proof (Decode_valid_hex hash) as Hdec.
  split; [|split]; [intros Hv; rewrite Hv in Hdec..|].
  - destruct Hdec as (e & He & Hde). exists e. split; [done|].
    unfold ReadRawObject, hex.DecodeString.
    destruct (hex.Decode hash) as [b err]. simpl in He. by rewrite He.
  - intros Hlen. destruct Hdec as [Hnone Hl].
    exists (hex.Decode hash).1. split; [|split; [lia|]].
    { unfold hex.DecodeString. destruct (hex.Decode hash); simpl in *. by subst. }
    intros err Hget His.
    rewrite (ReadRawObject_decoded s hash (hex.Decode hash).1).
    2:{ unfold hex.DecodeString. destruct (hex.Decode hash); simpl in *. by subst. }
    simpl. rewrite Hget. split; [done|].
    simpl. by rewrite His.
  - intros m Hv _ Habsent. rewrite Hv in Hdec. destruct Hdec as [Hnone _].
    rewrite (ReadRawObject_decoded m hash (hex.Decode hash).1).
    2:{ unfold hex.DecodeString. destruct (hex.Decode hash); simpl in *. by subst. }
    unfold hex.DecodeString in Habsent.
    rewrite (mockStorage_Get_absent _ _ Habsent). by destruct m.
Qed.

Lemma ReadRawObject_errors_witness :
  (exists e, is_decode_error e = true
     /\ ReadRawObject (NewObjectStore NewMockStorage) "not-hex"
        = (([], Some (wrapError "failed to decode hash: " e)), NewObjectStore NewMockStorage))
  /\ (ReadRawObject (NewObjectStore NewMockStorage) unknown_hash).1
     = ([], Some (wrapError "failed to read object: " ErrNotFound))
  /\ errors_Is (wrapError "failed to read object: " ErrNotFound) ErrNotFound = true.
Proof.
  split.
  - apply (proj1 (ReadRawObject_errors (NewObjectStore NewMockStorage) "not-hex")).
    reflexivity.
  - destruct (proj1 (proj2 (ReadRawObject_errors (NewObjectStore NewMockStorage) unknown_hash))
                eq_refl eq_refl) as (key & Hkey & _ & Hread).
    apply Hread; [|reflexivity].
    injection Hkey as <-. reflexivity.
Defined.

(** ** Commit.Serialize *)

Lemma encode_string_list (ps : list string) :
  json.join_encoded (map json.encode (map json.VString ps))
  = (bytes_of_string (String.concat "," (map json_escaped ps)), None).
Proof.
  induction ps as [|p ps IH]; [reflexivity|].
  cbn [map json.join_encoded json.encode].
  destruct ps as [|p' ps].
  - cbn [map String.concat]. unfold json_escaped. by rewrite bytes_of_string_of_bytes.
  - cbn [map] in IH |- *. rewrite IH.
    cbn [String.concat]. rewrite !bytes_of_string_app.
    change (bytes_of_string (json_escaped p))
      with (bytes_of_string (string_of_bytes (json.appendString p))).
    by rewrite bytes_of_string_of_bytes.
Qed.

Lemma encode_string_slice (ps : list string) :
  json.encode (json.VSlice false (map json.VString ps))
  = (bytes_of_string (json_string_array ps), None).
Proof.
  cbn [json.encode]. rewrite encode_string_list.
  unfold json_string_array. by rewrite !bytes_of_string_app.
Qed.

Lemma list_ascii_of_string_app (a b : string) :
  list_ascii_of_string (a ++ b) = list_ascii_of_string a ++ list_ascii_of_string b.
Proof.
  induction a as [|c a IH]; [reflexivity|].
  rewrite string_app_cons. simpl. by rewrite IH.
Qed.

Lemma ends_in_Z_app (a : string) : ends_in_Z (a ++ "Z") = true.
Proof.
  unfold ends_in_Z. by rewrite list_ascii_of_string_app, rev_app_distr.
Qed.

(** A time in UTC is written with the suffix [Z]. *)
Lemma appendFormatRFC3339_UTC (t : time.Time) :
  time.zoneOffset t = 0 -> ends_in_Z (time.appendFormatRFC3339 t) = true.
Proof.
  intros Hz. unfold time.appendFormatRFC3339.
  destruct (time.Date t) as [[year month] day], (time.Clock t) as [[hour min] sec].
  rewrite Hz. cbn [Z.eqb].
  rewrite <- !string_app_assoc. apply ends_in_Z_app.
Qed.

Lemma MarshalJSON_cases (t : time.Time) :
  match time.strict_error t with
  | None => time.MarshalJSON t
            = (bytes_of_string (quote ++ time.appendFormatRFC3339 t ++ quote), None)
  | Some _ => exists e, time.MarshalJSON t = ([], Some e)
  end.
Proof.
  unfold time.MarshalJSON.
  destruct (time.strict_error t) as [[]|]; eauto.
Qed.

(** The bytes of a commit whose timestamp can be encoded. *)
Lemma Commit_Serialize_encodable (c : Commit) :
  time.strict_error (Timestamp c) = None ->
  Commit_Serialize c
  = (bytes_of_string
       (commit_text
          (json_escaped (TreeHash c))
          (match ParentHashes c with
           | None => "null"
           | Some parents => json_string_array parents
           end)
          (json_escaped (Message c))
          (quote ++ time.appendFormatRFC3339 (Timestamp c) ++ quote)), None).
Proof.
  intros Hok.
  pose proof (MarshalJSON_cases (Timestamp c)) as Ht. rewrite Hok in Ht.
  assert (json.encode (match ParentHashes c with
                       | None => json.VSlice true []
                       | Some ps => json.VSlice false (map json.VString ps)
                       end)
          = (bytes_of_string (match ParentHashes c with
                              | None => "null"
                              | Some parents => json_string_array parents
                              end), None)) as Hps.
  { destruct (ParentHashes c); [apply encode_string_slice|reflexivity]. }
  unfold Commit_Serialize, json.Marshal, Commit_value.
  cbn [json.encode map fst snd json.join_encoded].
  rewrite Hps, Ht.
  unfold commit_text, json_escaped.
  rewrite !bytes_of_string_app, !bytes_of_string_of_bytes.
  rewrite <- !app_assoc. reflexivity.
Qed.

(** C7, as stated, fails: a commit whose parent slice is nil is
    serialized with [null] for [parents], not with an array. *)
Lemma Commit_Serialize_nil_parents_not_array :
  Commit_Serialize root_commit
  = (bytes_of_string
       (dq "{'tree':'t','parents':null,'message':'m','timestamp':'1970-01-01T00:00:00Z'}"),
     None)
  /\ ~ serializes_with_parents_array root_commit.
Proof.
  split; [vm_compute; reflexivity|].
  intros (parents & timestamp & Heq).
  apply (f_equal fst) in Heq. cbn [fst] in Heq.
  apply (f_equal (fun b => String.get 22 (string_of_bytes b))) in Heq.
  rewrite string_of_bytes_of_string in Heq.
  vm_compute in Heq. discriminate Heq.
Qed.

(** C7, amended. For every commit whose timestamp can be written as a
    strict RFC 3339 text (year within 0..9999, zone hour below 24),
    [Serialize] gives exactly the JSON object with the fields [tree],
    [parents], [message] and [timestamp] in this order: the tree hash and
    the message as escaped strings, the parents as an array of the
    escaped strings in their order, or [null] when the slice is nil, the
    timestamp as the RFC 3339 text between quotes, which ends in [Z] when
    the time is in UTC. For any other timestamp [Serialize] returns a
    [MarshalerError] and no bytes. *)
Theorem Commit_Serialize_wire_format (c : Commit) :
  match time.strict_error (Timestamp c) with
  | None =>
      Commit_Serialize c
      = (bytes_of_string
           (commit_text
              (json_escaped (TreeHash c))
              (match ParentHashes c with
               | None => "null"
               | Some parents => json_string_array parents
               end)
              (json_escaped (Message c))
              (quote ++ time.appendFormatRFC3339 (Timestamp c) ++ quote)), None)
      /\ (time.zoneOffset (Timestamp c) = 0 ->
          ends_in_Z (time.appendFormatRFC3339 (Timestamp c)) = true)
  | Some _ => exists e, Commit_Serialize c = ([], Some (json_MarshalerError e))
  end.
Proof.
  destruct (time.strict_error (Timestamp c)) as [e0|] eqn:Hstrict.
  - pose proof (MarshalJSON_cases (Timestamp c)) as Ht. rewrite Hstrict in Ht.
    destruct Ht as [err He]. exists err.
    unfold Commit_Serialize, json.Marshal, Commit_value.
    cbn [json.encode map fst snd json.join_encoded].
    destruct (ParentHashes c) as [ps|].
    + rewrite encode_string_slice, He. reflexivity.
    + cbn [json.encode]. rewrite He. reflexivity.
  - split; [by apply Commit_Serialize_encodable|apply appendFormatRFC3339_UTC].
Qed.

(** ** CreateCommit *)

(** C6. With a nil store [CreateCommit] returns an error and there is
    no store it could have written to. With a store it builds the commit
    whose tree hash, message and parent list are the arguments (the
    parent list as it was passed, in its order), with the current time in
    UTC, passes it to [WriteObject], and returns the hash [WriteObject]
    returned, or its error wrapped. So when the commit serializes to [d]
    and the backend accepts the write, [d] is stored under its checksum
    and the hexadecimal text of the checksum is returned; [d] is the
    JSON object with the tree hash, the parents in the order given, the
    message and the time. The commit written for the parents [p1], [p2]
    reads back with exactly these two parents in this order. *)
Theorem CreateCommit_writes_commit {S : Type} `{Storage S} (store : ObjectStore S)
    (treeHash message : string) (parentHashes : slice string) (now : time.Time) :
  let commit := mkCommit treeHash parentHashes message (time.UTC now) in
  CreateCommit (S := S) None treeHash message parentHashes now
  = ((EmptyString, Some (errorString "object store cannot be nil")), None)
  /\ (TreeHash commit = treeHash /\ ParentHashes commit = parentHashes
      /\ Message commit = message /\ time.zoneOffset (Timestamp commit) = 0)
  /\ CreateCommit (Some store) treeHash message parentHashes now
     = (match (WriteObject store commit).1 with
        | (hash, None) => (hash, None)
        | (_, Some e) => (EmptyString, Some (wrapError "failed to write commit: " e))
        end, Some (WriteObject store commit).2)
  /\ (forall d, Serialize commit = (d, None) ->
        (Put (storage store) (sha256.Sum256 d) d).1 = None ->
        CreateCommit (Some store) treeHash message parentHashes now
        = ((hex.EncodeToString (sha256.Sum256 d), None),
           Some (mkObjectStore (Put (storage store) (sha256.Sum256 d) d).2)))
  /\ (time.strict_error (time.UTC now) = None ->
      Serialize commit
      = (bytes_of_string
           (commit_text (json_escaped treeHash)
              (match parentHashes with
               | None => "null"
               | Some parents => json_string_array parents
               end)
              (json_escaped message)
              (quote ++ time.appendFormatRFC3339 (time.UTC now) ++ quote)), None))
  /\ (let r := CreateCommit (Some (NewObjectStore NewMockStorage)) "t" "m"
                 (Some ["p1"; "p2"]) (time.mkTime 1700000000 0 3600) in
      exists hash st,
        r = ((hash, None), Some st)
        /\ (ReadRawObject st hash).1
           = (bytes_of_string
                (dq "{'tree':'t','parents':['p1','p2'],'message':'m','timestamp':'2023-11-14T22:13:20Z'}"),
              None)).
Proof.
  intros commit.
  split; [reflexivity|].
  split; [done|].
  assert (CreateCommit (Some store) treeHash message parentHashes now
          = (match (WriteObject store commit).1 with
             | (hash, None) => (hash, None)
             | (_, Some e) => (EmptyString, Some (wrapError "failed to write commit: " e))
             end, Some (WriteObject store commit).2)) as Hcc.
  { unfold CreateCommit. fold commit.
    by destruct (WriteObject store commit) as [[hash [e|]] st]. }
  split; [exact Hcc|].
  split.
  - intros d Hd Hput. rewrite Hcc, (WriteObject_serialized store commit d Hd).
    cbn [fst snd]. by rewrite Hput.
  - split; [apply (Commit_Serialize_encodable commit)|].
    eexists _, _. split; vm_compute; reflexivity.
Qed.

Lemma CreateCommit_writes_commit_witness :
  CreateCommit (Some (NewObjectStore NewMockStorage)) "dummy_tree_hash_12345"
    "Initial commit" (Some []) (time.mkTime 1700000000 0 0)
  = (("8e9bfa533777e7e3cc40efa0bbcac105d03800e8067ea0474774a2c09634a9cd", None),
     Some (mkObjectStore (Put NewMockStorage
        (sha256.Sum256 (bytes_of_string
           (dq "{'tree':'dummy_tree_hash_12345','parents':[],'message':'Initial commit','timestamp':'2023-11-14T22:13:20Z'}")))
        (bytes_of_string
           (dq "{'tree':'dummy_tree_hash_12345','parents':[],'message':'Initial commit','timestamp':'2023-11-14T22:13:20Z'}"))).2)).
Proof.
  destruct (CreateCommit_writes_commit (NewObjectStore NewMockStorage) "dummy_tree_hash_12345"
              "Initial commit" (Some []) (time.mkTime 1700000000 0 0))
    as (_ & _ & _ & Hok & _ & _).
  rewrite (Hok (bytes_of_string
    (dq "{'tree':'dummy_tree_hash_12345','parents':[],'message':'Initial commit','timestamp':'2023-11-14T22:13:20Z'}"))).
  - vm_compute. reflexivity.
  - vm_compute. reflexivity.
  - reflexivity.
Defined.

(** ** The workspace *)

Section workspace_properties.
Context {S : Type} `{Storage S}.

Lemma Workspace_Commit_tree (w : Workspace S) (message : string)
    (parentHashes : slice string) (now : time.Time) :
  tree (Workspace_Commit w message parentHashes now).2 = tree w.
Proof.
  unfold Workspace_Commit.
  destruct (WriteObject (store w) (tree w)) as [[treeHash [e|]] st]; [done|].
  destruct (CreateCommit (Some st) treeHash message parentHashes now) as [[h [e|]] st'];
    done.
Qed.

Lemma Workspace_Add_cases {A : Type} `{Object A} (w : Workspace S) (name : string) (obj : A) :
  Workspace_Add w name obj
  = match (WriteObject (store w) obj).1 with
    | (_, Some e) =>
        (Some (wrapError ("failed to write object '" ++ name ++ "': ") e),
         mkWorkspace (WriteObject (store w) obj).2 (tree w))
    | (hash, None) =>
        (None, mkWorkspace (WriteObject (store w) obj).2 (Tree_set (tree w) name hash))
    end.
Proof.
  unfold Workspace_Add.
  by destruct (WriteObject (store w) obj) as [[hash [e|]] st].
Qed.

Lemma Workspace_Commit_tree_write_fails (w : Workspace S) (message : string)
    (parentHashes : slice string) (now : time.Time) (e : error) :
  (WriteObject (store w) (tree w)).1.2 = Some e ->
  Workspace_Commit w message parentHashes now
  = ((EmptyString, Some (wrapError "failed to write tree: " e)),
     mkWorkspace (WriteObject (store w) (tree w)).2 (tree w)).
Proof.
  unfold Workspace_Commit.
  destruct (WriteObject (store w) (tree w)) as [[treeHash err] st].
  cbn [fst snd]. by intros ->.
Qed.

Lemma Workspace_Commit_success (w : Workspace S) (message : string)
    (parentHashes : slice string) (now : time.Time) (commitHash : string) :
  (Workspace_Commit w message parentHashes now).1 = (commitHash, None) ->
  exists treeHash st d,
    WriteObject (store w) (tree w) = ((treeHash, None), st)
    /\ Commit_Serialize (mkCommit treeHash parentHashes message (time.UTC now)) = (d, None)
    /\ commitHash = hex.EncodeToString (sha256.Sum256 d).
Proof.
  unfold Workspace_Commit.
  destruct (WriteObject (store w) (tree w)) as [[treeHash [e|]] st]; [done|].
  unfold CreateCommit, WriteObject at 1.
  change (@Serialize Commit _) with Commit_Serialize.
  destruct (Commit_Serialize _) as [d [e|]] eqn:Hd; [done|].
  destruct (Put (storage st) (sha256.Sum256 d) d) as [[e|] st']; [done|].
  cbn [fst snd]. intros [= <-]. by exists treeHash, st, d.
Qed.

End workspace_properties.

(** C8. [Workspace.Commit] leaves the staging tree as it was, whether
    it succeeds or fails. So an [Add] after a commit puts its entry on
    top of the entries already committed (all of them remain, the new
    name maps to the new hash), and the next commit writes the tree with
    all these entries: the tree hash in its commit object is the hash of
    the serialization of that cumulative tree. *)
Theorem Workspace_Commit_keeps_staging_tree {S : Type} `{Storage S} {A : Type} `{Object A}
    (w : Workspace S) (message : string) (parentHashes : slice string) (now : time.Time)
    (name : string) (obj : A)
    (message2 : string) (parentHashes2 : slice string) (now2 : time.Time) :
  let w1 := (Workspace_Commit w message parentHashes now).2 in
  let w2 := (Workspace_Add w1 name obj).2 in
  let w3 := (Workspace_Commit w2 message2 parentHashes2 now2).2 in
  Entries (tree w1) = Entries (tree w)
  /\ ((Workspace_Add w1 name obj).1 = None ->
      exists hash,
        (WriteObject (store w1) obj).1 = (hash, None)
        /\ Entries (tree w2) = <[name := hash]> (Entries (tree w))
        /\ Entries (tree w2) !! name = Some hash
        /\ (forall k v, k <> name -> Entries (tree w) !! k = Some v ->
              Entries (tree w2) !! k = Some v)
        /\ Entries (tree w2) <> ∅
        /\ Entries (tree w3) = Entries (tree w2)
        /\ forall commitHash,
             (Workspace_Commit w2 message2 parentHashes2 now2).1 = (commitHash, None) ->
             exists d,
               Commit_Serialize
                 (mkCommit (hex.EncodeToString (sha256.Sum256 (Tree_Serialize (tree w2)).1))
                    parentHashes2 message2 (time.UTC now2)) = (d, None)
               /\ commitHash = hex.EncodeToString (sha256.Sum256 d)).
Proof.
  intros w1 w2 w3.
  assert (tree w1 = tree w) as Hw1 by apply Workspace_Commit_tree.
  split; [by rewrite Hw1|].
  intros Hadd. subst w2 w3.
  rewrite Workspace_Add_cases in Hadd |- *.
  destruct (WriteObject (store w1) obj) as [[hash [e|]] st] eqn:Hwo;
    cbn [fst snd] in Hadd |- *; [done|].
  exists hash. split; [done|].
  rewrite Workspace_Commit_tree. cbn [tree Tree_set Entries]. rewrite Hw1.
  split; [done|].
  split; [apply lookup_insert_eq|].
  split; [by intros k v Hk Hv; rewrite lookup_insert_ne|].
  split; [apply insert_non_empty|].
  split; [done|].
  intros commitHash Hc.
  apply Workspace_Commit_success in Hc as (treeHash & st' & d & Htw & Hd & ->).
  cbn [store tree] in Htw.
  exists d. split; [|done].
  rewrite <- Hd. do 2 f_equal.
  pose proof (WriteObject_serialized st (Tree_set (tree w) name hash)
                (Tree_Serialize (Tree_set (tree w) name hash)).1) as Hws.
  rewrite Htw in Hws.
  assert (Serialize (Tree_set (tree w) name hash)
          = ((Tree_Serialize (Tree_set (tree w) name hash)).1, None)) as Hser by reflexivity.
  specialize (Hws Hser).
  destruct (Put (storage st) _ _) as [[e|] st'']; cbn [fst snd] in Hws; [done|].
  by apply (f_equal (fun r => r.1.1)) in Hws.
Qed.

Lemma Workspace_Commit_keeps_staging_tree_witness :
  let w := mkWorkspace (NewObjectStore NewMockStorage)
             (Tree_set NewTree "object_a" "h_a") in
  let w1 := (Workspace_Commit w "first" (Some []) (time.mkTime 1700000000 0 0)).2 in
  let w2 := (Workspace_Add w1 "object_b" example_object).2 in
  Entries (tree w1) = Entries (tree w)
  /\ exists hash, Entries (tree w2) = <[ "object_b" := hash ]> (Entries (tree w)).
Proof.
  intros w w1 w2.
  destruct (Workspace_Commit_keeps_staging_tree w "first" (Some [])
              (time.mkTime 1700000000 0 0) "object_b" example_object
              "second" (Some []) (time.mkTime 1700000001 0 0)) as [Hkeep Hcumul].
  split; [exact Hkeep|].
  destruct Hcumul as (hash & _ & Hentries & _).
  - vm_compute. reflexivity.
  - exists hash. exact Hentries.
Defined.

(** ** Failures *)

Lemma Tree_Serialize_ok (t : Tree) :
  Serialize t = ((Tree_Serialize t).1, None).
Proof. reflexivity. Qed.

(** A write of the bounded backend that fails leaves the backend as it
    was. *)
Lemma boundedStorage_failed_Put (st st' : boundedStorage) (key value : bytes) (e : error) :
  Put st key value = (Some e, st') -> st' = st.
Proof. simpl. destruct (budget st); [by intros [= _ <-]|discriminate]. Qed.

(** C9. A failing operation stops where it failed. If the object write
    of [Add] fails, [Add] returns the error and the staging tree is the
    one from before. If the tree write of [Commit] fails, [Commit]
    returns the error, the staging tree is unchanged, and the store is
    left as that one write left it: the backend has seen the [Put] of
    the tree and no [Put] of a commit; over a backend whose failed [Put]
    does not disturb what [Get] returns, every object reads as before.
    However [Commit] fails, it returns no hash and the staging tree is
    unchanged. If the commit write of [CreateCommit] fails, the result is
    the empty string with an error. *)
Theorem failed_operations_stop {S : Type} `{Storage S} {A : Type} `{Object A}
    (w : Workspace S) (wr : Workspace (recording S)) (st : ObjectStore S)
    (name : string) (obj : A) (treeHash message : string)
    (parentHashes : slice string) (now : time.Time) (e : error) :
  ((WriteObject (store w) obj).1.2 = Some e ->
     Workspace_Add w name obj
     = (Some (wrapError ("failed to write object '" ++ name ++ "': ") e),
        mkWorkspace (WriteObject (store w) obj).2 (tree w))
     /\ tree (Workspace_Add w name obj).2 = tree w)
  /\ ((WriteObject (store w) (tree w)).1.2 = Some e ->
      let w' := (Workspace_Commit w message parentHashes now).2 in
      Workspace_Commit w message parentHashes now
      = ((EmptyString, Some (wrapError "failed to write tree: " e)),
         mkWorkspace (WriteObject (store w) (tree w)).2 (tree w))
      /\ tree w' = tree w
      /\ storage (store w')
         = (Put (storage (store w)) (sha256.Sum256 (Tree_Serialize (tree w)).1)
              (Tree_Serialize (tree w)).1).2
      /\ ((forall s key value err s', Put s key value = (Some err, s') ->
             forall k, (Get s' k).1 = (Get s k).1) ->
          forall hash, (ReadRawObject (store w') hash).1 = (ReadRawObject (store w) hash).1))
  /\ ((Workspace_Commit w message parentHashes now).1.2 <> None ->
      (Workspace_Commit w message parentHashes now).1.1 = EmptyString
      /\ tree (Workspace_Commit w message parentHashes now).2 = tree w)
  /\ ((WriteObject (store wr) (tree wr)).1.2 = Some e ->
      calls (storage (store (Workspace_Commit wr message parentHashes now).2))
      = calls (storage (store wr))
        ++ [CallPut (sha256.Sum256 (Tree_Serialize (tree wr)).1) (Tree_Serialize (tree wr)).1])
  /\ ((WriteObject st (mkCommit treeHash parentHashes message (time.UTC now))).1.2 = Some e ->
      CreateCommit (Some st) treeHash message parentHashes now
      = ((EmptyString, Some (wrapError "failed to write commit: " e)),
         Some (WriteObject st (mkCommit treeHash parentHashes message (time.UTC now))).2)).
Proof.
  split; [|split; [|split; [|split]]].
  - intros Hfail. rewrite Workspace_Add_cases.
    destruct (WriteObject (store w) obj) as [[hash err] s']. cbn [fst snd] in Hfail |- *.
    by rewrite Hfail.
  - intros Hfail w'. subst w'.
    rewrite (Workspace_Commit_tree_write_fails w message parentHashes now e Hfail).
    cbn [fst snd tree store].
    split; [done|]. split; [done|].
    rewrite (WriteObject_serialized (store w) (tree w) _ (Tree_Serialize_ok (tree w))) in Hfail |- *.
    cbn [fst snd storage] in Hfail |- *.
    split; [done|].
    intros Hkeep hash.
    destruct (Put (storage (store w)) _ _) as [[err|] s'] eqn:Hput;
      cbn [fst snd] in Hfail |- *; [|done].
    unfold ReadRawObject. destruct (hex.DecodeString hash) as [key [derr|]]; [done|].
    cbn [storage].
    pose proof (Hkeep _ _ _ _ _ Hput key) as Hget.
    destruct (Get s' key) as [[v1 e1] s1], (Get (storage (store w)) key) as [[v2 e2] s2].
    cbn [fst] in Hget. injection Hget as -> ->. by destruct e2.
  - intros Hfail. split; [|apply Workspace_Commit_tree].
    revert Hfail. unfold Workspace_Commit.
    destruct (WriteObject (store w) (tree w)) as [[th [err|]] s1]; [done|].
    by destruct (CreateCommit (Some s1) th message parentHashes now) as [[h [err|]] s2].
  - intros Hfail.
    rewrite (Workspace_Commit_tree_write_fails wr message parentHashes now e Hfail).
    rewrite (WriteObject_serialized (store wr) (tree wr) _ (Tree_Serialize_ok (tree wr))).
    cbn [fst snd storage store Put recording_Storage].
    by destruct (Put (backend (storage (store wr))) _ _).
  - intros Hfail. unfold CreateCommit.
    destruct (WriteObject st _) as [[hash err] s']. cbn [fst snd] in Hfail |- *.
    by rewrite Hfail.
Qed.

Lemma failed_operations_stop_witness :
  Workspace_Add full_workspace "object_b" example_object
  = (Some (wrapError "failed to write object 'object_b': "
             (wrapError "failed to store object: " (errorString "no space left"))),
     full_workspace)
  /\ Workspace_Commit full_workspace "msg" (Some []) (time.mkTime 1700000000 0 0)
     = ((EmptyString, Some (wrapError "failed to write tree: "
              (wrapError "failed to store object: " (errorString "no space left")))),
        full_workspace)
  /\ (forall hash,
        (ReadRawObject
           (store (Workspace_Commit full_workspace "msg" (Some [])
                     (time.mkTime 1700000000 0 0)).2) hash).1
        = (ReadRawObject (store full_workspace) hash).1)
  /\ ((Workspace_Commit full_workspace "msg" (Some []) (time.mkTime 1700000000 0 0)).1.1
      = EmptyString
      /\ tree (Workspace_Commit full_workspace "msg" (Some [])
                 (time.mkTime 1700000000 0 0)).2 = tree full_workspace)
  /\ calls (storage (store (Workspace_Commit full_recording_workspace "msg" (Some [])
                              (time.mkTime 1700000000 0 0)).2))
     = [CallPut (sha256.Sum256 (bytes_of_string (dq "{'object_a':'h_a'}")))
          (bytes_of_string (dq "{'object_a':'h_a'}"))]
  /\ CreateCommit (Some (NewObjectStore full_backend)) "t" "msg" (Some [])
       (time.mkTime 1700000000 0 0)
     = ((EmptyString, Some (wrapError "failed to write commit: "
              (wrapError "failed to store object: " (errorString "no space left")))),
        Some (NewObjectStore full_backend)).
Proof.
  destruct (failed_operations_stop full_workspace full_recording_workspace
              (NewObjectStore full_backend) "object_b" example_object "t" "msg"
              (Some []) (time.mkTime 1700000000 0 0)
              (wrapError "failed to store object: " (errorString "no space left")))
    as (Hadd & Hcommit & Hany & Hcalls & Hcreate).
  split; [|split; [|split; [|split; [|split]]]].
  - rewrite (proj1 (Hadd eq_refl)). reflexivity.
  - rewrite (proj1 (Hcommit eq_refl)). reflexivity.
  - apply (Hcommit eq_refl).
    intros s key value err s' Hput k.
    by rewrite (boundedStorage_failed_Put _ _ _ _ _ Hput).
  - apply Hany. vm_compute. discriminate.
  - rewrite (Hcalls eq_refl). reflexivity.
  - rewrite (Hcreate eq_refl). reflexivity.
Defined.

(** C10. [Tree.Serialize] returns a nil error for every tree and every
    order of iteration of its map: escaping a string returns no error
    (and an error would be dropped). So [WriteObject] on a tree goes on
    to the [Put], and its only possible error is the one it reports for
    a failed [Put], never the one for a failed [Serialize]. *)
Theorem Tree_Serialize_never_fails {S : Type} `{Storage S} (t : Tree) (keys : list string)
    (s : ObjectStore S) :
  (Tree_Serialize_from keys t).2 = None
  /\ (Serialize t).2 = None
  /\ (forall key, (json.Marshal (json.VString key)).2 = None)
  /\ WriteObject s t
     = (match (Put (storage s) (sha256.Sum256 (Serialize t).1) (Serialize t).1).1 with
        | None => (hex.EncodeToString (sha256.Sum256 (Serialize t).1), None)
        | Some e => (EmptyString, Some (wrapError "failed to store object: " e))
        end,
        mkObjectStore (Put (storage s) (sha256.Sum256 (Serialize t).1) (Serialize t).1).2)
  /\ (forall e, (WriteObject s t).1.2 <> Some (wrapError "failed to serialize object: " e)).
Proof.
  split; [reflexivity|]. split; [reflexivity|]. split; [reflexivity|].
  pose proof (WriteObject_serialized s t _ (Tree_Serialize_ok t)) as Hw.
  split; [exact Hw|].
  intros e. rewrite Hw. cbn [fst snd].
  destruct (Put (storage s) _ _).1; cbn [snd]; [|done].
  intros Heq. discriminate Heq.
Qed.

(** ** The model on the inputs of the test files and of the libraries' documentation *)

(** encoding/json escapes the quote and the backslash, the characters
    [<], [>], [&], the control characters, invalid UTF-8 and the line
    separators U+2028 and U+2029; everything else is copied. *)
Example appendString_html :
  json_escaped "a<b>&c\d e"
  = String "034" ("a\u003cb\u003e\u0026c\\d e" ++ quote).
Proof. vm_compute. reflexivity. Qed.

Example appendString_control :
  json_escaped (String "010" (String "001" (String "034" (String "127" EmptyString))))
  = String "034" ("\n\u0001\" ++ String "034" (String "127" quote)).
Proof. vm_compute. reflexivity. Qed.

(** U+00E9 is copied; U+2028 and a sequence cut short are escaped. *)
Example appendString_utf8 :
  json_escaped (String "195" (String "169"
               (String "226" (String "128" (String "168"
               (String "226" (String "128" EmptyString)))))))
  = String "034" (String "195" (String "169"
      ("\u2028\ufffd\ufffd" ++ quote))).
Proof. vm_compute. reflexivity. Qed.

Example MarshalJSON_epoch :
  time.MarshalJSON (time.mkTime 0 0 0)
  = (bytes_of_string (dq "'1970-01-01T00:00:00Z'"), None).
Proof. vm_compute. reflexivity. Qed.

Example MarshalJSON_zone :
  time.MarshalJSON (time.mkTime 1709210096 5000 (-12600))
  = (bytes_of_string (dq "'2024-02-29T09:04:56.000005-03:30'"), None).
Proof. vm_compute. reflexivity. Qed.

Example MarshalJSON_year_10000 :
  time.MarshalJSON (time.mkTime 253402300800 0 0)
  = ([], Some (errorString "Time.MarshalJSON: year outside of range [0,9999]")).
Proof. vm_compute. reflexivity. Qed.

Example DecodeString_odd_length :
  hex.DecodeString "0aF" = (["010"%byte], Some hex_ErrLength).
Proof. vm_compute. reflexivity. Qed.

Example DecodeString_invalid_byte :
  hex.DecodeString "0aFFg0" = (["010"%byte; "255"%byte], Some (hex_InvalidByteError "g"%byte)).
Proof. vm_compute. reflexivity. Qed.

Example Strings_example :
  sort.Strings ["file.txt"; "data.csv"; "b"; "a"; "ab"; EmptyString; "B"]
  = [EmptyString; "B"; "a"; "ab"; "b"; "data.csv"; "file.txt"].
Proof. vm_compute. reflexivity. Qed.

(** An object that cannot be serialized is not written. *)
Example WriteObject_brokenObject :
  WriteObject (NewObjectStore NewMockStorage) (mkBrokenObject "broken")
  = ((EmptyString, Some (wrapError "failed to serialize object: " (errorString "broken"))),
     NewObjectStore NewMockStorage).
Proof. reflexivity. Qed.

(** The scenario of the workspace test: two objects are added, the
    workspace is committed, and the commit and its tree are read back. *)
Example Workspace_scenario :
  let ws0 := mkWorkspace (NewObjectStore NewMockStorage) NewTree in
  let ws1 := (Workspace_Add ws0 "object_a" (mkMockObject "A" "Object A")).2 in
  let ws2 := (Workspace_Add ws1 "object_b" (mkMockObject "B" "Object B")).2 in
  let r := Workspace_Commit ws2 "Add objects A and B" (Some []) (time.mkTime 1700000000 0 3600) in
  let tree_text :=
    dq "{'object_a':'93a9701e7ec1d5d2326fe3c64be41c10c33eecbccf8cd54ed356b43e96508a56','object_b':'c34e85e9f66e4d142ddfa7558eadf545aa81db9dce7c46828b4cff86de77f516'}" in
  let tree_hash := hex.EncodeToString (sha256.Sum256 (bytes_of_string tree_text)) in
  r.1.2 = None
  /\ (ReadRawObject (store r.2) r.1.1).1
     = (bytes_of_string
          (dq "{'tree':'" ++ tree_hash
           ++ dq "','parents':[],'message':'Add objects A and B','timestamp':'2023-11-14T22:13:20Z'}"),
        None)
  /\ (ReadRawObject (store r.2) tree_hash).1 = (bytes_of_string tree_text, None)
  /\ (Tree_Serialize (tree r.2)).1 = bytes_of_string tree_text.
Proof. vm_compute. repeat split; reflexivity. Qed.

(* ===================================================================== *)
(** * Further properties of the code                                     *)
(* ===================================================================== *)

(* ------------------------------------------------------------------ *)
(** ** Bit arithmetic of the rune decoder *)

Lemma lor_disjoint (m k b : Z) :
  0 <= k -> 0 <= b < 2 ^ k -> Z.lor (m * 2 ^ k) b = m * 2 ^ k + b.
Proof.
  intros Hk Hb.
  assert (Z.land (m * 2 ^ k) b = 0) as Hland.
  { apply Z.bits_inj'. intros n Hn. rewrite Z.land_spec, Z.bits_0.
    destruct (Z.lt_ge_cases n k) as [Hlt|Hge].
    - by rewrite Z.mul_pow2_bits_low.
    - rewrite <- (Z.mod_small b (2 ^ k)) by lia.
      rewrite Z.mod_pow2_bits_high by lia. apply andb_false_r. }
  rewrite <- Z.lxor_lor by exact Hland.
  symmetry. apply Z.add_nocarry_lxor. exact Hland.
Qed.

Lemma land_1F (b : Z) : Z.land b 0x1F = b mod 32.
Proof. change 0x1F with (Z.ones 5). by rewrite Z.land_ones. Qed.
Lemma land_3F (b : Z) : Z.land b 0x3F = b mod 64.
Proof. change 0x3F with (Z.ones 6). by rewrite Z.land_ones. Qed.
Lemma land_0F (b : Z) : Z.land b 0x0F = b mod 16.
Proof. change 0x0F with (Z.ones 4). by rewrite Z.land_ones. Qed.
Lemma land_07 (b : Z) : Z.land b 0x07 = b mod 8.
Proof. change 0x07 with (Z.ones 3). by rewrite Z.land_ones. Qed.

Lemma rune2 (b0 b1 : Z) :
  Z.lor (Z.shiftl (Z.land b0 0x1F) 6) (Z.land b1 0x3F) = (b0 mod 32) * 64 + b1 mod 64.
Proof.
  rewrite land_1F, land_3F, Z.shiftl_mul_pow2 by lia.
  pose proof (Z.mod_pos_bound b1 64 ltac:(lia)).
  apply (lor_disjoint _ 6); lia.
Qed.

Lemma rune3 (b0 b1 b2 : Z) :
  Z.lor (Z.lor (Z.shiftl (Z.land b0 0x0F) 12) (Z.shiftl (Z.land b1 0x3F) 6)) (Z.land b2 0x3F)
  = (b0 mod 16) * 4096 + (b1 mod 64) * 64 + b2 mod 64.
Proof.
  rewrite land_0F, !land_3F, !Z.shiftl_mul_pow2 by lia.
  pose proof (Z.mod_pos_bound b1 64 ltac:(lia)).
  pose proof (Z.mod_pos_bound b2 64 ltac:(lia)).
  rewrite (lor_disjoint _ 12) by lia.
  replace (b0 mod 16 * 2 ^ 12 + b1 mod 64 * 2 ^ 6)
    with ((b0 mod 16 * 64 + b1 mod 64) * 2 ^ 6) by lia.
  rewrite (lor_disjoint _ 6) by lia. lia.
Qed.

Lemma rune4 (b0 b1 b2 b3 : Z) :
  Z.lor (Z.lor (Z.lor (Z.shiftl (Z.land b0 0x07) 18) (Z.shiftl (Z.land b1 0x3F) 12))
               (Z.shiftl (Z.land b2 0x3F) 6)) (Z.land b3 0x3F)
  = (b0 mod 8) * 262144 + (b1 mod 64) * 4096 + (b2 mod 64) * 64 + b3 mod 64.
Proof.
  rewrite land_07, !land_3F, !Z.shiftl_mul_pow2 by lia.
  pose proof (Z.mod_pos_bound b1 64 ltac:(lia)).
  pose proof (Z.mod_pos_bound b2 64 ltac:(lia)).
  pose proof (Z.mod_pos_bound b3 64 ltac:(lia)).
  rewrite (lor_disjoint _ 18) by lia.
  replace (b0 mod 8 * 2 ^ 18 + b1 mod 64 * 2 ^ 12)
    with ((b0 mod 8 * 64 + b1 mod 64) * 2 ^ 12) by lia.
  rewrite (lor_disjoint _ 12) by lia.
  replace ((b0 mod 8 * 64 + b1 mod 64) * 2 ^ 12 + b2 mod 64 * 2 ^ 6)
    with (((b0 mod 8 * 64 + b1 mod 64) * 64 + b2 mod 64) * 2 ^ 6) by lia.
  rewrite (lor_disjoint _ 6) by lia. lia.
Qed.

(* ------------------------------------------------------------------ *)
(** ** Decoding one rune *)

Lemma DecodeRune_lead (s0 : Z) (l : list Z) (x sz lo hi : Z) :
  utf8.first s0 = x -> (0xF0 <=? x) = false ->
  Z.land x 7 = sz -> utf8.acceptRanges (Z.shiftr x 4) = (lo, hi) ->
  utf8.DecodeRune (s0 :: l) = decode_rest s0 sz lo hi l.
Proof.
  intros Hx Hlt Hsz Hr. unfold utf8.DecodeRune. cbv zeta.
  rewrite Hx, Hlt, Hsz, Hr. reflexivity.
Qed.

Ltac pick_case :=
  first [ lia | (split; [reflexivity|lia]) | (left; pick_case) | (right; pick_case) ].

Lemma first_cases (s0 : Z) :
  0x80 <= s0 ->
  utf8.first s0 = 0xF1
  \/ (utf8.first s0 = 0x02 /\ 0xC2 <= s0 < 0xE0)
  \/ (utf8.first s0 = 0x13 /\ s0 = 0xE0)
  \/ (utf8.first s0 = 0x03 /\ 0xE1 <= s0 < 0xF0)
  \/ (utf8.first s0 = 0x23 /\ s0 = 0xED)
  \/ (utf8.first s0 = 0x34 /\ s0 = 0xF0)
  \/ (utf8.first s0 = 0x04 /\ 0xF1 <= s0 < 0xF4)
  \/ (utf8.first s0 = 0x44 /\ s0 = 0xF4).
Proof.
  intros Hs. unfold utf8.first.
  repeat match goal with
         | |- context [?a <? ?b] => destruct (Z.ltb_spec a b)
         | |- context [?a =? ?b] => destruct (Z.eqb_spec a b)
         end; pick_case.
Qed.

Lemma decode_rest_cases (s0 sz lo hi : Z) (l : list Z) (r : Z) (size : nat) :
  0x80 <= lo -> hi <= 0xBF ->
  (sz = 2 /\ 0xC2 <= s0 < 0xE0)
  \/ (sz = 3 /\ 0xE0 <= s0 < 0xF0)
  \/ (sz = 4 /\ ((s0 = 0xF0 /\ 0x90 <= lo) \/ 0xF1 <= s0 <= 0xF4)) ->
  decode_rest s0 sz lo hi l = (r, size) ->
  decoded s0 l r size.
Proof.
  intros Hlo Hhi Hsz. unfold decode_rest, decoded, utf8.cont.
  destruct l as [|s1 l]; [intros [= <- <-]; by left|].
  destruct (Z.ltb_spec s1 lo); [intros [= <- <-]; by left|].
  destruct (Z.ltb_spec hi s1); [intros [= <- <-]; by left|].
  cbn [orb].
  destruct (Z.leb_spec sz 2).
  { intros [= <- <-]. right; left. split; [done|]. split.
    - rewrite rune2. Z.div_mod_to_equations. lia.
    - exists s1, l. split; [done|lia]. }
  destruct l as [|s2 l]; [intros [= <- <-]; by left|].
  destruct (Z.leb_spec 0x80 s2); [|intros [= <- <-]; by left].
  destruct (Z.leb_spec s2 0xBF); [|intros [= <- <-]; by left].
  cbn [andb negb].
  destruct (Z.leb_spec sz 3).
  { intros [= <- <-]. right; right; left. split; [done|].
    exists s1, s2, l. split; [done|]. split; [lia|]. split; [lia|].
    rewrite rune3. Z.div_mod_to_equations. lia. }
  destruct l as [|s3 l]; [intros [= <- <-]; by left|].
  destruct (Z.leb_spec 0x80 s3); [|intros [= <- <-]; by left].
  destruct (Z.leb_spec s3 0xBF); [|intros [= <- <-]; by left].
  cbn [andb negb].
  intros [= <- <-]. right; right; right. split; [done|]. split.
  - rewrite rune4. Z.div_mod_to_equations. lia.
  - exists s1, s2, s3, l. split; [done|lia].
Qed.

Lemma DecodeRune_cases (s0 : Z) (l : list Z) (r : Z) (size : nat) :
  0x80 <= s0 -> utf8.DecodeRune (s0 :: l) = (r, size) -> decoded s0 l r size.
Proof.
  intros Hs.
  destruct (first_cases s0 Hs) as [Hf|[[Hf ?]|[[Hf ?]|[[Hf ?]|[[Hf ?]|[[Hf ?]|[[Hf ?]|[Hf ?]]]]]]]].
  - unfold utf8.DecodeRune. cbv zeta. rewrite Hf.
    intros [= <- <-]. by left.
  - rewrite (DecodeRune_lead s0 l _ 2 0x80 0xBF Hf eq_refl eq_refl eq_refl).
    apply decode_rest_cases; lia.
  - rewrite (DecodeRune_lead s0 l _ 3 0xA0 0xBF Hf eq_refl eq_refl eq_refl).
    apply decode_rest_cases; lia.
  - rewrite (DecodeRune_lead s0 l _ 3 0x80 0xBF Hf eq_refl eq_refl eq_refl).
    apply decode_rest_cases; lia.
  - rewrite (DecodeRune_lead s0 l _ 3 0x80 0x9F Hf eq_refl eq_refl eq_refl).
    apply decode_rest_cases; lia.
  - rewrite (DecodeRune_lead s0 l _ 4 0x90 0xBF Hf eq_refl eq_refl eq_refl).
    apply decode_rest_cases; lia.
  - rewrite (DecodeRune_lead s0 l _ 4 0x80 0xBF Hf eq_refl eq_refl eq_refl).
    apply decode_rest_cases; lia.
  - rewrite (DecodeRune_lead s0 l _ 4 0x80 0x8F Hf eq_refl eq_refl eq_refl).
    apply decode_rest_cases; lia.
Qed.

(* ------------------------------------------------------------------ *)
(** ** Reading an escaped string back *)

Lemma string_cons_inv (c1 c2 : ascii) (a b : string) :
  String c1 a = String c2 b -> c1 = c2 /\ a = b.
Proof. by intros [= -> ->]. Qed.

Lemma appendString_loop_ascii (c : ascii) (rest : string) :
  byte_value c < 0x80 ->
  json.appendString_loop 0 true (String c rest)
  = ((if json.htmlSafeSet (Z.of_N (N_of_ascii c)) then String c EmptyString
      else json.escape_ascii c) ++ json.appendString_loop 0 true rest)%string.
Proof.
  intros Hc. cbn [json.appendString_loop].
  destruct (Z.ltb_spec (Z.of_N (N_of_ascii c)) utf8.RuneSelf) as [_|Hge]; [done|].
  unfold utf8.RuneSelf in Hge. unfold byte_value in Hc. lia.
Qed.

Lemma read_escaped_ascii (c : ascii) (tail : string) :
  byte_value c < 0x80 ->
  read_escaped ((if json.htmlSafeSet (Z.of_N (N_of_ascii c)) then String c EmptyString
                 else json.escape_ascii c) ++ tail)
  = match read_escaped tail with
    | Some (text, after) => Some (String c text, after)
    | None => None
    end.
Proof.
  destruct c as [b0 b1 b2 b3 b4 b5 b6 [|]].
  { intros H. exfalso. destruct b0, b1, b2, b3, b4, b5, b6; vm_compute in H; discriminate. }
  intros _.
  destruct b0, b1, b2, b3, b4, b5, b6; reflexivity.
Qed.

Lemma read_escaped_high (c : ascii) (tail : string) :
  0x80 <= byte_value c ->
  read_escaped (String c tail)
  = match read_escaped tail with
    | Some (text, after) => Some (String c text, after)
    | None => None
    end.
Proof.
  destruct c as [b0 b1 b2 b3 b4 b5 b6 [|]].
  - intros _. destruct b0, b1, b2, b3, b4, b5, b6; reflexivity.
  - intros H. exfalso. destruct b0, b1, b2, b3, b4, b5, b6; vm_compute in H; by apply H.
Qed.

Lemma appendString_loop_0 (copy : bool) (s : string) :
  json.appendString_loop 0 copy s = json.appendString_loop 0 true s.
Proof. destruct s; reflexivity. Qed.

Lemma byte_values_substring (n : nat) (s : string) (s1 : Z) (l1 : list Z) :
  json.byte_values (substring 0 (S n) s) = s1 :: l1 ->
  exists c1 rest1, s = String c1 rest1 /\ byte_value c1 = s1
                   /\ json.byte_values (substring 0 n rest1) = l1.
Proof.
  destruct s as [|c1 rest1]; [discriminate|].
  intros [= <- <-]. by exists c1, rest1.
Qed.

Lemma byte_value_inj (c : ascii) (n : Z) :
  byte_value c = n -> c = ascii_of_N (Z.to_N n).
Proof.
  intros <-. unfold byte_value. by rewrite N2Z.id, ascii_N_embedding.
Qed.

Lemma read_escaped_separator (r : Z) (tail : string) :
  r = 0x2028 \/ r = 0x2029 ->
  read_escaped ("\u202" ++ json.hexchar (Z.land r 0xF) ++ tail)
  = match read_escaped tail with
    | Some (text, after) =>
        Some (String (ascii_of_N (Z.to_N 0xE2))
                (String (ascii_of_N (Z.to_N 0x80))
                   (String (ascii_of_N (Z.to_N (0x80 + (r - 0x2000)))) text)), after)
    | None => None
    end.
Proof. intros [-> | ->]; reflexivity. Qed.

Lemma read_escaped_loop_pending (k : nat) (s tail : string) (n : nat) :
  (String.length s <= k)%nat -> continued n s -> utf8_ValidString_loop n s = true ->
  read_escaped (json.appendString_loop n true s ++ quote ++ tail) = Some (s, tail).
Proof.
  revert s n. induction k as [|k IH]; intros s n Hlen Hcont Hvalid.
  { destruct s; [|cbn in Hlen; lia]. destruct n; [reflexivity|destruct Hcont]. }
  destruct s as [|c rest]; [destruct n; [reflexivity|destruct Hcont]|].
  cbn [String.length] in Hlen.
  destruct n as [|m].
  - cbn [utf8_ValidString_loop] in Hvalid.
    destruct (Z.ltb_spec (byte_value c) utf8.RuneSelf) as [Hlt|Hge].
    + rewrite (appendString_loop_ascii c rest Hlt), string_app_assoc.
      rewrite (read_escaped_ascii c _ Hlt), (IH rest 0%nat); [done|lia|done|done].
    + unfold utf8.RuneSelf in Hge.
      cbn [json.appendString_loop].
      destruct (Z.ltb_spec (Z.of_N (N_of_ascii c)) utf8.RuneSelf) as [Hlt|_];
        [unfold byte_value, utf8.RuneSelf in *; lia|].
      destruct (utf8.DecodeRune _) as [r size] eqn:Hd.
      change (json.byte_values (substring 0 4 (String c rest)))
        with (byte_value c :: json.byte_values (substring 0 3 rest)) in Hd.
      apply DecodeRune_cases in Hd; [|done].
      destruct Hd as [[-> ->]|[(-> & Hr & s1 & l1 & Hl & H1)
                     |[(-> & s1 & s2 & l2 & Hl & H1 & H2 & Hsep)
                     |(-> & Hr & s1 & s2 & s3 & l3 & Hl & H1 & H2 & H3)]]].
      * discriminate Hvalid.
      * apply byte_values_substring in Hl as (c1 & rest1 & -> & <- & _).
        rewrite andb_false_r in Hvalid |- *.
        destruct (Z.eqb_spec r 0x2028); [lia|]. destruct (Z.eqb_spec r 0x2029); [lia|].
        cbn [orb Nat.sub]. rewrite string_app_cons, read_escaped_high by done.
        rewrite (IH _ 1%nat); [done|lia|by split|done].
      * apply byte_values_substring in Hl as (c1 & rest1 & -> & <- & Hl).
        apply byte_values_substring in Hl as (c2 & rest2 & -> & <- & _).
        rewrite andb_false_r in Hvalid |- *. cbn [Nat.sub] in Hvalid |- *.
        destruct (decide (r = 0x2028 \/ r = 0x2029)) as [Hr|Hn].
        -- destruct (Hsep Hr) as (E0 & E1 & E2).
           apply byte_value_inj in E0, E1, E2.
           replace ((r =? 0x2028) || (r =? 0x2029)) with true
             by (destruct Hr as [-> | ->]; reflexivity).
           cbn [json.appendString_loop]. rewrite appendString_loop_0.
           cbn [utf8_ValidString_loop] in Hvalid.
           rewrite !string_app_assoc, (read_escaped_separator r _ Hr).
           rewrite (IH _ 0%nat); [by subst c c1 c2|cbn [String.length] in Hlen; lia|done|done].
        -- destruct (Z.eqb_spec r 0x2028); [lia|]. destruct (Z.eqb_spec r 0x2029); [lia|].
           cbn [orb]. rewrite string_app_cons, read_escaped_high by done.
           rewrite (IH _ 2%nat); [done|lia|by repeat split|done].
      * apply byte_values_substring in Hl as (c1 & rest1 & -> & <- & Hl).
        apply byte_values_substring in Hl as (c2 & rest2 & -> & <- & Hl).
        apply byte_values_substring in Hl as (c3 & rest3 & -> & <- & _).
        rewrite andb_false_r in Hvalid |- *. cbn [Nat.sub] in Hvalid |- *.
        destruct (Z.eqb_spec r 0x2028); [lia|]. destruct (Z.eqb_spec r 0x2029); [lia|].
        cbn [orb]. rewrite string_app_cons, read_escaped_high by done.
        rewrite (IH _ 3%nat); [done|lia|by repeat split|done].
  - destruct Hcont as [Hc Hcont]. cbn [utf8_ValidString_loop] in Hvalid.
    cbn [json.appendString_loop]. rewrite string_app_cons, read_escaped_high by done.
    rewrite (IH _ m); [done|lia|done|done].
Qed.

Lemma read_escaped_loop (s r : string) :
  utf8_ValidString s = true ->
  read_escaped (json.appendString_loop 0 true s ++ quote ++ r) = Some (s, r).
Proof.
  intros Hs. by apply (read_escaped_loop_pending (String.length s) s r 0%nat).
Qed.

Lemma json_escaped_unfold (s : string) :
  json_escaped s = (quote ++ json.appendString_loop 0 true s ++ quote)%string.
Proof. unfold json_escaped, json.appendString. apply string_of_bytes_of_string. Qed.

(** An escaped string of valid UTF-8 determines the string and where it ends. *)
Lemma json_escaped_prefix_inj (a b r1 r2 : string) :
  utf8_ValidString a = true -> utf8_ValidString b = true ->
  (json_escaped a ++ r1 = json_escaped b ++ r2)%string ->
  a = b /\ r1 = r2.
Proof.
  intros Ha Hb Heq. rewrite !json_escaped_unfold in Heq.
  rewrite !string_app_assoc in Heq.
  unfold quote at 1 3 in Heq. rewrite !string_app_cons in Heq.
  apply string_cons_inv in Heq as [_ Heq].
  change (EmptyString ++ ?x)%string with x in Heq.
  apply (f_equal read_escaped) in Heq.
  rewrite !read_escaped_loop in Heq by done.
  by injection Heq.
Qed.

(* ------------------------------------------------------------------ *)
(** ** Serializations that tell their values apart *)

Lemma concat_cons_app (sep x : string) (l : list string) (r : string) :
  (String.concat sep (x :: l) ++ r
   = x ++ match l with [] => r | _ :: _ => sep ++ String.concat sep l ++ r end)%string.
Proof.
  destruct l as [|y l]; [reflexivity|].
  cbn [String.concat]. by rewrite !string_app_assoc.
Qed.

Section joined.
Context {A : Type} (enc : A -> string) (ok : A -> Prop) (close : ascii).
Hypothesis enc_prefix_inj : forall a b r1 r2,
  ok a -> ok b -> (enc a ++ r1 = enc b ++ r2)%string -> a = b /\ r1 = r2.
Hypothesis enc_quoted : forall a, ok a -> exists rest, enc a = String "034" rest.
Hypothesis close_not_comma : close <> ","%char.
Hypothesis close_not_quote : close <> "034"%char.

(** Items written one after the other with commas between them and a
    closing character after the last can be read back in one way only. *)
Lemma joined_inj (l1 l2 : list A) (r1 r2 : string) :
  Forall ok l1 -> Forall ok l2 ->
  (String.concat "," (map enc l1) ++ String close r1
   = String.concat "," (map enc l2) ++ String close r2)%string ->
  l1 = l2 /\ r1 = r2.
Proof.
  revert l2. induction l1 as [|a l1 IH]; intros [|b l2] Hok1 Hok2 Heq.
  - change (String close r1 = String close r2) in Heq.
    by apply string_cons_inv in Heq as [_ ->].
  - exfalso. cbn [map] in Heq. rewrite concat_cons_app in Heq.
    change (String close r1 = (enc b ++ match map enc l2 with
                                       | [] => String close r2
                                       | _ :: _ => "," ++ String.concat "," (map enc l2)
                                                   ++ String close r2
                                       end)%string) in Heq.
    apply Forall_cons in Hok2 as [Hb _].
    destruct (enc_quoted b Hb) as [rest Hrest]. rewrite Hrest, string_app_cons in Heq.
    apply string_cons_inv in Heq as [Hc _]. by apply close_not_quote.
  - exfalso. cbn [map] in Heq. rewrite concat_cons_app in Heq.
    change ((enc a ++ match map enc l1 with
                      | [] => String close r1
                      | _ :: _ => "," ++ String.concat "," (map enc l1) ++ String close r1
                      end)%string = String close r2) in Heq.
    apply Forall_cons in Hok1 as [Ha _].
    destruct (enc_quoted a Ha) as [rest Hrest]. rewrite Hrest, string_app_cons in Heq.
    apply string_cons_inv in Heq as [Hc _]. by apply close_not_quote.
  - apply Forall_cons in Hok1 as [Ha Hok1]. apply Forall_cons in Hok2 as [Hb Hok2].
    cbn [map] in Heq. rewrite !concat_cons_app in Heq.
    apply enc_prefix_inj in Heq as [-> Heq]; [|done..].
    destruct l1 as [|a' l1], l2 as [|b' l2]; cbn [map] in Heq.
    + by apply string_cons_inv in Heq as [_ ->].
    + exfalso. change ("," ++ ?x)%string with (String "," x) in Heq.
      apply string_cons_inv in Heq as [Hc _]. by apply close_not_comma.
    + exfalso. change ("," ++ ?x)%string with (String "," x) in Heq.
      apply string_cons_inv in Heq as [Hc _]. by apply close_not_comma.
    + change ("," ++ ?x)%string with (String "," x) in Heq.
      apply string_cons_inv in Heq as [_ Heq].
      destruct (IH (b' :: l2) Hok1 Hok2 Heq) as [-> ->]. done.
Qed.

End joined.

Lemma json_escaped_quoted (s : string) : exists rest, json_escaped s = String "034" rest.
Proof. rewrite json_escaped_unfold. by eexists. Qed.

Lemma entry_text_prefix_inj (a b : string * string) (r1 r2 : string) :
  valid_entry a -> valid_entry b ->
  (entry_text a ++ r1 = entry_text b ++ r2)%string -> a = b /\ r1 = r2.
Proof.
  destruct a as [k1 v1], b as [k2 v2]. intros [Hk1 Hv1] [Hk2 Hv2] Heq.
  unfold entry_text in Heq. cbn [fst snd] in *.
  rewrite !string_app_assoc in Heq.
  apply json_escaped_prefix_inj in Heq as [-> Heq]; [|done..].
  change (":" ++ ?x)%string with (String ":" x) in Heq.
  apply string_cons_inv in Heq as [_ Heq].
  apply json_escaped_prefix_inj in Heq as [-> ->]; done.
Qed.

Lemma canonical_text_inj (l1 l2 : list (string * string)) :
  Forall valid_entry l1 -> Forall valid_entry l2 ->
  canonical_text l1 = canonical_text l2 -> l1 = l2.
Proof.
  intros H1 H2 Heq. unfold canonical_text in Heq.
  change ("{" ++ ?x)%string with (String "{" x) in Heq.
  apply string_cons_inv in Heq as [_ Heq].
  change "}" with (String "}" EmptyString) in Heq.
  apply (joined_inj entry_text valid_entry "}") in Heq as [-> _]; try done.
  - apply entry_text_prefix_inj.
  - intros [k v] _. destruct (json_escaped_quoted k) as [rest Hrest].
    exists (rest ++ ":" ++ json_escaped v)%string.
    unfold entry_text. cbn [fst snd]. by rewrite Hrest.
Qed.

Lemma Tree_Serialize_from_entries (t : Tree) (keys : list string)
    (kvs : list (string * string)) :
  keys ≡ₚ range_keys t -> kvs ≡ₚ map_to_list (Entries t) -> Sorted key_lt kvs ->
  Tree_Serialize_from keys t = (bytes_of_string (canonical_text kvs), None).
Proof.
  intros Hkeys Hkvs Hsorted. rewrite Tree_Serialize_from_sorted.
  rewrite (Strings_unique keys kvs.*1).
  - rewrite entry_text_of_entries; [done|].
    intros [k v] Hin. simpl. apply elem_of_map_to_list. by rewrite <- Hkvs.
  - by apply Sorted_key_lt_le.
  - unfold range_keys in Hkeys. by rewrite Hkeys, Hkvs.
Qed.

Lemma valid_tree_entries (t : Tree) (kvs : list (string * string)) :
  valid_tree t = true -> kvs ≡ₚ map_to_list (Entries t) -> Forall valid_entry kvs.
Proof.
  intros Ht Hp. rewrite Hp. unfold valid_tree in Ht.
  apply Forall_forall. intros kv Hin.
  rewrite forallb_forall in Ht. apply list_elem_of_In in Hin.
  specialize (Ht kv Hin). apply andb_true_iff in Ht. exact Ht.
Qed.

Lemma Tree_Serialize_inj (t1 t2 : Tree) :
  valid_tree t1 = true -> valid_tree t2 = true ->
  (Tree_Serialize t1).1 = (Tree_Serialize t2).1 -> t1 = t2.
Proof.
  intros Ha1 Ha2 Heq. unfold Tree_Serialize in Heq.
  destruct (sorted_entries_exist t1) as (kvs1 & Hp1 & Hs1).
  destruct (sorted_entries_exist t2) as (kvs2 & Hp2 & Hs2).
  rewrite (Tree_Serialize_from_entries t1 _ kvs1),
          (Tree_Serialize_from_entries t2 _ kvs2) in Heq by done.
  cbn [fst] in Heq. apply bytes_of_string_inj in Heq.
  apply canonical_text_inj in Heq;
    [|exact (valid_tree_entries t1 kvs1 Ha1 Hp1)|exact (valid_tree_entries t2 kvs2 Ha2 Hp2)].
  subst kvs2.
  assert (Entries t1 = Entries t2) as HE.
  { apply map_to_list_inj. by rewrite <- Hp1, <- Hp2. }
  destruct t1, t2. simpl in HE. by subst.
Qed.

(** X1. Tree.Serialize tells trees apart: two trees whose names and
    hashes are valid UTF-8 and whose serializations are the same bytes have
    the same entries, in whatever order the two maps were ranged over. *)
Theorem Tree_Serialize_injective (t1 t2 : Tree) (keys1 keys2 : list string) :
  valid_tree t1 = true -> valid_tree t2 = true ->
  keys1 ≡ₚ range_keys t1 -> keys2 ≡ₚ range_keys t2 ->
  (Tree_Serialize_from keys1 t1).1 = (Tree_Serialize_from keys2 t2).1 ->
  t1 = t2.
Proof.
  intros Ha1 Ha2 Hk1 Hk2 Heq.
  rewrite (Tree_Serialize_from_order_irrelevant t1 _ _ Hk1),
          (Tree_Serialize_from_order_irrelevant t2 _ _ Hk2) in Heq.
  by apply Tree_Serialize_inj.
Qed.

Lemma Tree_Serialize_injective_witness :
  insert_all example_entries = insert_all (rev example_entries).
Proof.
  apply (Tree_Serialize_injective _ _ (example_entries.*1) (rev example_entries.*1)).
  - vm_compute. reflexivity.
  - vm_compute. reflexivity.
  - by_evaluation.
  - by_evaluation.
  - vm_compute. reflexivity.
Defined.

Lemma appendString_loop_invalid_lead (c : ascii) (rest : string) :
  invalid_lead c = true ->
  json.appendString_loop 0 true (String c rest)
  = String "\" ("ufffd" ++ json.appendString_loop 0 true rest).
Proof.
  intros Hc.
  destruct c as [b0 b1 b2 b3 b4 b5 b6 b7].
  destruct b0, b1, b2, b3, b4, b5, b6, b7; try discriminate Hc;
    cbn [json.appendString_loop]; reflexivity.
Qed.

Lemma Tree_Serialize_singleton (k v : string) :
  Tree_Serialize (mkTree {[ k := v ]})
  = (bytes_of_string (canonical_text [(k, v)]), None).
Proof.
  unfold Tree_Serialize.
  apply Tree_Serialize_from_entries.
  - reflexivity.
  - cbn [Entries]. by rewrite map_to_list_singleton.
  - repeat constructor.
Qed.

Lemma utf8_ValidString_invalid_lead (c : ascii) (rest : string) :
  invalid_lead c = true -> utf8_ValidString (String c rest) = false.
Proof.
  intros Hc.
  destruct c as [b0 b1 b2 b3 b4 b5 b6 b7].
  destruct b0, b1, b2, b3, b4, b5, b6, b7; try discriminate Hc; reflexivity.
Qed.

Lemma valid_tree_invalid_lead (c : ascii) (name hash : string) :
  invalid_lead c = true -> valid_tree (mkTree {[ String c name := hash ]}) = false.
Proof.
  intros Hc. unfold valid_tree. cbn [Entries]. rewrite map_to_list_singleton.
  cbn [forallb fst snd]. by rewrite (utf8_ValidString_invalid_lead c name Hc).
Qed.

(** X2. Outside valid UTF-8 Tree.Serialize does not tell trees apart:
    two one-entry trees whose names differ only in a first byte that cannot
    start a UTF-8 sequence serialize to the same bytes, so WriteObject
    stores both under one hash, although the trees differ. *)
Theorem Tree_Serialize_collision {S : Type} `{Storage S} (store : ObjectStore S)
    (c1 c2 : ascii) (name hash : string) :
  invalid_lead c1 = true -> invalid_lead c2 = true ->
  let t1 := mkTree {[ String c1 name := hash ]} in
  let t2 := mkTree {[ String c2 name := hash ]} in
  valid_tree t1 = false /\ valid_tree t2 = false
  /\ Serialize t1 = Serialize t2
  /\ WriteObject store t1 = WriteObject store t2
  /\ (c1 <> c2 -> t1 <> t2).
Proof.
  intros H1 H2 t1 t2.
  split; [by apply valid_tree_invalid_lead|]. split; [by apply valid_tree_invalid_lead|].
  assert (Serialize t1 = Serialize t2) as Hser.
  { change (Tree_Serialize t1 = Tree_Serialize t2). subst t1 t2.
    rewrite !Tree_Serialize_singleton. do 2 f_equal.
    unfold canonical_text, entry_text. cbn [map fst snd String.concat].
    do 2 f_equal. rewrite !json_escaped_unfold.
    by rewrite !appendString_loop_invalid_lead. }
  split; [exact Hser|]. split.
  - unfold WriteObject. by rewrite Hser.
  - intros Hne Heq. apply Hne. subst t1 t2.
    pose proof (f_equal (fun t => Entries t !! String c2 name) Heq) as Hl.
    cbn [Entries] in Hl. rewrite lookup_singleton_eq in Hl.
    apply lookup_singleton_Some in Hl as [Hk _].
    by apply string_cons_inv in Hk as [-> _].
Qed.

Lemma Tree_Serialize_collision_witness :
  Serialize (mkTree {[ String "255" "x" := "h" ]})
  = Serialize (mkTree {[ String "254" "x" := "h" ]})
  /\ mkTree {[ String "255" "x" := "h" ]} <> mkTree {[ String "254" "x" := "h" ]}.
Proof.
  destruct (Tree_Serialize_collision (NewObjectStore NewMockStorage) "255" "254" "x" "h"
              eq_refl eq_refl) as (_ & _ & Hser & _ & Hne).
  split; [exact Hser|]. apply Hne. intros E. discriminate E.
Defined.

Lemma mockObject_Serialize_text (m : mockObject) :
  Serialize m
  = (bytes_of_string
       (dq "{'id':" ++ json_escaped (ID m) ++ dq ",'data':" ++ json_escaped (Data m) ++ "}"),
     None).
Proof.
  cbn [Serialize mockObject_Object json.Marshal json.encode map fst snd json.join_encoded].
  unfold json_escaped.
  rewrite !bytes_of_string_app, !bytes_of_string_of_bytes.
  rewrite <- !app_assoc. reflexivity.
Qed.

(** X3. The test object's JSON serialization determines the object:
    two mock objects with fields of valid UTF-8 and equal serializations are
    equal. *)
Theorem mockObject_Serialize_injective (m1 m2 : mockObject) :
  valid_object m1 = true -> valid_object m2 = true ->
  (Serialize m1).1 = (Serialize m2).1 -> m1 = m2.
Proof.
  intros [H1i H1d]%andb_true_iff [H2i H2d]%andb_true_iff Heq.
  rewrite !mockObject_Serialize_text in Heq. cbn [fst] in Heq.
  apply bytes_of_string_inj in Heq.
  apply String.app_inj in Heq.
  apply json_escaped_prefix_inj in Heq as [Hid Heq]; [|done..].
  apply String.app_inj in Heq.
  apply json_escaped_prefix_inj in Heq as [Hdata _]; [|done..].
  destruct m1, m2. simpl in *. by subst.
Qed.

Lemma mockObject_Serialize_injective_witness :
  example_object = mkMockObject "test_id" "hello world".
Proof.
  apply mockObject_Serialize_injective; reflexivity.
Defined.

Lemma string_app_inv_tail (a b c : string) : (a ++ c = b ++ c)%string -> a = b.
Proof.
  intros Heq. apply (f_equal list_ascii_of_string) in Heq.
  rewrite !list_ascii_of_string_app in Heq.
  apply app_inv_tail in Heq.
  rewrite <- (string_of_list_ascii_of_string a), Heq.
  apply string_of_list_ascii_of_string.
Qed.

Lemma json_string_array_prefix_inj (l1 l2 : list string) (r1 r2 : string) :
  forallb utf8_ValidString l1 = true -> forallb utf8_ValidString l2 = true ->
  (json_string_array l1 ++ r1 = json_string_array l2 ++ r2)%string ->
  l1 = l2 /\ r1 = r2.
Proof.
  intros H1 H2 Heq. unfold json_string_array in Heq.
  rewrite !string_app_assoc in Heq.
  change ("[" ++ ?x)%string with (String "[" x) in Heq.
  apply string_cons_inv in Heq as [_ Heq].
  change ("]" ++ ?x)%string with (String "]" x) in Heq.
  apply (joined_inj json_escaped (fun s => utf8_ValidString s = true) "]") in Heq; try done.
  - apply json_escaped_prefix_inj.
  - intros a _. apply json_escaped_quoted.
  - apply Forall_forall. intros x Hx%list_elem_of_In.
    rewrite forallb_forall in H1. by apply H1.
  - apply Forall_forall. intros x Hx%list_elem_of_In.
    rewrite forallb_forall in H2. by apply H2.
Qed.

Lemma commit_text_inj (c1 c2 : Commit) (ts1 ts2 : string) :
  valid_commit c1 = true -> valid_commit c2 = true ->
  commit_text (json_escaped (TreeHash c1))
              (match ParentHashes c1 with
               | None => "null"
               | Some parents => json_string_array parents
               end)
              (json_escaped (Message c1)) (quote ++ ts1 ++ quote)
  = commit_text (json_escaped (TreeHash c2))
                (match ParentHashes c2 with
                 | None => "null"
                 | Some parents => json_string_array parents
                 end)
                (json_escaped (Message c2)) (quote ++ ts2 ++ quote) ->
  TreeHash c1 = TreeHash c2 /\ ParentHashes c1 = ParentHashes c2
  /\ Message c1 = Message c2 /\ ts1 = ts2.
Proof.
  intros Ha1 Ha2 Heq.
  unfold valid_commit, valid_slice in Ha1, Ha2.
  apply andb_true_iff in Ha1 as [[H1t H1m]%andb_true_iff H1p].
  apply andb_true_iff in Ha2 as [[H2t H2m]%andb_true_iff H2p].
  unfold commit_text in Heq.
  rewrite !string_app_assoc in Heq.
  apply String.app_inj in Heq.
  apply json_escaped_prefix_inj in Heq as [Htree Heq]; [|done..].
  apply String.app_inj in Heq.
  assert (ParentHashes c1 = ParentHashes c2
          /\ (json_escaped (Message c1) ++ dq ",'timestamp':" ++
              quote ++ ts1 ++ quote ++ "}"
              = json_escaped (Message c2) ++ dq ",'timestamp':" ++
              quote ++ ts2 ++ quote ++ "}")%string)
    as [Hparents Hrest].
  { destruct (ParentHashes c1) as [ps1|], (ParentHashes c2) as [ps2|].
    - apply json_string_array_prefix_inj in Heq as [-> Heq]; [|done..].
      split; [done|]. by apply String.app_inj in Heq.
    - exfalso. unfold json_string_array in Heq. rewrite !string_app_assoc in Heq.
      change ("[" ++ ?x)%string with (String "[" x) in Heq.
      change ("null" ++ ?x)%string with (String "n" ("ull" ++ x)) in Heq.
      by apply string_cons_inv in Heq as [? _].
    - exfalso. unfold json_string_array in Heq. rewrite !string_app_assoc in Heq.
      change ("[" ++ ?x)%string with (String "[" x) in Heq.
      change ("null" ++ ?x)%string with (String "n" ("ull" ++ x)) in Heq.
      by apply string_cons_inv in Heq as [? _].
    - split; [done|]. apply String.app_inj in Heq. by apply String.app_inj in Heq. }
  apply json_escaped_prefix_inj in Hrest as [Hmsg Hrest]; [|done..].
  apply String.app_inj in Hrest. apply String.app_inj in Hrest.
  apply string_app_inv_tail in Hrest.
  done.
Qed.

(** X4. Commit.Serialize determines the commit's fields: two commits
    with fields of valid UTF-8 and encodable timestamps that serialize to
    the same bytes have the same tree hash, the same parents (a nil list and
    an empty list told apart), the same message and the same timestamp
    text. *)
Theorem Commit_Serialize_injective (c1 c2 : Commit) :
  time.strict_error (Timestamp c1) = None -> time.strict_error (Timestamp c2) = None ->
  valid_commit c1 = true -> valid_commit c2 = true ->
  (Commit_Serialize c1).1 = (Commit_Serialize c2).1 ->
  TreeHash c1 = TreeHash c2 /\ ParentHashes c1 = ParentHashes c2
  /\ Message c1 = Message c2
  /\ time.appendFormatRFC3339 (Timestamp c1) = time.appendFormatRFC3339 (Timestamp c2).
Proof.
  intros Ht1 Ht2 Ha1 Ha2 Heq.
  rewrite !Commit_Serialize_encodable in Heq by done. cbn [fst] in Heq.
  apply bytes_of_string_inj in Heq.
  by apply commit_text_inj in Heq.
Qed.

Lemma Commit_Serialize_injective_witness :
  ParentHashes example_commit
  = ParentHashes (mkCommit "t" (Some ["p1"; "p2"]) "m" (time.mkTime 1700000000 120000000 0)).
Proof.
  apply (Commit_Serialize_injective example_commit
           (mkCommit "t" (Some ["p1"; "p2"]) "m" (time.mkTime 1700000000 120000000 0)));
    reflexivity.
Defined.

(* ------------------------------------------------------------------ *)
(** ** The mock backend *)

Lemma string_of_bytes_inj (a b : bytes) : string_of_bytes a = string_of_bytes b -> a = b.
Proof.
  intros E. rewrite <- (bytes_of_string_of_bytes a), E. apply bytes_of_string_of_bytes.
Qed.

Lemma mockStorage_Put_data (s : mockStorage) (key value : bytes) :
  Put s key value = (None, mkMockStorage (<[string_of_bytes key := value]> (data s))).
Proof. reflexivity. Qed.

Lemma mockStorage_Get_lookup (s : mockStorage) (key : bytes) :
  Get s key = (match data s !! string_of_bytes key with
               | Some value => (value, None)
               | None => ([], Some ErrNotFound)
               end, s).
Proof. cbn. by destruct (data s !! string_of_bytes key). Qed.

(** X5. The in-memory backend meets the Storage contract: Put never
    fails, a key that was put is then found by Get (with the value put) and
    by Exists, other keys are untouched, Get and Exists leave the backend as
    it is, and Exists reports a key exactly when Get finds it, an absent key
    giving ErrNotFound. *)
Theorem mockStorage_contract (s : mockStorage) (key key' value : bytes) :
  let s' := (Put s key value).2 in
  (Put s key value).1 = None
  /\ Get s' key = ((value, None), s')
  /\ Exists s' key = ((true, None), s')
  /\ (key' <> key ->
      (Get s' key').1 = (Get s key').1 /\ (Exists s' key').1 = (Exists s key').1)
  /\ (Get s key').2 = s /\ (Exists s key').2 = s
  /\ ((Exists s key').1 = (true, None) <-> (Get s key').1.2 = None)
  /\ ((Exists s key').1 = (false, None) <-> (Get s key').1 = ([], Some ErrNotFound)).
Proof.
  intros s'. subst s'. rewrite mockStorage_Put_data. cbn [fst snd].
  split; [done|].
  split; [by rewrite mockStorage_Get_lookup; cbn [data]; rewrite lookup_insert_eq|].
  split.
  { cbn. f_equal. f_equal. apply bool_decide_eq_true. rewrite lookup_insert_eq. by eexists. }
  split.
  { intros Hne.
    assert (string_of_bytes key <> string_of_bytes key') as Hk.
    { intros E. apply Hne. symmetry. by apply string_of_bytes_inj. }
    rewrite !mockStorage_Get_lookup. cbn. rewrite !lookup_insert_ne by done. done. }
  split; [by rewrite mockStorage_Get_lookup|]. split; [done|].
  rewrite mockStorage_Get_lookup. cbn.
  destruct (data s !! string_of_bytes key') as [v|] eqn:Hl; cbn.
  - split; split; intros ?; try done; try discriminate.
  - split; split; intros ?; try done; try discriminate.
Qed.

Lemma mockStorage_contract_witness :
  Get (Put NewMockStorage (bytes_of_string "hello") (bytes_of_string "world")).2
      (bytes_of_string "non-existent")
  = (([], Some ErrNotFound),
     (Put NewMockStorage (bytes_of_string "hello") (bytes_of_string "world")).2).
Proof.
  destruct (mockStorage_contract NewMockStorage (bytes_of_string "hello")
              (bytes_of_string "non-existent") (bytes_of_string "world"))
    as (_ & _ & _ & Hframe & _).
  destruct Hframe as [Hget _].
  - intros E. discriminate E.
  - apply injective_projections; [rewrite Hget; reflexivity|reflexivity].
Defined.

(* ------------------------------------------------------------------ *)
(** ** The object store over the mock backend *)

Lemma mock_WriteObject {A : Type} `{Object A} (s : ObjectStore mockStorage) (obj : A) (d : bytes) :
  Serialize obj = (d, None) ->
  WriteObject s obj
  = ((hex.EncodeToString (sha256.Sum256 d), None),
     mkObjectStore (mkMockStorage
       (<[string_of_bytes (sha256.Sum256 d) := d]> (data (storage s))))).
Proof. intros Hd. by rewrite (WriteObject_serialized s obj d Hd). Qed.

Lemma mock_ReadRawObject (s : ObjectStore mockStorage) (hash : string) :
  ReadRawObject s hash
  = (match hex.DecodeString hash with
     | (_, Some e) => ([], Some (wrapError "failed to decode hash: " e))
     | (key, None) =>
         match data (storage s) !! string_of_bytes key with
         | Some value => (value, None)
         | None => ([], Some (wrapError "failed to read object: " ErrNotFound))
         end
     end, s).
Proof.
  unfold ReadRawObject. destruct (hex.DecodeString hash) as [key [e|]]; [done|].
  rewrite mockStorage_Get_lookup.
  destruct s as [st]. cbn [storage].
  by destruct (data st !! string_of_bytes key).
Qed.

(** X6. Content addressing: the hash WriteObject returns depends only
    on the serialized bytes, not on the object's type, the store or its
    backend; and writing the same content again into an in-memory store
    returns the same hash and leaves the store as it was. *)
Theorem WriteObject_content_addressed {S1 S2 : Type} `{Storage S1} `{Storage S2}
    {A B : Type} `{Object A} `{Object B}
    (s1 : ObjectStore S1) (s2 : ObjectStore S2) (a : A) (b : B) (d : bytes) (h1 h2 : string)
    (m : ObjectStore mockStorage) :
  Serialize a = (d, None) -> Serialize b = (d, None) ->
  (WriteObject s1 a).1 = (h1, None) -> (WriteObject s2 b).1 = (h2, None) ->
  h1 = h2
  /\ h1 = hex.EncodeToString (sha256.Sum256 d)
  /\ WriteObject (WriteObject m a).2 b = ((h1, None), (WriteObject m a).2).
Proof.
  intros Ha Hb Hw1 Hw2.
  rewrite (WriteObject_serialized s1 a d Ha) in Hw1.
  rewrite (WriteObject_serialized s2 b d Hb) in Hw2.
  cbn [fst] in Hw1, Hw2.
  destruct (Put (storage s1) _ _).1; [discriminate|].
  destruct (Put (storage s2) _ _).1; [discriminate|].
  pose proof (f_equal fst Hw1) as E1. pose proof (f_equal fst Hw2) as E2.
  cbn [fst] in E1, E2. subst h1 h2.
  split; [done|]. split; [done|].
  rewrite (mock_WriteObject m a d Ha). cbn [snd].
  rewrite (mock_WriteObject _ b d Hb).
  cbn [storage data]. by rewrite insert_insert_eq.
Qed.

Lemma WriteObject_content_addressed_witness :
  WriteObject example_store example_object = ((example_hash, None), example_store).
Proof.
  destruct (WriteObject_content_addressed
              (NewObjectStore NewMockStorage) (NewObjectStore (mkBoundedStorage NewMockStorage 1))
              example_object example_object
              (bytes_of_string (dq "{'id':'test_id','data':'hello world'}"))
              example_hash example_hash (NewObjectStore NewMockStorage))
    as (_ & _ & Hidem).
  - vm_compute. reflexivity.
  - vm_compute. reflexivity.
  - vm_compute. reflexivity.
  - vm_compute. reflexivity.
  - exact Hidem.
Defined.

(** X7. Writing an object into an in-memory store makes it readable
    under its hash and changes what no other hash reads. *)
Theorem WriteObject_keeps_objects {A : Type} `{Object A}
    (s : ObjectStore mockStorage) (obj : A) (d : bytes) (hash : string) :
  Serialize obj = (d, None) ->
  let s' := (WriteObject s obj).2 in
  (hex.DecodeString hash = (sha256.Sum256 d, None) ->
     (ReadRawObject s' hash).1 = (d, None))
  /\ (hex.DecodeString hash <> (sha256.Sum256 d, None) ->
      (ReadRawObject s' hash).1 = (ReadRawObject s hash).1).
Proof.
  intros Hd s'. subst s'. rewrite (mock_WriteObject s obj d Hd). cbn [snd].
  rewrite !mock_ReadRawObject. cbn [fst storage data].
  split.
  - intros ->. by rewrite lookup_insert_eq.
  - intros Hne. destruct (hex.DecodeString hash) as [key [e|]]; [done|].
    rewrite lookup_insert_ne; [done|].
    intros E. apply Hne. f_equal. symmetry. by apply string_of_bytes_inj.
Qed.

Lemma WriteObject_keeps_objects_witness :
  (ReadRawObject (WriteObject example_store (mkMockObject "A" "Object A")).2 example_hash).1
  = (ReadRawObject example_store example_hash).1.
Proof.
  apply (WriteObject_keeps_objects example_store (mkMockObject "A" "Object A")
           (bytes_of_string (dq "{'id':'A','data':'Object A'}")) example_hash).
  - vm_compute. reflexivity.
  - vm_compute. intros E. discriminate E.
Defined.

(* ------------------------------------------------------------------ *)
(** ** Reading with hashes in either case *)

Lemma fromHexChar_lower_hex (c : ascii) :
  hex.fromHexChar (lower_hex c) = hex.fromHexChar c
  /\ (hex.fromHexChar c = None -> lower_hex c = c).
Proof. destruct c as [[] [] [] [] [] [] [] []]; vm_compute; split; congruence. Qed.

Lemma Decode_unfold (p q : ascii) (rest : string) :
  hex.Decode (String p (String q rest))
  = match hex.fromHexChar p with
    | None => ([], Some (hex_InvalidByteError (byte_of_ascii p)))
    | Some a =>
        match hex.fromHexChar q with
        | None => ([], Some (hex_InvalidByteError (byte_of_ascii q)))
        | Some b =>
            let '(dst, err) := hex.Decode rest in
            (byte_of_Z (Z.lor (Z.shiftl a 4) b) :: dst, err)
        end
    end.
Proof. reflexivity. Qed.

Lemma Decode_fold_case (s : string) : hex.Decode (fold_case s) = hex.Decode s.
Proof.
  cut (hex.Decode (fold_case s) = hex.Decode s
       /\ forall c, hex.Decode (fold_case (String c s)) = hex.Decode (String c s)).
  { intros [Hs _]. exact Hs. }
  induction s as [|q s [IH0 IH1]].
  - split; [done|]. intros c. cbn [fold_case hex.Decode].
    destruct (fromHexChar_lower_hex c) as [-> Hnone].
    destruct (hex.fromHexChar c); [done|]. by rewrite Hnone.
  - split; [apply IH1|]. intros p. cbn [fold_case].
    rewrite !Decode_unfold.
    destruct (fromHexChar_lower_hex p) as [-> Hp], (fromHexChar_lower_hex q) as [-> Hq].
    destruct (hex.fromHexChar p); [|by rewrite Hp].
    destruct (hex.fromHexChar q); [|by rewrite Hq].
    by rewrite IH0.
Qed.

(** X8. ReadRawObject takes a hash in either case: two hash strings
    that differ only in the case of the hexadecimal letters read the same
    object, with the same result and the same backend afterwards. *)
Theorem ReadRawObject_case_insensitive {S : Type} `{Storage S}
    (s : ObjectStore S) (hash1 hash2 : string) :
  fold_case hash1 = fold_case hash2 ->
  ReadRawObject s hash1 = ReadRawObject s hash2.
Proof.
  intros Hfold. unfold ReadRawObject, hex.DecodeString.
  by rewrite <- (Decode_fold_case hash1), Hfold, Decode_fold_case.
Qed.

Lemma ReadRawObject_case_insensitive_witness :
  ReadRawObject example_store
    "4044C8DDDED3ABD86EB71EB873176F51E3165B7D1719DAD17F848C24777997EB"
  = ReadRawObject example_store example_hash.
Proof. apply ReadRawObject_case_insensitive. reflexivity. Defined.

(* ------------------------------------------------------------------ *)
(** ** The calls an operation makes to the backend *)

Section calls.
Context {S : Type} `{Storage S}.

Lemma WriteObject_calls {A : Type} `{Object A} (r : ObjectStore (recording S)) (obj : A) :
  calls (storage (WriteObject r obj).2) = calls (storage r) ++ put_of (Serialize obj).
Proof.
  unfold WriteObject. destruct (Serialize obj) as [d [e|]]; cbn [put_of].
  - by rewrite app_nil_r.
  - cbn [Put recording_Storage].
    by destruct (Put (backend (storage r)) (sha256.Sum256 d) d) as [[e|] b].
Qed.

(** X9. The calls each operation makes to the backend, and their order:
    ReadRawObject makes one Get (none when the hash does not decode), Add
    and CreateCommit one Put of the serialized bytes under their digest
    (none when serialization fails), Workspace.Commit the Put of the tree
    and then, if that write succeeded, the Put of the commit; none of them
    calls Exists. *)
Theorem backend_calls {A : Type} `{Object A} (w : Workspace (recording S))
    (name hash : string) (obj : A) (treeHash message : string)
    (parentHashes : slice string) (now : time.Time) :
  let before := calls (storage (store w)) in
  calls (storage (ReadRawObject (store w) hash).2)
  = before ++ match hex.DecodeString hash with
              | (key, None) => [CallGet key]
              | (_, Some _) => []
              end
  /\ calls (storage (store (Workspace_Add w name obj).2))
     = before ++ put_of (Serialize obj)
  /\ (fun st => calls (storage st))
       <$> (CreateCommit (Some (store w)) treeHash message parentHashes now).2
     = Some (before ++ put_of (Commit_Serialize
                                 (mkCommit treeHash parentHashes message (time.UTC now))))
  /\ calls (storage (store (Workspace_Commit w message parentHashes now).2))
     = before ++ put_of (Tree_Serialize (tree w))
       ++ match (WriteObject (store w) (tree w)).1 with
          | (th, None) =>
              put_of (Commit_Serialize (mkCommit th parentHashes message (time.UTC now)))
          | (_, Some _) => []
          end.
Proof.
  intros before. subst before.
  split; [|split; [|split]].
  - unfold ReadRawObject. destruct (hex.DecodeString hash) as [key [e|]].
    + by rewrite app_nil_r.
    + cbn [Get recording_Storage].
      by destruct (Get (backend (storage (store w))) key) as [[v [e|]] b].
  - rewrite Workspace_Add_cases, <- WriteObject_calls.
    by destruct (WriteObject (store w) obj) as [[h [e|]] st].
  - change (Commit_Serialize ?c) with (Serialize c).
    rewrite <- (WriteObject_calls (store w)
                 (mkCommit treeHash parentHashes message (time.UTC now))).
    unfold CreateCommit.
    by destruct (WriteObject (store w) _) as [[h [e|]] st'].
  - unfold Workspace_Commit.
    change (Commit_Serialize ?c) with (Serialize c).
    change (Tree_Serialize ?t) with (Serialize t).
    pose proof (WriteObject_calls (store w) (tree w)) as Ht.
    destruct (WriteObject (store w) (tree w)) as [[th [e|]] st]; cbn [fst snd store] in *.
    + by rewrite Ht, app_nil_r.
    + unfold CreateCommit.
      pose proof (WriteObject_calls st (mkCommit th parentHashes message (time.UTC now))) as Hc.
      destruct (WriteObject st _) as [[h [e|]] st']; cbn [fst snd store default] in *.
      all: change (id st') with st'; by rewrite Hc, Ht, app_assoc.
Qed.

End calls.

(* ------------------------------------------------------------------ *)
(** ** A new workspace, and Add *)

Lemma empty_tree_hash_eq :
  hex.EncodeToString (sha256.Sum256 (bytes_of_string "{}")) = empty_tree_hash.
Proof. vm_compute. reflexivity. Qed.

(** X10. NewWorkspace refuses a nil store and otherwise starts from
    an empty staging tree: the first commit of a fresh workspace always
    names the hash of the empty tree's serialization, the two bytes of an
    empty JSON object. *)
Theorem NewWorkspace_starts_empty {S : Type} `{Storage S} (st : ObjectStore S)
    (message : string) (parentHashes : slice string) (now : time.Time) (commitHash : string) :
  NewWorkspace (S := S) None = (None, Some (errorString "object store cannot be nil"))
  /\ NewWorkspace (Some st) = (Some (mkWorkspace st NewTree), None)
  /\ ((Workspace_Commit (mkWorkspace st NewTree) message parentHashes now).1
      = (commitHash, None) ->
      exists d,
        Commit_Serialize (mkCommit empty_tree_hash parentHashes message (time.UTC now))
        = (d, None)
        /\ commitHash = hex.EncodeToString (sha256.Sum256 d)).
Proof.
  split; [reflexivity|]. split; [reflexivity|].
  intros Hc.
  apply Workspace_Commit_success in Hc as (treeHash & st' & d & Htw & Hd & ->).
  cbn [store tree] in Htw.
  assert (Serialize NewTree = (bytes_of_string "{}", None)) as Hempty by reflexivity.
  rewrite (WriteObject_serialized st NewTree _ Hempty) in Htw.
  rewrite empty_tree_hash_eq in Htw.
  apply (f_equal (fun r => r.1)) in Htw. cbn [fst] in Htw.
  destruct (Put (storage st) _ _).1 as [e|].
  - apply (f_equal snd) in Htw. cbn [snd] in Htw. congruence.
  - apply (f_equal fst) in Htw. cbn [fst] in Htw. subst treeHash.
    exists d. split; [exact Hd|reflexivity].
Qed.

Lemma NewWorkspace_starts_empty_witness :
  exists d,
    Commit_Serialize (mkCommit empty_tree_hash (Some []) "first" (time.UTC example_now))
    = (d, None)
    /\ (Workspace_Commit fresh_workspace "first" (Some []) example_now).1.1
       = hex.EncodeToString (sha256.Sum256 d).
Proof.
  destruct (NewWorkspace_starts_empty (NewObjectStore NewMockStorage) "first" (Some [])
              example_now
              (Workspace_Commit fresh_workspace "first" (Some []) example_now).1.1)
    as (_ & _ & Hcommit).
  destruct Hcommit as (d & Hd & Hh).
  - vm_compute. reflexivity.
  - exists d. split; [exact Hd|exact Hh].
Defined.

Section add.
Context {S : Type} `{Storage S}.

Lemma Workspace_Add_success {A : Type} `{Object A} (w : Workspace S) (name : string) (obj : A) :
  (Workspace_Add w name obj).1 = None ->
  exists d, Serialize obj = (d, None)
    /\ tree (Workspace_Add w name obj).2
       = Tree_set (tree w) name (hex.EncodeToString (sha256.Sum256 d)).
Proof.
  rewrite Workspace_Add_cases. unfold WriteObject.
  destruct (Serialize obj) as [d [e|]]; [intros Hf; discriminate Hf|].
  destruct (Put (storage (store w)) (sha256.Sum256 d) d) as [[e|] st];
    [intros Hf; discriminate Hf|].
  intros _. exists d. split; reflexivity.
Qed.

(** X11. Add records the object's content hash under the given name:
    after two successful Adds the staging tree is the old one with both
    names set, a second Add under the same name replaces the first, and Adds
    under different names can be swapped. *)
Theorem Workspace_Add_records_hash {A B : Type} `{Object A} `{Object B}
    (w : Workspace S) (name1 name2 : string) (obj1 : A) (obj2 : B) :
  let w1 := (Workspace_Add w name1 obj1).2 in
  let w2 := (Workspace_Add w1 name2 obj2).2 in
  (Workspace_Add w name1 obj1).1 = None ->
  (Workspace_Add w1 name2 obj2).1 = None ->
  exists d1 d2,
    Serialize obj1 = (d1, None) /\ Serialize obj2 = (d2, None)
    /\ let h1 := hex.EncodeToString (sha256.Sum256 d1) in
       let h2 := hex.EncodeToString (sha256.Sum256 d2) in
       Entries (tree w1) = <[name1 := h1]> (Entries (tree w))
       /\ Entries (tree w2) = <[name2 := h2]> (<[name1 := h1]> (Entries (tree w)))
       /\ (name1 = name2 -> Entries (tree w2) = <[name2 := h2]> (Entries (tree w)))
       /\ (name1 <> name2 ->
           Entries (tree w2) = <[name1 := h1]> (<[name2 := h2]> (Entries (tree w)))).
Proof.
  intros w1 w2 Hadd1 Hadd2.
  apply Workspace_Add_success in Hadd1 as (d1 & Hd1 & Ht1).
  apply Workspace_Add_success in Hadd2 as (d2 & Hd2 & Ht2).
  exists d1, d2. split; [exact Hd1|]. split; [exact Hd2|].
  intros h1 h2. subst w2. rewrite Ht2. subst w1. rewrite Ht1. cbn [Tree_set Entries].
  split; [reflexivity|]. split; [reflexivity|]. split.
  - intros ->. apply insert_insert_eq.
  - intros Hne. apply insert_insert_ne. intros E. apply Hne. symmetry. exact E.
Qed.

End add.

Lemma Workspace_Add_records_hash_witness :
  Entries (tree (Workspace_Add
                   (Workspace_Add fresh_workspace "object_a" (mkMockObject "A" "Object A")).2
                   "object_b" (mkMockObject "B" "Object B")).2)
  = <[ "object_a" := "93a9701e7ec1d5d2326fe3c64be41c10c33eecbccf8cd54ed356b43e96508a56" ]>
      (<[ "object_b" := "c34e85e9f66e4d142ddfa7558eadf545aa81db9dce7c46828b4cff86de77f516" ]> ∅).
Proof.
  destruct (Workspace_Add_records_hash fresh_workspace "object_a" "object_b"
              (mkMockObject "A" "Object A") (mkMockObject "B" "Object B"))
    as (d1 & d2 & Hd1 & Hd2 & _ & _ & _ & Hne).
  - vm_compute. reflexivity.
  - vm_compute. reflexivity.
  - rewrite Hne by (intros E; discriminate E).
    assert (d1 = bytes_of_string (dq "{'id':'A','data':'Object A'}")) as ->.
    { apply (f_equal fst) in Hd1. cbn [fst] in Hd1. rewrite <- Hd1. vm_compute. reflexivity. }
    assert (d2 = bytes_of_string (dq "{'id':'B','data':'Object B'}")) as ->.
    { apply (f_equal fst) in Hd2. cbn [fst] in Hd2. rewrite <- Hd2. vm_compute. reflexivity. }
    vm_compute. reflexivity.
Defined.

(* ------------------------------------------------------------------ *)
(** ** The workspace over the mock backend *)

Lemma readable_lookup (s : ObjectStore mockStorage) (hash : string) :
  readable s hash <->
  exists key, hex.DecodeString hash = (key, None)
    /\ is_Some (data (storage s) !! string_of_bytes key).
Proof.
  unfold readable. rewrite mock_ReadRawObject. cbn [fst].
  destruct (hex.DecodeString hash) as [key [e|]].
  - split; [intros [d Hd]; discriminate Hd|intros (k & Hk & _); discriminate Hk].
  - destruct (data (storage s) !! string_of_bytes key) as [v|] eqn:Hl.
    + split; [|by eexists]. intros _. exists key. split; [reflexivity|].
      exists v. exact Hl.
    + split; [intros [d Hd]; discriminate Hd|].
      intros (k & Hk & Hsome). exfalso.
      assert (k = key) as -> by congruence.
      destruct Hsome as [y Hy].
      pose proof (eq_trans (eq_sym Hl) Hy) as Hc. discriminate Hc.
Qed.

Lemma WriteObject_readable_mono {A : Type} `{Object A}
    (s : ObjectStore mockStorage) (obj : A) (hash : string) :
  readable s hash -> readable (WriteObject s obj).2 hash.
Proof.
  intros Hr. destruct (Serialize obj) as [d [e|]] eqn:Hd.
  - by rewrite (WriteObject_serialize_fails s obj d e Hd).
  - rewrite (mock_WriteObject s obj d Hd). cbn [snd].
    apply readable_lookup in Hr as (key & Hkey & Hsome).
    apply readable_lookup. exists key. split; [exact Hkey|].
    cbn [storage data]. rewrite lookup_insert.
    destruct (decide _); [by eexists|exact Hsome].
Qed.

Lemma WriteObject_readable_new {A : Type} `{Object A}
    (s : ObjectStore mockStorage) (obj : A) (d : bytes) :
  Serialize obj = (d, None) ->
  readable (WriteObject s obj).2 (hex.EncodeToString (sha256.Sum256 d)).
Proof.
  intros Hd. rewrite (mock_WriteObject s obj d Hd). cbn [snd].
  apply readable_lookup. exists (sha256.Sum256 d).
  split; [apply DecodeString_EncodeToString|].
  cbn [storage data]. rewrite lookup_insert_eq. by eexists.
Qed.

Lemma CreateCommit_readable_mono (s : ObjectStore mockStorage) (treeHash message : string)
    (parentHashes : slice string) (now : time.Time) (hash : string) :
  readable s hash ->
  readable (default s (CreateCommit (Some s) treeHash message parentHashes now).2) hash.
Proof.
  intros Hr. unfold CreateCommit.
  pose proof (WriteObject_readable_mono s
                (mkCommit treeHash parentHashes message (time.UTC now)) hash Hr) as Hm.
  destruct (WriteObject s _) as [[h [e|]] st]; exact Hm.
Qed.

(** X12. Over an in-memory backend every hash in the staging tree
    names an object that can be read from the store: it holds of a fresh
    workspace and is kept by Add and by Commit, whether they succeed or
    fail. *)
Theorem staged_objects_stay_stored {A : Type} `{Object A} (w : Workspace mockStorage)
    (name : string) (obj : A) (message : string) (parentHashes : slice string)
    (now : time.Time) :
  staged_objects_stored (mkWorkspace (store w) NewTree)
  /\ (staged_objects_stored w ->
      staged_objects_stored (Workspace_Add w name obj).2
      /\ staged_objects_stored (Workspace_Commit w message parentHashes now).2).
Proof.
  split.
  { intros n h Hl. cbn [tree NewTree Entries] in Hl. rewrite lookup_empty in Hl.
    discriminate Hl. }
  intros Hinv. split.
  - rewrite Workspace_Add_cases.
    destruct (WriteObject (store w) obj) as [[h [e|]] st] eqn:Hw; cbn [fst snd].
    + intros n h' Hl. cbn [tree store] in *.
      pose proof (WriteObject_readable_mono (store w) obj h' (Hinv n h' Hl)) as Hm.
      rewrite Hw in Hm. exact Hm.
    + intros n h' Hl. cbn [tree store Tree_set Entries] in *.
      rewrite lookup_insert in Hl. destruct (decide (name = n)) as [->|Hne].
      * injection Hl as <-.
        destruct (Serialize obj) as [d [e|]] eqn:Hd.
        { rewrite (WriteObject_serialize_fails _ _ _ _ Hd) in Hw. discriminate Hw. }
        pose proof (WriteObject_readable_new (store w) obj d Hd) as Hn.
        rewrite (mock_WriteObject _ _ _ Hd) in Hw, Hn. cbn [snd] in Hn.
        pose proof (f_equal (fun r => r.1.1) Hw) as Hh. cbn [fst] in Hh.
        pose proof (f_equal snd Hw) as Hs. cbn [snd] in Hs.
        rewrite <- Hh, <- Hs. exact Hn.
      * pose proof (WriteObject_readable_mono (store w) obj h' (Hinv n h' Hl)) as Hm.
        rewrite Hw in Hm. exact Hm.
  - intros n h Hl. rewrite Workspace_Commit_tree in Hl.
    pose proof (Hinv n h Hl) as Hr. fold (readable (store w) h) in Hr.
    fold (readable (store (Workspace_Commit w message parentHashes now).2) h).
    unfold Workspace_Commit.
    pose proof (WriteObject_readable_mono (store w) (tree w) h Hr) as Hm.
    destruct (WriteObject (store w) (tree w)) as [[th [e|]] st]; cbn [snd] in Hm.
    + exact Hm.
    + pose proof (CreateCommit_readable_mono st th message parentHashes now h Hm) as Hc.
      destruct (CreateCommit (Some st) th message parentHashes now) as [[ch [e|]] st'];
        exact Hc.
Qed.

Lemma staged_objects_stay_stored_witness :
  staged_objects_stored (Workspace_Add fresh_workspace "object_a" example_object).2
  /\ staged_objects_stored (Workspace_Commit fresh_workspace "first" (Some []) example_now).2.
Proof.
  destruct (staged_objects_stay_stored fresh_workspace "object_a" example_object
              "first" (Some []) example_now) as [Hfresh Hstep].
  apply Hstep. exact Hfresh.
Defined.

Lemma Commit_Serialize_ok (c : Commit) :
  time.strict_error (Timestamp c) = None ->
  Serialize c = ((Commit_Serialize c).1, None).
Proof.
  intros Hok. change (Serialize c) with (Commit_Serialize c).
  rewrite (Commit_Serialize_encodable c Hok). reflexivity.
Qed.

Lemma mock_Workspace_Commit (w : Workspace mockStorage) (message : string)
    (parentHashes : slice string) (now : time.Time) :
  time.strict_error (time.UTC now) = None ->
  let tree_bytes := (Tree_Serialize (tree w)).1 in
  let tree_hash := hex.EncodeToString (sha256.Sum256 tree_bytes) in
  let commit_bytes :=
    (Commit_Serialize (mkCommit tree_hash parentHashes message (time.UTC now))).1 in
  Workspace_Commit w message parentHashes now
  = ((hex.EncodeToString (sha256.Sum256 commit_bytes), None),
     mkWorkspace
       (mkObjectStore (mkMockStorage
          (<[string_of_bytes (sha256.Sum256 commit_bytes) := commit_bytes]>
             (<[string_of_bytes (sha256.Sum256 tree_bytes) := tree_bytes]>
                (data (storage (store w)))))))
       (tree w)).
Proof.
  intros Hok tree_bytes tree_hash commit_bytes.
  unfold Workspace_Commit.
  rewrite (mock_WriteObject (store w) (tree w) tree_bytes (Tree_Serialize_ok (tree w))).
  cbv beta iota. fold tree_hash. unfold CreateCommit.
  pose proof (Commit_Serialize_ok (mkCommit tree_hash parentHashes message (time.UTC now)) Hok)
    as Hc.
  fold commit_bytes in Hc.
  rewrite (mock_WriteObject _ _ commit_bytes Hc).
  reflexivity.
Qed.

(** X13. Over an in-memory backend a Commit whose time can be encoded
    succeeds, returns the hash of the commit's serialization, and the commit
    can be read back under that hash; the tree it names can be read back
    under the tree hash, unless the two digests collide. *)
Theorem Workspace_Commit_round_trip (w : Workspace mockStorage) (message : string)
    (parentHashes : slice string) (now : time.Time) :
  let tree_bytes := (Tree_Serialize (tree w)).1 in
  let tree_hash := hex.EncodeToString (sha256.Sum256 tree_bytes) in
  let commit := mkCommit tree_hash parentHashes message (time.UTC now) in
  let commit_bytes := (Commit_Serialize commit).1 in
  let commit_hash := hex.EncodeToString (sha256.Sum256 commit_bytes) in
  let r := Workspace_Commit w message parentHashes now in
  time.strict_error (time.UTC now) = None ->
  r.1 = (commit_hash, None)
  /\ (ReadRawObject (store r.2) commit_hash).1 = (commit_bytes, None)
  /\ (sha256.Sum256 tree_bytes <> sha256.Sum256 commit_bytes ->
      (ReadRawObject (store r.2) tree_hash).1 = (tree_bytes, None)).
Proof.
  intros tree_bytes tree_hash commit commit_bytes commit_hash r Hok. subst r.
  rewrite (mock_Workspace_Commit w message parentHashes now Hok).
  fold tree_bytes. fold tree_hash. fold commit. fold commit_bytes. fold commit_hash.
  cbn [fst snd store].
  split; [reflexivity|].
  rewrite !mock_ReadRawObject. cbn [fst storage data].
  subst commit_hash tree_hash. rewrite !DecodeString_EncodeToString.
  split.
  - rewrite lookup_insert_eq. reflexivity.
  - intros Hne. rewrite lookup_insert_ne, lookup_insert_eq; [reflexivity|].
    intros E. apply Hne. symmetry. apply string_of_bytes_inj. exact E.
Qed.

Lemma Workspace_Commit_round_trip_witness :
  let r := Workspace_Commit fresh_workspace "first" (Some []) example_now in
  (ReadRawObject (store r.2) r.1.1).1
  = (bytes_of_string
       (dq "{'tree':'" ++ empty_tree_hash
        ++ dq "','parents':[],'message':'first','timestamp':'2023-11-14T22:13:20Z'}"), None)
  /\ (ReadRawObject (store r.2) empty_tree_hash).1 = (bytes_of_string "{}", None).
Proof.
  intros r.
  destruct (Workspace_Commit_round_trip fresh_workspace "first" (Some []) example_now)
    as (Hres & Hcommit & Htree).
  - reflexivity.
  - split.
    + subst r. rewrite Hres. cbn [fst]. rewrite Hcommit. vm_compute. reflexivity.
    + assert (sha256.Sum256 (Tree_Serialize (tree fresh_workspace)).1
              <> sha256.Sum256
                   (Commit_Serialize
                      (mkCommit
                         (hex.EncodeToString
                            (sha256.Sum256 (Tree_Serialize (tree fresh_workspace)).1))
                         (Some []) "first" (time.UTC example_now))).1) as Hne.
      { vm_compute. intros E. discriminate E. }
      specialize (Htree Hne). vm_compute in Htree |- *. exact Htree.
Defined.

(** X14. Committing twice without staging anything in between names
    the same tree hash in both commits, and the second Commit adds to the
    backend the second commit object and nothing else. *)
Theorem Workspace_Commit_twice (w : Workspace mockStorage)
    (message1 message2 : string) (parents1 parents2 : slice string)
    (now1 now2 : time.Time) :
  let tree_bytes := (Tree_Serialize (tree w)).1 in
  let tree_hash := hex.EncodeToString (sha256.Sum256 tree_bytes) in
  let bytes1 := (Commit_Serialize (mkCommit tree_hash parents1 message1 (time.UTC now1))).1 in
  let bytes2 := (Commit_Serialize (mkCommit tree_hash parents2 message2 (time.UTC now2))).1 in
  let r1 := Workspace_Commit w message1 parents1 now1 in
  let r2 := Workspace_Commit r1.2 message2 parents2 now2 in
  time.strict_error (time.UTC now1) = None ->
  time.strict_error (time.UTC now2) = None ->
  sha256.Sum256 tree_bytes <> sha256.Sum256 bytes1 ->
  r1.1 = (hex.EncodeToString (sha256.Sum256 bytes1), None)
  /\ r2.1 = (hex.EncodeToString (sha256.Sum256 bytes2), None)
  /\ data (storage (store r2.2))
     = <[string_of_bytes (sha256.Sum256 bytes2) := bytes2]> (data (storage (store r1.2))).
Proof.
  intros tree_bytes tree_hash bytes1 bytes2 r1 r2 Hok1 Hok2 Hne. subst r2 r1.
  rewrite (mock_Workspace_Commit w message1 parents1 now1 Hok1).
  fold tree_bytes. fold tree_hash. fold bytes1. cbn [fst snd].
  rewrite (mock_Workspace_Commit _ message2 parents2 now2 Hok2).
  cbn [tree store storage data fst snd].
  fold tree_bytes. fold tree_hash. fold bytes2.
  split; [reflexivity|]. split; [reflexivity|].
  f_equal. apply insert_id.
  rewrite lookup_insert_ne, lookup_insert_eq; [reflexivity|].
  intros E. apply Hne. symmetry. apply string_of_bytes_inj. exact E.
Qed.

Lemma Workspace_Commit_twice_witness :
  let r1 := Workspace_Commit fresh_workspace "first" (Some []) example_now in
  let r2 := Workspace_Commit r1.2 "second" (Some [r1.1.1]) (time.mkTime 1700000001 0 0) in
  size (data (storage (store r1.2))) = 2%nat
  /\ size (data (storage (store r2.2))) = 3%nat.
Proof.
  intros r1 r2.
  destruct (Workspace_Commit_twice fresh_workspace "first" "second" (Some []) (Some [r1.1.1])
              example_now (time.mkTime 1700000001 0 0)) as (_ & _ & Hdata).
  - reflexivity.
  - reflexivity.
  - vm_compute. intros E. discriminate E.
  - split; [vm_compute; reflexivity|].
    subst r2 r1. rewrite Hdata. vm_compute. reflexivity.
Defined.

(* ------------------------------------------------------------------ *)
(** ** Staging and committing *)

Lemma add_all_tree {A : Type} `{Object A} (w : Workspace mockStorage)
    (items : list (string * A)) :
  Forall (fun item => (Serialize item.2).2 = None) items ->
  tree (add_all w items)
  = fold_left (fun t kv => Tree_set t kv.1 kv.2) (map staged_entry items) (tree w).
Proof.
  revert w. induction items as [|[name obj] items IH]; intros w Hok; [reflexivity|].
  apply Forall_cons in Hok as [Hobj Hok]. cbn [fst snd] in Hobj.
  unfold add_all. cbn [fold_left map fst snd].
  fold (add_all (Workspace_Add w name obj).2 items). rewrite (IH _ Hok).
  f_equal. rewrite Workspace_Add_cases.
  destruct (Serialize obj) as [d e] eqn:Hd. cbn [snd] in Hobj. subst e.
  rewrite (mock_WriteObject (store w) obj d Hd). cbn [fst snd tree].
  unfold staged_entry, object_hash. cbn [fst snd]. by rewrite Hd.
Qed.

Lemma Sorted_lt_NoDup (l : list string) : Sorted bytewise_lt l -> NoDup l.
Proof.
  intros Hs. apply Sorted_StronglySorted in Hs; [|intros x y z; apply bytewise_lt_trans].
  induction Hs as [|x l _ IH Hall]; constructor; [|done].
  intros Hin. rewrite Forall_forall in Hall.
  by apply (bytewise_lt_irrefl x), Hall.
Qed.

(** X15. What TestWorkspace_AddAndCommit checks, for any objects: after
    objects with distinct names are added to a fresh workspace over an
    in-memory backend, in any order, Commit succeeds and the tree read back
    through the commit is the canonical text of the names, in byte-wise
    order, each with the hash of its object's serialization. *)
Theorem staged_tree_committed {A : Type} `{Object A} (s : ObjectStore mockStorage)
    (items sorted : list (string * A)) (message : string) (parentHashes : slice string)
    (now : time.Time) :
  Forall (fun item => (Serialize item.2).2 = None) items ->
  sorted ≡ₚ items ->
  Sorted (fun a b => bytewise_lt a.1 b.1) sorted ->
  time.strict_error (time.UTC now) = None ->
  let w := add_all (mkWorkspace s NewTree) items in
  let tree_bytes := bytes_of_string (canonical_text (map staged_entry sorted)) in
  let tree_hash := hex.EncodeToString (sha256.Sum256 tree_bytes) in
  let commit_bytes :=
    (Commit_Serialize (mkCommit tree_hash parentHashes message (time.UTC now))).1 in
  let r := Workspace_Commit w message parentHashes now in
  r.1 = (hex.EncodeToString (sha256.Sum256 commit_bytes), None)
  /\ (ReadRawObject (store r.2) r.1.1).1 = (commit_bytes, None)
  /\ (sha256.Sum256 tree_bytes <> sha256.Sum256 commit_bytes ->
      (ReadRawObject (store r.2) tree_hash).1 = (tree_bytes, None)).
Proof.
  intros Hitems Hperm Hsorted Hok w tree_bytes tree_hash commit_bytes r.
  assert (Tree_Serialize (tree w) = (tree_bytes, None)) as Htree.
  { apply Tree_Serialize_from_entries; [done| |].
    - subst w. rewrite (add_all_tree _ items Hitems). cbn [tree].
      change (fold_left _ (map staged_entry items) NewTree)
        with (insert_all (map staged_entry items)).
      rewrite insert_all_list_to_map.
      assert (NoDup (map staged_entry sorted).*1) as Hnd.
      { apply Sorted_lt_NoDup. rewrite <- list_fmap_compose.
        by apply (Sorted_fmap (fst ∘ staged_entry) (fun a b => bytewise_lt a.1 b.1)). }
      rewrite map_to_list_to_map.
      + by rewrite <- Permutation_rev, Hperm.
      + by rewrite <- Permutation_rev, <- Hperm.
    - by apply (Sorted_fmap staged_entry (fun a b => bytewise_lt a.1 b.1)). }
  subst r. rewrite (mock_Workspace_Commit w message parentHashes now Hok).
  rewrite Htree. cbn [fst snd store]. fold tree_hash. fold commit_bytes.
  split; [reflexivity|].
  rewrite !mock_ReadRawObject. cbn [fst storage data].
  subst tree_hash. rewrite !DecodeString_EncodeToString.
  split.
  - rewrite lookup_insert_eq. reflexivity.
  - intros Hne. rewrite lookup_insert_ne, lookup_insert_eq; [reflexivity|].
    intros E. apply Hne. symmetry. apply string_of_bytes_inj. exact E.
Qed.

Lemma staged_tree_committed_witness :
  let w := add_all fresh_workspace test_items in
  let r := Workspace_Commit w "Add objects A and B" (Some []) example_now in
  (ReadRawObject (store r.2)
     "bc2824e3d0adbf609723a26fe2a4f896442e32c078e01b4346c8d28c5c5e135a").1
  = (bytes_of_string
       (dq ("{'object_a':'93a9701e7ec1d5d2326fe3c64be41c10c33eecbccf8cd54ed356b43e96508a56',"
            ++ "'object_b':'c34e85e9f66e4d142ddfa7558eadf545aa81db9dce7c46828b4cff86de77f516'}")),
     None).
Proof.
  intros w r.
  destruct (staged_tree_committed (NewObjectStore NewMockStorage) test_items test_items
              "Add objects A and B" (Some []) example_now) as (_ & _ & Htree).
  - repeat constructor.
  - reflexivity.
  - apply Sorted_cons; [apply Sorted_cons; [apply Sorted_nil|apply HdRel_nil]|apply HdRel_cons].
    apply bytewise_lt_compare. reflexivity.
  - reflexivity.
  - assert (sha256.Sum256
              (bytes_of_string (canonical_text (map staged_entry test_items)))
            <> sha256.Sum256
                 (Commit_Serialize
                    (mkCommit
                       (hex.EncodeToString
                          (sha256.Sum256
                             (bytes_of_string (canonical_text (map staged_entry test_items)))))
                       (Some []) "Add objects A and B" (time.UTC example_now))).1) as Hne.
    { vm_compute. intros E. discriminate E. }
    specialize (Htree Hne). vm_compute in Htree |- *. exact Htree.
Defined.

(* ------------------------------------------------------------------ *)
(** ** Integrity of the store *)

Lemma WriteObject_addressing_kept {A : Type} `{Object A}
    (s : ObjectStore mockStorage) (obj : A) :
  content_addressed s -> content_addressed (WriteObject s obj).2.
Proof.
  intros Hinv. destruct (Serialize obj) as [d [e|]] eqn:Hd.
  - by rewrite (WriteObject_serialize_fails s obj d e Hd).
  - rewrite (mock_WriteObject s obj d Hd). cbn [snd].
    intros key value. cbn [storage data]. rewrite lookup_insert.
    destruct (decide (string_of_bytes (sha256.Sum256 d) = key)) as [<-|Hne].
    + intros Hv. f_equal. f_equal. congruence.
    + apply Hinv.
Qed.

Lemma CreateCommit_addressing_kept (s : ObjectStore mockStorage)
    (treeHash message : string) (parentHashes : slice string) (now : time.Time) :
  content_addressed s ->
  content_addressed (default s (CreateCommit (Some s) treeHash message parentHashes now).2).
Proof.
  intros Hinv. unfold CreateCommit.
  pose proof (WriteObject_addressing_kept s
                (mkCommit treeHash parentHashes message (time.UTC now)) Hinv) as Hm.
  destruct (WriteObject s _) as [[h [e|]] st]; exact Hm.
Qed.

Lemma Decode_length (s : string) (key : bytes) :
  hex.Decode s = (key, None) -> String.length s = (2 * length key)%nat.
Proof.
  revert key.
  cut ((forall key, hex.Decode s = (key, None) -> String.length s = (2 * length key)%nat)
       /\ forall c key, hex.Decode (String c s) = (key, None) ->
                        String.length (String c s) = (2 * length key)%nat).
  { intros [Hs _]. exact Hs. }
  induction s as [|q s [IH0 IH1]].
  - split; [by intros key [= <-]|]. intros c key. cbn [hex.Decode].
    by destruct (hex.fromHexChar c).
  - split; [apply IH1|]. intros p key. rewrite Decode_unfold.
    destruct (hex.fromHexChar p); [|discriminate].
    destruct (hex.fromHexChar q); [|discriminate].
    destruct (hex.Decode s) as [dst [e|]] eqn:Hs; [discriminate|].
    intros [= <-]. cbn [String.length length]. rewrite (IH0 dst eq_refl). lia.
Qed.

(** X16. Integrity of an in-memory store: that every object is stored
    under the SHA-256 digest of its bytes holds of the empty store and is
    kept by WriteObject, Add, CreateCommit and Commit; in such a store
    whatever ReadRawObject returns for a hash has that hash as its digest,
    and only hashes of 64 characters can be read. *)
Theorem store_integrity {A : Type} `{Object A} (w : Workspace mockStorage)
    (name : string) (obj : A) (treeHash message : string) (parentHashes : slice string)
    (now : time.Time) (hash : string) (d : bytes) :
  content_addressed (NewObjectStore NewMockStorage)
  /\ (content_addressed (store w) ->
      content_addressed (WriteObject (store w) obj).2
      /\ content_addressed (store (Workspace_Add w name obj).2)
      /\ content_addressed
           (default (store w)
              (CreateCommit (Some (store w)) treeHash message parentHashes now).2)
      /\ content_addressed (store (Workspace_Commit w message parentHashes now).2)
      /\ ((ReadRawObject (store w) hash).1 = (d, None) ->
          hex.DecodeString hash = (sha256.Sum256 d, None)
          /\ String.length hash = 64%nat)).
Proof.
  split.
  { intros key value Hl. cbn in Hl. rewrite lookup_empty in Hl. discriminate Hl. }
  intros Hinv.
  split; [by apply WriteObject_addressing_kept|].
  split.
  { rewrite Workspace_Add_cases.
    pose proof (WriteObject_addressing_kept (store w) obj Hinv) as Hm.
    by destruct (WriteObject (store w) obj) as [[h [e|]] st]. }
  split; [by apply CreateCommit_addressing_kept|].
  split.
  { unfold Workspace_Commit.
    pose proof (WriteObject_addressing_kept (store w) (tree w) Hinv) as Hm.
    destruct (WriteObject (store w) (tree w)) as [[th [e|]] st]; cbn [snd] in Hm; [exact Hm|].
    pose proof (CreateCommit_addressing_kept st th message parentHashes now Hm) as Hc.
    destruct (CreateCommit (Some st) th message parentHashes now) as [[ch [e|]] st'];
      exact Hc. }
  rewrite mock_ReadRawObject. cbn [fst].
  destruct (hex.DecodeString hash) as [key [e|]] eqn:Hdec; [intros Hf; discriminate Hf|].
  destruct (data (storage (store w)) !! string_of_bytes key) as [value|] eqn:Hl;
    [|intros Hf; discriminate Hf].
  intros Hv. apply (f_equal fst) in Hv. cbn [fst] in Hv. subst value.
  apply Hinv, string_of_bytes_inj in Hl. subst key.
  split; [reflexivity|].
  rewrite (Decode_length hash _ Hdec), Sum256_length. reflexivity.
Qed.

Lemma store_integrity_witness :
  content_addressed example_store
  /\ hex.DecodeString example_hash
     = (sha256.Sum256 (bytes_of_string (dq "{'id':'test_id','data':'hello world'}")), None).
Proof.
  destruct (store_integrity fresh_workspace "object_a" example_object "t" "m" None
              example_now example_hash []) as [Hfresh Hstep].
  destruct (Hstep Hfresh) as (Hstore & _).
  split; [exact Hstore|].
  destruct (store_integrity (mkWorkspace example_store NewTree) "object_a" example_object
              "t" "m" None example_now example_hash
              (bytes_of_string (dq "{'id':'test_id','data':'hello world'}")))
    as [_ Hstep'].
  destruct (Hstep' Hstore) as (_ & _ & _ & _ & Hread).
  apply Hread. vm_compute. reflexivity.
Defined.

(* ------------------------------------------------------------------ *)
(** ** The timestamp of a commit *)

(** ** The civil date *)

Lemma yoe_bounds (doe : Z) :
  0 <= doe <= 146096 ->
  0 <= (doe - doe / 1460 + doe / 36524 - doe / 146096) / 365 <= 399.
Proof. intros H. Z.div_mod_to_equations. lia. Qed.

Lemma doy_bounds (doe : Z) :
  0 <= doe <= 146096 ->
  let yoe := (doe - doe / 1460 + doe / 36524 - doe / 146096) / 365 in
  0 <= doe - (365 * yoe + yoe / 4 - yoe / 100) <= 365.
Proof. intros H yoe. subst yoe. Z.div_mod_to_equations. lia. Qed.

Lemma month_day_bounds (doy : Z) :
  0 <= doy <= 365 ->
  let mp := (5 * doy + 2) / 153 in
  0 <= mp <= 11 /\ 1 <= doy - (153 * mp + 2) / 5 + 1 <= 31.
Proof. intros H mp. subst mp. Z.div_mod_to_equations. lia. Qed.

(** The date of a day count: the year is any integer, the month is
    within 1..12 and the day within 1..31. *)
Lemma date_of_days_bounds (days : Z) :
  let '(y, m, d) := time.date_of_days days in 1 <= m <= 12 /\ 1 <= d <= 31.
Proof.
  unfold time.date_of_days. cbv zeta.
  set (z := days + 719468). set (era := z / 146097). set (doe := z - era * 146097).
  assert (0 <= doe <= 146096) as Hdoe by (subst doe era; Z.div_mod_to_equations; lia).
  clearbody doe.
  pose proof (doy_bounds doe Hdoe) as Hdoy. cbv zeta in Hdoy.
  set (yoe := (doe - doe / 1460 + doe / 36524 - doe / 146096) / 365) in *.
  set (doy := doe - (365 * yoe + yoe / 4 - yoe / 100)) in *.
  destruct (month_day_bounds doy Hdoy) as [Hmp Hd].
  set (mp := (5 * doy + 2) / 153) in *.
  split; [|exact Hd].
  destruct (Z.ltb_spec mp 10); lia.
Qed.

Lemma date_of_days_inj (days1 days2 : Z) :
  time.date_of_days days1 = time.date_of_days days2 -> days1 = days2.
Proof.
  unfold time.date_of_days. cbv zeta.
  set (z1 := days1 + 719468). set (z2 := days2 + 719468).
  set (era1 := z1 / 146097). set (era2 := z2 / 146097).
  set (doe1 := z1 - era1 * 146097). set (doe2 := z2 - era2 * 146097).
  assert (0 <= doe1 <= 146096) as Hd1 by (subst doe1 era1; Z.div_mod_to_equations; lia).
  assert (0 <= doe2 <= 146096) as Hd2 by (subst doe2 era2; Z.div_mod_to_equations; lia).
  assert (days1 = doe1 + era1 * 146097 - 719468) as Hdays1 by (subst doe1 z1; lia).
  assert (days2 = doe2 + era2 * 146097 - 719468) as Hdays2 by (subst doe2 z2; lia).
  clearbody doe1 doe2 era1 era2. clearbody z1 z2.
  pose proof (yoe_bounds doe1 Hd1) as Hy1. pose proof (yoe_bounds doe2 Hd2) as Hy2.
  pose proof (doy_bounds doe1 Hd1) as Hdoy1. pose proof (doy_bounds doe2 Hd2) as Hdoy2.
  cbv zeta in Hdoy1, Hdoy2.
  set (yoe1 := (doe1 - doe1 / 1460 + doe1 / 36524 - doe1 / 146096) / 365) in *.
  set (yoe2 := (doe2 - doe2 / 1460 + doe2 / 36524 - doe2 / 146096) / 365) in *.
  clearbody yoe1 yoe2.
  set (first1 := 365 * yoe1 + yoe1 / 4 - yoe1 / 100) in *.
  set (first2 := 365 * yoe2 + yoe2 / 4 - yoe2 / 100) in *.
  assert (yoe1 = yoe2 -> first1 = first2) as Hleap by (by intros ->).
  clearbody first1 first2.
  set (doy1 := doe1 - first1) in *. set (doy2 := doe2 - first2) in *.
  assert (doe1 = doy1 + first1) as Hdoe1 by (subst doy1; lia).
  assert (doe2 = doy2 + first2) as Hdoe2 by (subst doy2; lia).
  clearbody doy1 doy2.
  destruct (month_day_bounds doy1 Hdoy1) as [Hmp1 Hday1].
  destruct (month_day_bounds doy2 Hdoy2) as [Hmp2 Hday2].
  set (mp1 := (5 * doy1 + 2) / 153) in *. set (mp2 := (5 * doy2 + 2) / 153) in *.
  clearbody mp1 mp2.
  set (off1 := (153 * mp1 + 2) / 5) in *. set (off2 := (153 * mp2 + 2) / 5) in *.
  assert (mp1 = mp2 -> off1 = off2) as Hoff by (by intros ->).
  clearbody off1 off2.
  intros [= Hy Hm Hd].
  assert (mp1 = mp2 /\ yoe1 + era1 * 400 = yoe2 + era2 * 400) as [Hmp Hyear].
  { revert Hy Hm.
    destruct (Z.ltb_spec mp1 10), (Z.ltb_spec mp2 10);
      repeat match goal with
             | |- context [?a <=? ?b] => destruct (Z.leb_spec a b)
             end; lia. }
  specialize (Hoff Hmp).
  assert (yoe1 = yoe2 /\ era1 = era2) as [Hyoe ->] by lia.
  specialize (Hleap Hyoe). lia.
Qed.

(** ** Decimal numbers *)

Lemma of_uint_acc_lower (d : Decimal.uint) (acc : positive) :
  (Npos acc * 10 ^ N.of_nat (Decimal.nb_digits d) <= Npos (Pos.of_uint_acc d acc))%N.
Proof.
  revert acc. induction d as [|d IH|d IH|d IH|d IH|d IH|d IH|d IH|d IH|d IH|d IH];
    intros acc; cbn [Decimal.nb_digits Pos.of_uint_acc];
    [rewrite N.pow_0_r; lia|..];
    rewrite Nat2N.inj_succ, N.pow_succ_r';
    (etransitivity; [|apply IH]); nia.
Qed.

Lemma of_uint_lower (d : Decimal.uint) :
  Decimal.nzhead d = d -> d <> Decimal.Nil ->
  (10 ^ N.of_nat (Decimal.nb_digits d - 1) <= N.of_uint d)%N.
Proof.
  intros Hnz Hnil. unfold N.of_uint.
  destruct d as [|d|d|d|d|d|d|d|d|d|d]; [done| |..];
    cbn [Pos.of_uint Decimal.nb_digits]; rewrite ?Nat.sub_succ, ?Nat.sub_0_r;
    try (etransitivity; [|apply of_uint_acc_lower]; lia).
  exfalso. cbn [Decimal.nzhead] in Hnz.
  pose proof (DecimalFacts.nb_digits_nzhead d) as Hle. rewrite Hnz in Hle.
  cbn [Decimal.nb_digits] in Hle. lia.
Qed.

Lemma to_uint_length (n : N) (k : nat) :
  (1 <= k)%nat -> (n < 10 ^ N.of_nat k)%N -> (Decimal.nb_digits (N.to_uint n) <= k)%nat.
Proof.
  intros Hk Hn. destruct n as [|p]; [cbn; lia|].
  pose proof (DecimalN.Unsigned.of_to (Npos p)) as Hof.
  pose proof (DecimalN.Unsigned.to_of (N.to_uint (Npos p))) as Hto. rewrite Hof in Hto.
  assert (Decimal.nzhead (N.to_uint (Npos p)) = N.to_uint (Npos p)) as Hnz.
  { symmetry in Hto. unfold Decimal.unorm in Hto.
    destruct (Decimal.nzhead (N.to_uint (Npos p))) eqn:Hh; try exact Hto.
    exfalso. by apply (DecimalPos.Unsigned.to_uint_nonzero p). }
  pose proof (of_uint_lower (N.to_uint (Npos p)) Hnz
                (DecimalPos.Unsigned.to_uint_nonnil p)) as Hlow.
  rewrite Hof in Hlow.
  assert (10 ^ N.of_nat (Decimal.nb_digits (N.to_uint (N.pos p)) - 1)
          < 10 ^ N.of_nat k)%N as Hpow by lia.
  apply N.pow_lt_mono_r_iff in Hpow; lia.
Qed.

Lemma string_of_uint_length (d : Decimal.uint) :
  String.length (NilEmpty.string_of_uint d) = Decimal.nb_digits d.
Proof. induction d; cbn; congruence. Qed.

Lemma string_of_uint_digits (d : Decimal.uint) :
  digits (NilEmpty.string_of_uint d) = true.
Proof. unfold digits. induction d; cbn; try done. Qed.

Lemma decimal_unfold (u : Z) :
  time.decimal u = NilEmpty.string_of_uint (N.to_uint (Z.to_N u)).
Proof.
  unfold time.decimal, NilZero.string_of_uint.
  destruct (N.to_uint (Z.to_N u)) eqn:Hd; try reflexivity.
  exfalso. destruct (Z.to_N u) as [|p]; [discriminate Hd|].
  by apply (DecimalPos.Unsigned.to_uint_nonnil p).
Qed.

Lemma parse_digits_decimal (u : Z) : parse_digits (time.decimal u) = Some (Z.to_N u).
Proof.
  unfold parse_digits. rewrite decimal_unfold, NilEmpty.usu. cbn.
  by rewrite DecimalN.Unsigned.of_to.
Qed.

Lemma parse_digits_zeros (n : nat) (s : string) :
  parse_digits (time.zeros n ++ s) = parse_digits s.
Proof.
  induction n as [|n IH]; [reflexivity|].
  cbn [time.zeros]. rewrite string_app_cons. unfold parse_digits in *.
  cbn [NilEmpty.uint_of_string]. rewrite <- IH.
  by destruct (NilEmpty.uint_of_string (time.zeros n ++ s)).
Qed.

Lemma digits_app (a b : string) : digits (a ++ b) = digits a && digits b.
Proof. unfold digits. by rewrite list_ascii_of_string_app, forallb_app. Qed.

Lemma digits_zeros (n : nat) : digits (time.zeros n) = true.
Proof. induction n; [done|]. exact IHn. Qed.

Lemma appendInt_nonneg (x : Z) (width : nat) :
  0 <= x ->
  time.appendInt x width
  = (time.zeros (width - String.length (time.decimal x)) ++ time.decimal x)%string.
Proof.
  intros Hx. unfold time.appendInt.
  destruct (Z.ltb_spec x 0); [lia|]. by rewrite Z.abs_eq.
Qed.

Lemma appendInt_digits (x : Z) (width : nat) :
  0 <= x -> digits (time.appendInt x width) = true.
Proof.
  intros Hx. rewrite (appendInt_nonneg x width Hx), digits_app, digits_zeros.
  by rewrite decimal_unfold, string_of_uint_digits.
Qed.

Lemma appendInt_parse (x : Z) (width : nat) :
  0 <= x -> parse_digits (time.appendInt x width) = Some (Z.to_N x).
Proof.
  intros Hx. by rewrite (appendInt_nonneg x width Hx), parse_digits_zeros, parse_digits_decimal.
Qed.

Lemma appendInt_inj (x y : Z) (width : nat) :
  0 <= x -> 0 <= y -> time.appendInt x width = time.appendInt y width -> x = y.
Proof.
  intros Hx Hy Heq. apply (f_equal parse_digits) in Heq.
  rewrite !appendInt_parse in Heq by done. injection Heq. lia.
Qed.

Lemma string_length_app (a b : string) :
  String.length (a ++ b) = (String.length a + String.length b)%nat.
Proof. induction a as [|c a IH]; [done|]. rewrite string_app_cons. cbn. by rewrite IH. Qed.

Lemma zeros_length (n : nat) : String.length (time.zeros n) = n.
Proof. induction n; cbn; congruence. Qed.

Lemma appendInt_length (x : Z) (width : nat) :
  (1 <= width)%nat -> 0 <= x < 10 ^ Z.of_nat width ->
  String.length (time.appendInt x width) = width.
Proof.
  intros Hw Hx. rewrite (appendInt_nonneg x width) by lia.
  rewrite string_length_app, zeros_length, decimal_unfold, string_of_uint_length.
  pose proof (to_uint_length (Z.to_N x) width Hw) as Hlen.
  assert (Z.to_N x < 10 ^ N.of_nat width)%N as Hlt.
  { apply N2Z.inj_lt. rewrite Z2N.id, N2Z.inj_pow, nat_N_Z by lia. apply Hx. }
  specialize (Hlen Hlt). lia.
Qed.

(** Two strings of digits, each followed by something that is not a
    digit, are equal when the whole texts are. *)
Lemma digits_split (a b : string) (c1 c2 : ascii) (r1 r2 : string) :
  digits a = true -> digits b = true -> digit c1 = false -> digit c2 = false ->
  (a ++ String c1 r1 = b ++ String c2 r2)%string -> a = b /\ String c1 r1 = String c2 r2.
Proof.
  revert b. induction a as [|x a IH]; intros [|y b] Ha Hb H1 H2 Heq.
  - done.
  - exfalso. change (EmptyString ++ ?s)%string with s in Heq. rewrite string_app_cons in Heq.
    apply string_cons_inv in Heq as [-> _].
    unfold digits in Hb. cbn in Hb. apply andb_true_iff in Hb as [Hy _]. congruence.
  - exfalso. change (EmptyString ++ ?s)%string with s in Heq. rewrite string_app_cons in Heq.
    apply string_cons_inv in Heq as [<- _].
    unfold digits in Ha. cbn in Ha. apply andb_true_iff in Ha as [Hx _]. congruence.
  - rewrite !string_app_cons in Heq. apply string_cons_inv in Heq as [-> Heq].
    unfold digits in Ha, Hb. cbn in Ha, Hb.
    apply andb_true_iff in Ha as [_ Ha]. apply andb_true_iff in Hb as [_ Hb].
    destruct (IH b Ha Hb H1 H2 Heq) as [-> Hr]. done.
Qed.

(** ** Nanoseconds *)

Lemma trim_zeros_cons (c : ascii) (l : list ascii) :
  time.trim_zeros (c :: l) = if Ascii.eqb c "0" then time.trim_zeros l else c :: l.
Proof. destruct c as [[] [] [] [] [] [] [] []]; reflexivity. Qed.

Lemma trim_zeros_spec (l : list ascii) :
  exists k, l = repeat "0"%char k ++ time.trim_zeros l.
Proof.
  induction l as [|c l [k IH]]; [by exists 0%nat|].
  rewrite trim_zeros_cons. destruct (Ascii.eqb_spec c "0") as [->|_].
  - exists (S k). cbn [repeat app]. by rewrite <- IH.
  - by exists 0%nat.
Qed.

Lemma trim_zeros_inj (l1 l2 : list ascii) :
  length l1 = length l2 -> time.trim_zeros l1 = time.trim_zeros l2 -> l1 = l2.
Proof.
  intros Hlen Heq.
  destruct (trim_zeros_spec l1) as [k1 H1], (trim_zeros_spec l2) as [k2 H2].
  rewrite H1, H2, Heq in Hlen. rewrite !length_app, !repeat_length in Hlen.
  rewrite H1, H2, Heq. f_equal. f_equal. lia.
Qed.

Lemma list_ascii_of_string_length (s : string) :
  length (list_ascii_of_string s) = String.length s.
Proof. induction s; cbn; congruence. Qed.

Lemma appendNano_inj (ns1 ns2 : Z) :
  0 <= ns1 < 10 ^ 9 -> 0 <= ns2 < 10 ^ 9 ->
  time.appendNano ns1 = time.appendNano ns2 -> ns1 = ns2.
Proof.
  intros H1 H2 Heq. unfold time.appendNano in Heq. cbv zeta in Heq.
  assert (time.trim_zeros (rev (list_ascii_of_string (time.appendInt ns1 9)))
          = time.trim_zeros (rev (list_ascii_of_string (time.appendInt ns2 9)))) as Ht.
  { destruct (time.trim_zeros (rev (list_ascii_of_string (time.appendInt ns1 9))))
      as [|c1 r1],
      (time.trim_zeros (rev (list_ascii_of_string (time.appendInt ns2 9)))) as [|c2 r2];
      try done.
    apply string_cons_inv in Heq as [_ Heq].
    apply (f_equal list_ascii_of_string) in Heq.
    rewrite !list_ascii_of_string_of_list_ascii in Heq.
    apply (f_equal (@rev ascii)) in Heq. by rewrite !rev_involutive in Heq. }
  apply trim_zeros_inj in Ht.
  - apply (f_equal (@rev ascii)) in Ht. rewrite !rev_involutive in Ht.
    apply (f_equal string_of_list_ascii) in Ht.
    rewrite !string_of_list_ascii_of_string in Ht.
    apply appendInt_inj in Ht; lia.
  - rewrite !length_rev, !list_ascii_of_string_length.
    rewrite !appendInt_length; [done|lia|exact H2|lia|exact H1].
Qed.

Lemma appendNano_head (ns : Z) :
  exists c r, (time.appendNano ns ++ "Z")%string = String c r /\ digit c = false.
Proof.
  unfold time.appendNano. cbv zeta.
  destruct (time.trim_zeros _) as [|c0 r0].
  - by exists "Z"%char, EmptyString.
  - eexists "."%char, _. by rewrite string_app_cons.
Qed.

(** ** The text of a time in UTC *)

Lemma clock_inj (s1 s2 : Z) :
  0 <= s1 < 86400 -> 0 <= s2 < 86400 ->
  s1 / 3600 = s2 / 3600 -> (s1 mod 3600) / 60 = (s2 mod 3600) / 60 ->
  s1 mod 60 = s2 mod 60 -> s1 = s2.
Proof. intros H1 H2 Hh Hm Hs. Z.div_mod_to_equations. lia. Qed.

Ltac split_field Heq H :=
  rewrite ?string_app_cons in Heq;
  change (EmptyString ++ ?s)%string with s in Heq;
  apply digits_split in Heq as [H Heq];
  [apply string_cons_inv in Heq as [_ Heq]
  |apply appendInt_digits; lia|apply appendInt_digits; lia|reflexivity|reflexivity].

Lemma appendFormatRFC3339_UTC_inj (t1 t2 : time.Time) :
  time.zoneOffset t1 = 0 -> time.zoneOffset t2 = 0 ->
  0 <= time.nsec t1 < 10 ^ 9 -> 0 <= time.nsec t2 < 10 ^ 9 ->
  time.strict_error t1 = None -> time.strict_error t2 = None ->
  time.appendFormatRFC3339 t1 = time.appendFormatRFC3339 t2 -> t1 = t2.
Proof.
  destruct t1 as [u1 n1 z1], t2 as [u2 n2 z2].
  cbn [time.zoneOffset time.nsec]. intros -> -> Hn1 Hn2.
  unfold time.strict_error, time.appendFormatRFC3339, time.Date, time.Clock.
  cbn [time.unixSec time.zoneOffset time.nsec Z.eqb]. rewrite !Z.add_0_r.
  pose proof (date_of_days_bounds (u1 / 86400)) as Hb1.
  pose proof (date_of_days_bounds (u2 / 86400)) as Hb2.
  pose proof (date_of_days_inj (u1 / 86400) (u2 / 86400)) as Hdate.
  destruct (time.date_of_days (u1 / 86400)) as [[y1 m1] d1].
  destruct (time.date_of_days (u2 / 86400)) as [[y2 m2] d2].
  destruct (Z.ltb_spec y1 0) as [|Hy1]; [discriminate|].
  destruct (Z.ltb_spec y2 0) as [|Hy2]; [discriminate|].
  intros _ _ Heq.
  pose proof (Z.mod_pos_bound u1 86400 ltac:(lia)) as Hs1.
  pose proof (Z.mod_pos_bound u2 86400 ltac:(lia)) as Hs2.
  set (s1 := u1 mod 86400) in *. set (s2 := u2 mod 86400) in *.
  assert (0 <= s1 / 3600 /\ 0 <= s1 mod 3600 / 60 /\ 0 <= s1 mod 60) as (? & ? & ?)
    by (Z.div_mod_to_equations; lia).
  assert (0 <= s2 / 3600 /\ 0 <= s2 mod 3600 / 60 /\ 0 <= s2 mod 60) as (? & ? & ?)
    by (Z.div_mod_to_equations; lia).
  split_field Heq Hyear. split_field Heq Hmonth.
  split_field Heq Hday. split_field Heq Hhour. split_field Heq Hmin.
  destruct (appendNano_head n1) as (c1 & r1 & E1 & Hc1).
  destruct (appendNano_head n2) as (c2 & r2 & E2 & Hc2).
  rewrite E1, E2 in Heq.
  apply digits_split in Heq as [Hsec Heq];
    [|apply appendInt_digits; lia|apply appendInt_digits; lia|done|done].
  rewrite <- E1, <- E2 in Heq. apply string_app_inv_tail in Heq.
  apply appendNano_inj in Heq; [|done|done].
  apply appendInt_inj in Hyear, Hmonth, Hday, Hhour, Hmin, Hsec; try lia.
  subst y2 m2 d2 n2. specialize (Hdate eq_refl).
  assert (s1 = s2) as Hs by (by apply clock_inj).
  f_equal. subst s1 s2. Z.div_mod_to_equations. lia.
Qed.

(* ------------------------------------------------------------------ *)
(** ** What a commit hash stands for *)

(** X17. For commits in UTC, as CreateCommit makes them,
    Commit.Serialize is injective: two commits whose strings are valid
    UTF-8, whose timestamps are in UTC, can be encoded and have their
    nanoseconds within a second, and which serialize to the same bytes, are
    the same commit, instant included. *)
Theorem Commit_Serialize_injective_UTC (c1 c2 : Commit) :
  time.zoneOffset (Timestamp c1) = 0 -> time.zoneOffset (Timestamp c2) = 0 ->
  0 <= time.nsec (Timestamp c1) < 10 ^ 9 -> 0 <= time.nsec (Timestamp c2) < 10 ^ 9 ->
  time.strict_error (Timestamp c1) = None -> time.strict_error (Timestamp c2) = None ->
  valid_commit c1 = true -> valid_commit c2 = true ->
  (Commit_Serialize c1).1 = (Commit_Serialize c2).1 -> c1 = c2.
Proof.
  intros Hz1 Hz2 Hn1 Hn2 Ht1 Ht2 Ha1 Ha2 Heq.
  rewrite !Commit_Serialize_encodable in Heq by done. cbn [fst] in Heq.
  apply bytes_of_string_inj in Heq.
  apply commit_text_inj in Heq as (Htree & Hparents & Hmessage & Htime); [|done..].
  apply appendFormatRFC3339_UTC_inj in Htime; [|done..].
  destruct c1 as [th1 ps1 m1 ts1], c2 as [th2 ps2 m2 ts2].
  cbn [TreeHash ParentHashes Message Timestamp] in *. by subst.
Qed.

Lemma Commit_Serialize_injective_UTC_witness :
  example_commit
  = mkCommit "t" (Some ["p1"; "p2"]) "m"
             (time.UTC (time.mkTime 1700000000 120000000 3600)).
Proof.
  apply Commit_Serialize_injective_UTC.
  - reflexivity.
  - reflexivity.
  - cbn. lia.
  - cbn. lia.
  - reflexivity.
  - reflexivity.
  - reflexivity.
  - reflexivity.
  - vm_compute. reflexivity.
Defined.

Lemma lowercase_hex_ascii (c : ascii) :
  one_of "0123456789abcdef" c = true -> byte_value c < 0x80.
Proof.
  destruct c as [b0 b1 b2 b3 b4 b5 b6 [|]].
  - destruct b0, b1, b2, b3, b4, b5, b6; intros Hc; discriminate Hc.
  - intros _. destruct b0, b1, b2, b3, b4, b5, b6; reflexivity.
Qed.

Lemma utf8_ValidString_lowercase_hex (s : string) :
  lowercase_hex s = true -> utf8_ValidString s = true.
Proof.
  unfold lowercase_hex, utf8_ValidString.
  induction s as [|c s IH]; [done|].
  cbn [list_ascii_of_string forallb utf8_ValidString_loop].
  intros [Hc Hs]%andb_true_iff. apply lowercase_hex_ascii in Hc.
  destruct (Z.ltb_spec (byte_value c) utf8.RuneSelf) as [_|Hge]; [by apply IH|].
  unfold utf8.RuneSelf in Hge. lia.
Qed.

Lemma Commit_Serialize_success (c : Commit) (d : bytes) :
  Commit_Serialize c = (d, None) -> time.strict_error (Timestamp c) = None.
Proof.
  intros Hd. pose proof (MarshalJSON_cases (Timestamp c)) as Ht.
  destruct (time.strict_error (Timestamp c)) as [e0|]; [exfalso|done].
  destruct Ht as [e Ht].
  revert Hd. unfold Commit_Serialize, json.Marshal, Commit_value.
  cbn [json.encode map fst snd json.join_encoded]. rewrite Ht.
  destruct (json.encode _) as [b [e1|]]; discriminate.
Qed.

Lemma EncodeToString_inj (a b : bytes) :
  hex.EncodeToString a = hex.EncodeToString b -> a = b.
Proof.
  intros Heq. apply (f_equal hex.DecodeString) in Heq.
  rewrite !DecodeString_EncodeToString in Heq. by apply (f_equal fst) in Heq.
Qed.

Lemma WriteObject_success {S A : Type} `{Storage S} `{Object A}
    (s s' : ObjectStore S) (obj : A) (d : bytes) (h : string) :
  Serialize obj = (d, None) -> WriteObject s obj = ((h, None), s') ->
  h = hex.EncodeToString (sha256.Sum256 d).
Proof.
  intros Hd Hw. rewrite (WriteObject_serialized s obj d Hd) in Hw.
  destruct (Put (storage s) _ _).1; [discriminate Hw|].
  apply (f_equal (fun r => r.1.1)) in Hw. cbn [fst] in Hw. by symmetry.
Qed.

(** X18. A commit hash stands for the whole content: if two Commits,
    in any two workspaces over any two backends, return the same hash, then
    (unless SHA-256 collides on the two commit texts or on the two tree
    texts) the staging trees are equal, and so are the messages, the parent
    lists and the instants of the two commits. *)
Theorem commit_hash_identifies_content {S1 S2 : Type} `{Storage S1} `{Storage S2}
    (w1 : Workspace S1) (w2 : Workspace S2) (message1 message2 : string)
    (parents1 parents2 : slice string) (now1 now2 : time.Time) (hash : string) :
  let tree_bytes1 := (Tree_Serialize (tree w1)).1 in
  let tree_bytes2 := (Tree_Serialize (tree w2)).1 in
  let commit_bytes1 :=
    (Commit_Serialize (mkCommit (hex.EncodeToString (sha256.Sum256 tree_bytes1))
                                parents1 message1 (time.UTC now1))).1 in
  let commit_bytes2 :=
    (Commit_Serialize (mkCommit (hex.EncodeToString (sha256.Sum256 tree_bytes2))
                                parents2 message2 (time.UTC now2))).1 in
  valid_tree (tree w1) = true -> valid_tree (tree w2) = true ->
  utf8_ValidString message1 = true -> utf8_ValidString message2 = true ->
  valid_slice parents1 = true -> valid_slice parents2 = true ->
  0 <= time.nsec now1 < 10 ^ 9 -> 0 <= time.nsec now2 < 10 ^ 9 ->
  (Workspace_Commit w1 message1 parents1 now1).1 = (hash, None) ->
  (Workspace_Commit w2 message2 parents2 now2).1 = (hash, None) ->
  (sha256.Sum256 commit_bytes1 = sha256.Sum256 commit_bytes2 ->
   commit_bytes1 = commit_bytes2) ->
  (sha256.Sum256 tree_bytes1 = sha256.Sum256 tree_bytes2 -> tree_bytes1 = tree_bytes2) ->
  tree w1 = tree w2 /\ message1 = message2 /\ parents1 = parents2
  /\ time.UTC now1 = time.UTC now2.
Proof.
  intros tb1 tb2 cb1 cb2 Ht1 Ht2 Hm1 Hm2 Hp1 Hp2 Hn1 Hn2 Hc1 Hc2 Hcommit Htree.
  apply Workspace_Commit_success in Hc1 as (th1 & st1 & d1 & Hw1 & Hd1 & Hh1).
  apply Workspace_Commit_success in Hc2 as (th2 & st2 & d2 & Hw2 & Hd2 & Hh2).
  apply (WriteObject_success _ _ _ tb1 _ (Tree_Serialize_ok (tree w1))) in Hw1.
  apply (WriteObject_success _ _ _ tb2 _ (Tree_Serialize_ok (tree w2))) in Hw2.
  subst th1 th2.
  assert (cb1 = d1) as E1 by (subst cb1; by rewrite Hd1).
  assert (cb2 = d2) as E2 by (subst cb2; by rewrite Hd2).
  assert (cb1 = cb2) as Hcb.
  { apply Hcommit. rewrite E1, E2. apply EncodeToString_inj. congruence. }
  pose proof (Commit_Serialize_success _ _ Hd1) as Hok1.
  pose proof (Commit_Serialize_success _ _ Hd2) as Hok2.
  subst cb1 cb2. rewrite !Commit_Serialize_encodable in Hcb by done.
  cbn [fst TreeHash Message ParentHashes Timestamp] in Hcb.
  apply bytes_of_string_inj in Hcb.
  apply (commit_text_inj (mkCommit _ parents1 message1 (time.UTC now1))
                         (mkCommit _ parents2 message2 (time.UTC now2)))
    in Hcb as (Hth & Hps & Hmsg & Htime).
  - cbn [TreeHash Message ParentHashes] in Hth, Hps, Hmsg.
    split; [|split; [done|split; [done|]]].
    + apply EncodeToString_inj, Htree in Hth. by apply Tree_Serialize_inj.
    + by apply appendFormatRFC3339_UTC_inj.
  - unfold valid_commit. cbn [TreeHash Message ParentHashes].
    by rewrite (utf8_ValidString_lowercase_hex _ (EncodeToString_lowercase _)), Hm1.
  - unfold valid_commit. cbn [TreeHash Message ParentHashes].
    by rewrite (utf8_ValidString_lowercase_hex _ (EncodeToString_lowercase _)), Hm2.
Qed.

Lemma commit_hash_identifies_content_witness :
  tree (add_all fresh_workspace test_items) = tree (add_all fresh_workspace (rev test_items)).
Proof.
  destruct (commit_hash_identifies_content
              (add_all fresh_workspace test_items) (add_all fresh_workspace (rev test_items))
              "first" "first" (Some []) (Some []) example_now example_now
              (Workspace_Commit (add_all fresh_workspace test_items) "first" (Some [])
                 example_now).1.1) as (Htree & _).
  - vm_compute. reflexivity.
  - vm_compute. reflexivity.
  - reflexivity.
  - reflexivity.
  - reflexivity.
  - reflexivity.
  - cbn. lia.
  - cbn. lia.
  - vm_compute. reflexivity.
  - vm_compute. reflexivity.
  - intros _. vm_compute. reflexivity.
  - intros _. vm_compute. reflexivity.
  - exact Htree.
Defined.
